(** * multi_provider_extractor: provider detection and field extraction

    A shallow embedding of [backend/multi_provider_extractor.py].

    Text is a list of characters.  A character is a Unicode code point below
    256 (the Latin-1 range, which holds the pound sign, code point 163), so
    [Ascii.ascii] is used as an 8-bit code point and not as a UTF-8 byte.
    A Python float is an IEEE 754 binary64 number, as [SpecFloat] of the
    standard library has them: [float] rounds the decimal it reads to the
    nearest one, ties to even, and [+] and [/] round their results in the
    same way.  The integer 0 that the program uses as a default is the
    positive zero of the floats: Python adds, divides and compares the two
    alike, and only the printed form tells them apart. *)

From Stdlib Require Import Ascii String Bool Arith ZArith QArith SpecFloat Lia
  List.
Import ListNotations.

Set Warnings "-register-all".

Close Scope Q_scope.
Local Open Scope nat_scope.
Local Open Scope list_scope.

(* ================================================================= *)
(** ** Characters and text *)

Definition text := list ascii.

(** A Rocq string literal read as text (ASCII literals only). *)
Definition str (s : string) : text := list_ascii_of_string s.

Definition code (c : ascii) : nat := nat_of_ascii c.

Definition newline : ascii := ascii_of_nat 10.

(** The pound sign, U+00A3. *)
Definition pound : ascii := ascii_of_nat 163.

(** [Py_UNICODE_ISSPACE] on code points below 256: used by [\s] and by
    [str.strip]. *)
Definition is_space (c : ascii) : bool :=
  let n := code c in
  ((9 <=? n) && (n <=? 13)) || ((28 <=? n) && (n <=? 32))
  || (n =? 133) || (n =? 160).

(** [\d] on code points below 256: the ten ASCII digits. *)
Definition is_digit (c : ascii) : bool :=
  let n := code c in (48 <=? n) && (n <=? 57).

Definition in_range (lo hi c : ascii) : bool :=
  (code lo <=? code c) && (code c <=? code hi).

(** [str.lower] on one code point below 256: [A-Z] and the Latin-1 capital
    letters (192..222 except the multiplication sign 215) move up by 32. *)
Definition lower_char (c : ascii) : ascii :=
  let n := code c in
  if ((65 <=? n) && (n <=? 90))
     || ((192 <=? n) && (n <=? 222) && negb (n =? 215))
  then ascii_of_nat (n + 32) else c.

Definition lower (t : text) : text := map lower_char t.

(** [needle in hay] *)
Fixpoint starts_with (p t : text) : bool :=
  match p, t with
  | [], _ => true
  | a :: p', b :: t' => Ascii.eqb a b && starts_with p' t'
  | _ :: _, [] => false
  end.

Fixpoint contains (needle hay : text) : bool :=
  starts_with needle hay ||
  match hay with
  | [] => false
  | _ :: hay' => contains needle hay'
  end.

(** [s.replace(',', '')] *)
Definition remove_commas (s : text) : text :=
  filter (fun c => negb (Ascii.eqb c ","%char)) s.

(** [s.strip()] *)
Fixpoint lstrip (s : text) : text :=
  match s with
  | c :: s' => if is_space c then lstrip s' else s
  | [] => []
  end.

Definition strip (s : text) : text := rev (lstrip (rev (lstrip s))).

(* ================================================================= *)
(** ** Regular expressions of Python's [re], as far as the patterns go *)

(** Character sets. *)
Inductive cset : Type :=
| CAny                      (* [.] without DOTALL: all but newline *)
| CAll                      (* [.] under DOTALL *)
| CDigit                    (* [\d] *)
| CSpace                    (* [\s] *)
| COne (c : ascii)          (* a literal character *)
| CRange (lo hi : ascii)    (* [lo-hi] *)
| CUnion (a b : cset).      (* members of a bracket set *)

Fixpoint cmatch (cs : cset) (c : ascii) : bool :=
  match cs with
  | CAny => negb (Ascii.eqb c newline)
  | CAll => true
  | CDigit => is_digit c
  | CSpace => is_space c
  | COne d => Ascii.eqb d c
  | CRange lo hi => in_range lo hi c
  | CUnion a b => cmatch a c || cmatch b c
  end.

Inductive regex : Type :=
| Eps
| Cls (cs : cset)
| Seq (a b : regex)
| Alt (a b : regex)
| Star (greedy : bool) (a : regex)   (* [a*] and [a*?] *)
| Grp (n : nat) (a : regex)          (* capturing group number n *)
| Look (a : regex)                   (* [(?=a)] *)
| Eol (multiline : bool).            (* [$] *)

(** [a+], [a+?] *)
Definition Plus (greedy : bool) (a : regex) : regex := Seq a (Star greedy a).

(** A literal string. *)
Fixpoint lit (s : text) : regex :=
  match s with
  | [] => Eps
  | c :: s' => Seq (Cls (COne c)) (lit s')
  end.

(** Captures: group number and captured text, latest first. *)
Definition caps := list (nat * text).

Fixpoint lookup_group (n : nat) (c : caps) : option text :=
  match c with
  | [] => None
  | (m, w) :: c' => if Nat.eqb n m then Some w else lookup_group n c'
  end.

Definition mres := option (text * caps).
Definition cont := text -> caps -> mres.

(** [$]: at the end, or before a newline that ends the text; under
    MULTILINE before any newline. *)
Definition at_eol (multiline : bool) (s : text) : bool :=
  match s with
  | [] => true
  | c :: s' =>
      Ascii.eqb c newline &&
      (multiline || match s' with [] => true | _ => false end)
  end.

(** The repetition loop.  An iteration has to consume a character (all the
    repeated bodies of the patterns below do), so the length of the remaining
    text is enough fuel. *)
Definition star_loop (step : text -> caps -> cont -> mres) (greedy : bool)
    (k : cont) : nat -> text -> caps -> mres :=
  fix loop (n : nat) (s : text) (c : caps) {struct n} : mres :=
    match n with
    | O => k s c
    | S n' =>
        let again := fun s' c' =>
          if length s' <? length s then loop n' s' c' else None in
        if greedy then
          match step s c again with
          | Some r => Some r
          | None => k s c
          end
        else
          match k s c with
          | Some r => Some r
          | None => step s c again
          end
    end.

(** Backtracking matcher in continuation-passing style: [rmatch r s c k]
    matches [r] at the head of [s], trying the alternatives in Python's
    priority order, and hands the rest of the text to [k]. *)
Fixpoint rmatch (r : regex) (s : text) (c : caps) (k : cont) {struct r} : mres :=
  match r with
  | Eps => k s c
  | Cls cs =>
      match s with
      | x :: s' => if cmatch cs x then k s' c else None
      | [] => None
      end
  | Seq a b => rmatch a s c (fun s' c' => rmatch b s' c' k)
  | Alt a b =>
      match rmatch a s c k with
      | Some r => Some r
      | None => rmatch b s c k
      end
  | Star g a => star_loop (rmatch a) g k (length s) s c
  | Grp n a =>
      rmatch a s c
        (fun s' c' => k s' ((n, firstn (length s - length s') s) :: c'))
  | Look a =>
      match rmatch a s c (fun s' c' => Some (s', c')) with
      | Some (_, c') => k s c'
      | None => None
      end
  | Eol ml => if at_eol ml s then k s c else None
  end.

(** A match object. *)
Record match_obj : Type := MkMatch {
  m_start : nat;
  m_text : text;        (* group(0) *)
  m_caps : caps
}.

Definition group (n : nat) (m : match_obj) : option text :=
  lookup_group n (m_caps m).

Definition accept : cont := fun s c => Some (s, c).

(** [re.search]: the leftmost position at which the pattern matches. *)
Fixpoint search_at (r : regex) (pos : nat) (s : text) : option match_obj :=
  match rmatch r s [] accept with
  | Some (s', c) => Some (MkMatch pos (firstn (length s - length s') s) c)
  | None =>
      match s with
      | [] => None
      | _ :: s' => search_at r (S pos) s'
      end
  end.

Definition search (r : regex) (t : text) : option match_obj := search_at r 0 t.

(* ================================================================= *)
(** ** The patterns of the source *)

Declare Scope regex_scope.
Delimit Scope regex_scope with re.
Infix ">>" := Seq (at level 61, right associativity) : regex_scope.
Local Open Scope regex_scope.

Definition sp : regex := Cls CSpace.          (* [\s] *)
Definition digit : regex := Cls CDigit.       (* [\d] *)
Definition ch (c : ascii) : regex := Cls (COne c).

(** [[\d,]+\.\d{2}]: the amount every currency pattern captures. *)
Definition amount : regex :=
  Plus true (Cls (CUnion CDigit (COne ","%char))) >> ch "."%char >> digit >> digit.

(** [[\d.]+]: the number every percentage pattern captures. *)
Definition percent_number : regex :=
  Plus true (Cls (CUnion CDigit (COne "."%char))).

(** [[A-Z][a-z]+] *)
Definition capword : regex :=
  Cls (CRange "A"%char "Z"%char) >> Plus true (Cls (CRange "a"%char "z"%char)).

Module AJBell.

  (** [(Mr|Mrs|Ms)\s+([A-Z][a-z]+(?:\s+[A-Z][a-z]+)+)] *)
Definition client_re : regex :=
    Grp 1 (Alt (lit (str "Mr")) (Alt (lit (str "Mrs")) (lit (str "Ms"))))
    >> Plus true sp
    >> Grp 2 (capword >> Plus true (Plus true sp >> capword)).

  (** [(SCC\d+)] *)
Definition acc_re : regex := Grp 1 (lit (str "SCC") >> Plus true digit).

  (** [ISA - Performance summary.*?(?=ISA - Performance Analysis|ISA - Holdings|$)],
      DOTALL *)
Definition isa_section_re : regex :=
    lit (str "ISA - Performance summary")
    >> Star false (Cls CAll)
    >> Look (Alt (lit (str "ISA - Performance Analysis"))
            (Alt (lit (str "ISA - Holdings")) (Eol false))).

  (** [Total\s+-\s+[\d,]+\.\d{2}\s+-\s+([\d,]+\.\d{2})] *)
Definition holdings_re : regex :=
    lit (str "Total") >> Plus true sp >> ch "-"%char >> Plus true sp
    >> amount >> Plus true sp >> ch "-"%char >> Plus true sp
    >> Grp 1 amount.

  (** [£([\d,]+\.\d{2})\s+[\d.]+%] *)
Definition value_re : regex :=
    ch pound >> Grp 1 amount >> Plus true sp >> percent_number >> ch "%"%char.

  (** [Cash in.*?£([\d,]+\.\d{2})] (no flag: the dot stops at a newline) *)
Definition contrib_re : regex :=
    lit (str "Cash in") >> Star false (Cls CAny) >> ch pound >> Grp 1 amount.

  (** [([\d.]+)%\s*$], MULTILINE *)
Definition perf_re : regex :=
    Grp 1 percent_number >> ch "%"%char >> Star true sp >> Eol true.

  (** [Time-weighted return.*?([\d.]+)%], DOTALL *)
Definition twr_re : regex :=
    lit (str "Time-weighted return") >> Star false (Cls CAll)
    >> Grp 1 percent_number >> ch "%"%char.

  (** [Total.*?Change.*?([\d,]+\.\d{2})], DOTALL *)
Definition change_re : regex :=
    lit (str "Total") >> Star false (Cls CAll)
    >> lit (str "Change") >> Star false (Cls CAll)
    >> Grp 1 amount.

  (** [Change \(£\).*?([\d,]+\.\d{2})], DOTALL *)
Definition change_gbp_re : regex :=
    lit (str "Change (" ++ [pound] ++ str ")") >> Star false (Cls CAll)
    >> Grp 1 amount.

  (** [SIPP - Performance summary.*?(?=SIPP - Performance Analysis|SIPP - Holdings|$)],
      DOTALL *)
Definition sipp_section_re : regex :=
    lit (str "SIPP - Performance summary")
    >> Star false (Cls CAll)
    >> Look (Alt (lit (str "SIPP - Performance Analysis"))
            (Alt (lit (str "SIPP - Holdings")) (Eol false))).

End AJBell.

Module Morningstar.

  (** [PREPARED FOR\s+(TITLE\s+[A-Z][a-z]+(?:\s+[A-Z][a-z]+)* )] where TITLE is
      [(?:Ms\.|Mr\.|Mrs\.)] *)
Definition client_re : regex :=
    lit (str "PREPARED FOR") >> Plus true sp
    >> Grp 1 (Alt (lit (str "Ms.")) (Alt (lit (str "Mr.")) (lit (str "Mrs.")))
              >> Plus true sp >> capword
              >> Star true (Plus true sp >> capword)).

  (** [Investment held:\s*KIND.*?(?=Investment held:|$)], DOTALL *)
Definition section_re (kind : text) : regex :=
    lit (str "Investment held:") >> Star true sp >> lit kind
    >> Star false (Cls CAll)
    >> Look (Alt (lit (str "Investment held:")) (Eol false)).

  (** [LABEL\s*£([\d,]+\.\d{2})] *)
Definition labelled_amount_re (label : text) : regex :=
    lit label >> Star true sp >> ch pound >> Grp 1 amount.

Definition val_re : regex := labelled_amount_re (str "Portfolio Valuation").
Definition contrib_re : regex := labelled_amount_re (str "Total In/Out").
Definition return_re : regex := labelled_amount_re (str "Total Return").

  (** [Portfolio % Returns\s*([\d.]+)%] *)
Definition perf_re : regex :=
    lit (str "Portfolio % Returns") >> Star true sp
    >> Grp 1 percent_number >> ch "%"%char.

End Morningstar.

(* ================================================================= *)
(** ** Python numbers *)

(** A Python float: a binary64 number. *)
Definition float64 : Type := spec_float.

(** A mantissa of 53 bits, and 2^1024 the first power of two out of
    range. *)
Definition prec : Z := 53.
Definition emax : Z := 1024.

(** The float nearest to a rational, ties to even; infinity when the rational
    is out of range.  It is the float a decimal literal denotes: [0.1] is
    [nearest 0.1]. *)
Definition nearest (q : Q) : float64 :=
  match Qnum q with
  | Z0 => S754_zero false
  | Zpos n =>
      let '(m, e, l) :=
        SFdiv_core_binary prec emax (Zpos n) 0 (Zpos (Qden q)) 0 in
      binary_round_aux prec emax false m e l
  | Zneg n =>
      let '(m, e, l) :=
        SFdiv_core_binary prec emax (Zpos n) 0 (Zpos (Qden q)) 0 in
      binary_round_aux prec emax true m e l
  end.

(** [0], and [0.0] *)
Definition zero : float64 := S754_zero false.

(** [x + y] *)
Definition fadd (x y : float64) : float64 := SFadd prec emax x y.

(** [x / y] *)
Definition fdiv (x y : float64) : float64 := SFdiv prec emax x y.

(** [float(n)] of a length [n], as [/] converts it: exactly, for a length
    is small *)
Definition of_nat (n : nat) : float64 :=
  binary_normalize prec emax (Z.of_nat n) 0 false.

Arguments nearest : simpl never.
Arguments fadd : simpl never.
Arguments fdiv : simpl never.
Arguments of_nat : simpl never.

(* ================================================================= *)
(** ** Python values, dictionaries and exceptions *)

Inductive value : Type :=
| VNone
| VStr (s : text)
| VNum (x : float64)
| VList (l : list value)
| VDict (d : list (string * value)).

(** A dictionary keeps its keys in insertion order, as [json.dumps] prints
    them. *)
Definition dict := list (string * value).

Fixpoint dget (k : string) (d : dict) : option value :=
  match d with
  | [] => None
  | (k', v) :: d' => if String.eqb k k' then Some v else dget k d'
  end.

(** [d[k] = v] *)
Fixpoint dset (k : string) (v : value) (d : dict) : dict :=
  match d with
  | [] => [(k, v)]
  | (k', v') :: d' =>
      if String.eqb k k' then (k', v) :: d' else (k', v') :: dset k v d'
  end.

Definition keys (d : dict) : list string := map fst d.

Inductive exn : Type :=
| ValueError       (* [float] of a malformed string *)
| AttributeError   (* a method of [None] *)
| KeyError
| TypeError.

Inductive result (A : Type) : Type :=
| Ok (a : A)
| Raise (e : exn).
Arguments Ok {A} a.
Arguments Raise {A} e.

Definition bind {A B : Type} (x : result A) (f : A -> result B) : result B :=
  match x with
  | Ok a => f a
  | Raise e => Raise e
  end.

Notation "x <- e1 ;; e2" := (bind e1 (fun x => e2))
  (at level 100, e1 at next level, right associativity).

(** The value of a digit, and of a run of digits read in base ten. *)
Definition digit_val (c : ascii) : Z := Z.of_nat (code c - 48).

Definition digits_val (s : text) : Z :=
  fold_left (fun acc c => (acc * 10 + digit_val c)%Z) s 0%Z.

(** The text before the first dot, and the text after it when there is a
    dot. *)
Fixpoint split_dot (s : text) : text * option text :=
  match s with
  | [] => ([], None)
  | c :: s' =>
      if Ascii.eqb c "."%char then ([], Some s')
      else let (ip, fp) := split_dot s' in (c :: ip, fp)
  end.

(** [float(s)] on plain decimal notation: digits with at most one dot and at
    least one digit, read as the nearest float.  Signs, exponents, blanks,
    underscores, [inf] and [nan], which [float] also reads, contain a
    character that is neither a digit nor a dot, and no pattern of this
    program captures such a character (see [amount_shape] and
    [percent_shape] below). *)
Definition float (s : text) : result float64 :=
  let (ip, fp) := split_dot s in
  let fp := match fp with Some f => f | None => [] end in
  if forallb is_digit ip && forallb is_digit fp
     && negb (Nat.eqb (length ip + length fp) 0)
  then Ok (nearest
             (digits_val (ip ++ fp) # Z.to_pos (10 ^ Z.of_nat (length fp))))
  else Raise ValueError.

(** [m.group(n)] used as a string: a group that took no part is [None]. *)
Definition group_str (n : nat) (m : match_obj) : result text :=
  match group n m with
  | Some w => Ok w
  | None => Raise AttributeError
  end.

(** [float(m.group(1).replace(',', ''))] *)
Definition amount_of (m : match_obj) : result float64 :=
  g <- group_str 1 m ;; float (remove_commas g).

(** [float(m.group(1))] *)
Definition percent_of (m : match_obj) : result float64 :=
  g <- group_str 1 m ;; float g.

(** [data['accounts'].append(account)] *)
Definition append_account (account : value) (data : dict) : result dict :=
  match dget "accounts" data with
  | Some (VList l) => Ok (dset "accounts" (VList (l ++ [account])) data)
  | Some _ => Raise AttributeError
  | None => Raise KeyError
  end.

(** [data['total_value'] += v] *)
Definition add_total (v : float64) (data : dict) : result dict :=
  match dget "total_value" data with
  | Some (VNum t) => Ok (dset "total_value" (VNum (fadd t v)) data)
  | Some _ => Raise TypeError
  | None => Raise KeyError
  end.

(** [acc[k]] read as a number *)
Definition num_field (k : string) (acc : value) : result float64 :=
  match acc with
  | VDict d =>
      match dget k d with
      | Some (VNum x) => Ok x
      | Some _ => Raise TypeError
      | None => Raise KeyError
      end
  | _ => Raise TypeError
  end.

(** [data['performance']['oneYearReturn'] = v] *)
Definition set_one_year_return (v : value) (data : dict) : result dict :=
  match dget "performance" data with
  | Some (VDict p) =>
      Ok (dset "performance" (VDict (dset "oneYearReturn" v p)) data)
  | Some _ => Raise TypeError
  | None => Raise KeyError
  end.

Definition accounts_of (data : dict) : list value :=
  match dget "accounts" data with
  | Some (VList l) => l
  | _ => []
  end.

(** [acc[k]] *)
Definition item (k : string) (acc : value) : result value :=
  match acc with
  | VDict d =>
      match dget k d with
      | Some v => Ok v
      | None => Raise KeyError
      end
  | _ => Raise TypeError
  end.

(** [sum(acc[k] for acc in accounts)], from the integer 0, left to right *)
Fixpoint sum_field_from (k : string) (accounts : list value) (acc : float64)
  : result float64 :=
  match accounts with
  | [] => Ok acc
  | a :: rest => v <- num_field k a ;; sum_field_from k rest (fadd acc v)
  end.

Definition sum_field (k : string) (accounts : list value) : result float64 :=
  sum_field_from k accounts zero.

(* ================================================================= *)
(** ** The program *)

Inductive provider : Type := AJ_BELL | MORNINGSTAR | CASHFLOW | UNKNOWN.

Definition detect_provider (t : text) : provider :=
  let text_lower := lower t in
  if contains (str "aj bell") text_lower || contains (str "ajbell") text_lower
  then AJ_BELL
  else if contains (str "morningstar") text_lower then MORNINGSTAR
  else if contains (str "cashflow") text_lower
          || contains (str "574611") text_lower
  then CASHFLOW
  else UNKNOWN.

(** [float(m.group(1).replace(',', '')) if m else 0] *)
Definition amount_or_zero (m : option match_obj) : result float64 :=
  match m with
  | Some m => amount_of m
  | None => Ok zero
  end.

(** [float(m.group(1)) if m else 0] *)
Definition percent_or_zero (m : option match_obj) : result float64 :=
  match m with
  | Some m => percent_of m
  | None => Ok zero
  end.

(** [search(p, s)], and [search(q, t)] when that misses:
    [m = re.search(p, s); if not m: m = re.search(q, t)] *)
Definition search_or (p : regex) (s : text) (q : regex) (t : text)
  : option match_obj :=
  match search p s with
  | Some m => Some m
  | None => search q t
  end.

Definition extract_aj_bell (t : text) : result dict :=
  let data : dict :=
    [ ("provider"%string, VStr (str "AJ Bell"));
      ("client_name"%string, VNone);
      ("accounts"%string, VList []);
      ("total_value"%string, VNum zero);
      ("performance"%string, VDict []) ] in
  (* Extract client name *)
  let data :=
    match search AJBell.client_re t with
    | Some client_match => dset "client_name" (VStr (strip (m_text client_match))) data
    | None => data
    end in
  (* Extract account number *)
  let account_number :=
    match search AJBell.acc_re t with
    | Some acc_match =>
        match group 1 acc_match with Some w => VStr w | None => VNone end
    | None => VNone
    end in
  (* Extract ISA section *)
  data <-
    match search AJBell.isa_section_re t with
    | Some isa_section =>
        let isa_text := m_text isa_section in
        value <-
          match search AJBell.holdings_re t with
          | Some holdings_match => amount_of holdings_match
          | None => amount_or_zero (search AJBell.value_re isa_text)
          end ;;
        contributions <- amount_or_zero (search AJBell.contrib_re t) ;;
        performance <-
          percent_or_zero (search_or AJBell.perf_re isa_text AJBell.twr_re t) ;;
        return_amount <-
          amount_or_zero (search_or AJBell.change_re t AJBell.change_gbp_re t) ;;
        let account := VDict
          [ ("type"%string, VStr (str "ISA"));
            ("provider"%string, VStr (str "AJ Bell"));
            ("account_number"%string, account_number);
            ("value"%string, VNum value);
            ("contributions"%string, VNum contributions);
            ("return"%string, VNum return_amount);
            ("performance"%string, VNum performance) ] in
        data <- append_account account data ;;
        add_total value data
    | None => Ok data
    end ;;
  (* Extract SIPP if present: the section is searched for and nothing is
     done with it *)
  let data :=
    match search AJBell.sipp_section_re t with
    | Some sipp_section => data
    | None => data
    end in
  match accounts_of data with
  | first :: _ =>
      p <- item "performance" first ;;
      set_one_year_return p data
  | [] => Ok data
  end.

(** One wrapper kind of a Morningstar report.  The source has this block
    twice, for ISA and for SIPP, the same but for the kind. *)
Definition extract_morningstar_kind (kind : text) (t : text) (data : dict)
  : result dict :=
  match search (Morningstar.section_re kind) t with
  | Some section =>
      let section_text := m_text section in
      let val_match := search Morningstar.val_re section_text in
      let contrib_match := search Morningstar.contrib_re section_text in
      let return_match := search Morningstar.return_re section_text in
      let perf_match := search Morningstar.perf_re section_text in
      match val_match with
      | Some val_match =>
          value <- amount_of val_match ;;
          contributions <- amount_or_zero contrib_match ;;
          return_amount <- amount_or_zero return_match ;;
          performance <- percent_or_zero perf_match ;;
          let account := VDict
            [ ("type"%string, VStr kind);
              ("provider"%string, VStr (str "Morningstar"));
              ("value"%string, VNum value);
              ("contributions"%string, VNum contributions);
              ("return"%string, VNum return_amount);
              ("performance"%string, VNum performance) ] in
          data <- append_account account data ;;
          add_total value data
      | None => Ok data
      end
  | None => Ok data
  end.

Definition extract_morningstar (t : text) : result dict :=
  let data : dict :=
    [ ("provider"%string, VStr (str "Morningstar"));
      ("client_name"%string, VNone);
      ("accounts"%string, VList []);
      ("total_value"%string, VNum zero);
      ("performance"%string, VDict []) ] in
  (* Extract client name *)
  let data :=
    match search Morningstar.client_re t with
    | Some client_match =>
        match group 1 client_match with
        | Some w => Ok (dset "client_name" (VStr (strip w)) data)
        | None => Raise AttributeError
        end
    | None => Ok data
    end in
  data <- data ;;
  data <- extract_morningstar_kind (str "ISA") t data ;;
  data <- extract_morningstar_kind (str "SIPP") t data ;;
  match accounts_of data with
  | _ :: _ =>
      total <- sum_field "performance" (accounts_of data) ;;
      let avg_perf := fdiv total (of_nat (length (accounts_of data))) in
      set_one_year_return (VNum avg_perf) data
  | [] => Ok data
  end.

(** The record of an unrecognised provider. *)
Definition unknown_record : dict :=
  [ ("provider"%string, VStr (str "Unknown"));
    ("error"%string, VStr (str "Provider not recognized"));
    ("accounts"%string, VList []);
    ("total_value"%string, VNum zero) ].

(** [main], from the text read on standard input to the record that is
    printed as JSON. *)
Definition main (t : text) : result dict :=
  match detect_provider t with
  | AJ_BELL => extract_aj_bell t
  | MORNINGSTAR => extract_morningstar t
  | _ => Ok unknown_record
  end.

(* ================================================================= *)
(** ** What a pattern matches: a declarative reading of [rmatch] *)

(** [mtc r w rest c c']: [r] matches the word [w] when [rest] follows it,
    taking the captures from [c] to [c']. *)
Inductive mtc : regex -> text -> text -> caps -> caps -> Prop :=
| MEps rest c : mtc Eps [] rest c c
| MCls cs x rest c : cmatch cs x = true -> mtc (Cls cs) [x] rest c c
| MSeq a b w1 w2 rest c c1 c2 :
    mtc a w1 (w2 ++ rest) c c1 -> mtc b w2 rest c1 c2 ->
    mtc (Seq a b) (w1 ++ w2) rest c c2
| MAltL a b w rest c c1 : mtc a w rest c c1 -> mtc (Alt a b) w rest c c1
| MAltR a b w rest c c1 : mtc b w rest c c1 -> mtc (Alt a b) w rest c c1
| MStar0 g a rest c : mtc (Star g a) [] rest c c
| MStarS g a w1 w2 rest c c1 c2 :
    w1 <> [] ->
    mtc a w1 (w2 ++ rest) c c1 -> mtc (Star g a) w2 rest c1 c2 ->
    mtc (Star g a) (w1 ++ w2) rest c c2
| MGrp n a w rest c c1 :
    mtc a w rest c c1 -> mtc (Grp n a) w rest c ((n, w) :: c1)
| MLook a w rest c c1 :
    mtc a w rest c c1 -> mtc (Look a) [] (w ++ rest) c c1
| MEol ml rest c : at_eol ml rest = true -> mtc (Eol ml) [] rest c c.

#[local] Hint Constructors mtc : core.

(** The pattern occurs somewhere in the text. *)
Definition occurs (r : regex) (t : text) : Prop :=
  exists pre w post c, t = pre ++ w ++ post /\ mtc r w post [] c.

Fixpoint no_groups (r : regex) : bool :=
  match r with
  | Eps | Cls _ | Eol _ => true
  | Seq a b | Alt a b => no_groups a && no_groups b
  | Star _ a | Look a => no_groups a
  | Grp _ _ => false
  end.

(** Lookaheads without groups: the patterns of the source have no other. *)
Fixpoint look_simple (r : regex) : bool :=
  match r with
  | Eps | Cls _ | Eol _ => true
  | Seq a b | Alt a b => look_simple a && look_simple b
  | Star _ a | Grp _ a => look_simple a
  | Look a => no_groups a && look_simple a
  end.

Lemma firstn_app_len (w s : text) :
  firstn (length (w ++ s) - length s) (w ++ s) = w.
Proof.
  rewrite length_app, Nat.add_sub.
  rewrite firstn_app, Nat.sub_diag, firstn_all. simpl. apply app_nil_r.
Qed.

Lemma no_groups_caps r w rest c c' :
  mtc r w rest c c' -> no_groups r = true -> c' = c.
Proof.
  induction 1; simpl; intros Hn; try reflexivity;
    try (apply andb_true_iff in Hn; destruct Hn as [Ha Hb]);
    try discriminate; auto.
  - rewrite IHmtc2, IHmtc1; auto.
  - rewrite IHmtc2, IHmtc1; auto.
Qed.

Section StarLoop.

Variable a : regex.
Variable step : text -> caps -> cont -> mres.
Variable g : bool.
Variable k : cont.

Hypothesis step_sound : forall s c k0 res,
    step s c k0 = Some res ->
    exists w s' c', s = w ++ s' /\ mtc a w s' c c' /\ k0 s' c' = Some res.

Lemma star_loop_sound n : forall s c res,
    star_loop step g k n s c = Some res ->
    exists w s' c',
      s = w ++ s' /\ mtc (Star g a) w s' c c' /\ k s' c' = Some res.
  Proof.
    induction n as [|n IH]; intros s c res H; simpl in H.
    - exists [], s, c. auto.
    - assert (Hstep : forall r0,
        step s c (fun s' c' =>
          if length s' <? length s then star_loop step g k n s' c' else None)
        = Some r0 ->
        exists w s' c',
          s = w ++ s' /\ mtc (Star g a) w s' c c' /\ k s' c' = Some r0).
      { intros r0 Hs. apply step_sound in Hs.
        destruct Hs as (w1 & s1 & c1 & E & M & K).
        destruct (length s1 <? length s) eqn:L; [|discriminate].
        apply Nat.ltb_lt in L.
        apply IH in K. destruct K as (w2 & s2 & c2 & E2 & M2 & K2).
        exists (w1 ++ w2), s2, c2. subst s1 s. rewrite <- app_assoc.
        repeat split; auto. apply MStarS with c1; auto.
        intros ->. simpl in L. lia. }
      destruct g.
      + destruct (step s c _) eqn:S1.
        * inversion H; subst. apply Hstep; reflexivity.
        * exists [], s, c. auto.
      + destruct (k s c) eqn:K1.
        * inversion H; subst. exists [], s, c. auto.
        * apply Hstep; assumption.
  Qed.

Hypothesis step_complete : forall s c k0,
    step s c k0 = None ->
    forall w s' c', s = w ++ s' -> mtc a w s' c c' -> k0 s' c' = None.

Lemma star_loop_complete n : forall s c,
    length s <= n ->
    star_loop step g k n s c = None ->
    forall w s' c', s = w ++ s' -> mtc (Star g a) w s' c c' -> k s' c' = None.
  Proof.
    induction n as [|n IH]; intros s c Hn H w s' c' E M.
    - simpl in H. destruct s; [|simpl in Hn; lia].
      symmetry in E. apply app_eq_nil in E. destruct E; subst.
      inversion M; subst; auto.
      destruct w1; [congruence | discriminate].
    - simpl in H.
      assert (H0 : k s c = None /\
        step s c (fun s' c' =>
          if length s' <? length s then star_loop step g k n s' c' else None)
        = None).
      { destruct g.
        - destruct (step s c _); [discriminate|]. auto.
        - destruct (k s c); [discriminate|]. auto. }
      destruct H0 as [K0 S0].
      inversion M; subst.
      + simpl. assumption.
      + rewrite <- app_assoc in S0.
        pose proof (step_complete _ _ _ S0 w1 (w2 ++ s') c1 eq_refl) as K1.
        specialize (K1 ltac:(assumption)).
        simpl in K1.
        assert (L : length (w2 ++ s') < length (w1 ++ w2 ++ s')).
        { rewrite (length_app w1). destruct w1; [congruence|]. simpl. lia. }
        rewrite <- app_assoc in *.
        apply Nat.ltb_lt in L. rewrite L in K1.
        apply (IH (w2 ++ s') c1) with (w := w2); auto.
        apply Nat.ltb_lt in L. lia.
  Qed.

End StarLoop.

Theorem rmatch_sound r : forall s c k res,
  rmatch r s c k = Some res ->
  exists w s' c', s = w ++ s' /\ mtc r w s' c c' /\ k s' c' = Some res.
Proof.
  induction r; intros s c k res H; simpl in H.
  - exists [], s, c. auto.
  - destruct s as [|x s]; [discriminate|].
    destruct (cmatch cs x) eqn:C; [|discriminate].
    exists [x], s, c. auto.
  - apply IHr1 in H. destruct H as (w1 & s1 & c1 & E1 & M1 & H).
    apply IHr2 in H. destruct H as (w2 & s2 & c2 & E2 & M2 & H).
    exists (w1 ++ w2), s2, c2. subst. rewrite <- app_assoc. eauto.
  - destruct (rmatch r1 s c k) eqn:R1.
    + inversion H; subst. apply IHr1 in R1.
      destruct R1 as (w & s' & c' & E & M & K). eauto 8.
    + apply IHr2 in H. destruct H as (w & s' & c' & E & M & K). eauto 8.
  - eapply star_loop_sound; eauto.
  - apply IHr in H. destruct H as (w & s' & c' & E & M & K).
    exists w, s', ((n, w) :: c'). subst s.
    rewrite firstn_app_len in K. auto.
  - destruct (rmatch r s c (fun s' c' => Some (s', c'))) as [[s1 c1]|] eqn:R;
      [|discriminate].
    apply IHr in R. destruct R as (w & s' & c' & E & M & K).
    inversion K; subst. exists [], (w ++ s1), c1. auto.
  - destruct (at_eol multiline s) eqn:A; [|discriminate].
    exists [], s, c. auto.
Qed.

Theorem rmatch_complete r : look_simple r = true -> forall s c k,
  rmatch r s c k = None ->
  forall w s' c', s = w ++ s' -> mtc r w s' c c' -> k s' c' = None.
Proof.
  induction r; simpl; intros LS s c k H w s' c' E M.
  - inversion M; subst. assumption.
  - inversion M; subst. simpl in H.
    match goal with H : cmatch _ _ = true |- _ => rewrite H in * end.
    assumption.
  - apply andb_true_iff in LS. destruct LS as [L1 L2].
    inversion M; subst. rewrite <- app_assoc in H.
    pose proof (IHr1 L1 _ _ _ H w1 (w2 ++ s') c1 eq_refl ltac:(assumption)) as Hk.
    simpl in Hk. eapply IHr2; eauto.
  - apply andb_true_iff in LS. destruct LS as [L1 L2].
    destruct (rmatch r1 s c k) eqn:R1; [discriminate|].
    inversion M; subst; eauto.
  - eapply star_loop_complete with (a := r) (n := length s); eauto.
  - inversion M; subst.
    pose proof (IHr LS _ _ _ H w s' c1 eq_refl ltac:(assumption)) as Hk.
    simpl in Hk. rewrite firstn_app_len in Hk. assumption.
  - apply andb_true_iff in LS. destruct LS as [NG LS].
    inversion M; subst. simpl in *.
    match goal with H : mtc r _ _ _ _ |- _ =>
      pose proof (no_groups_caps _ _ _ _ _ H NG) as Ec; rename H into Mr end.
    subst c'.
    destruct (rmatch r (w0 ++ rest) c (fun s' c' => Some (s', c')))
      as [[s1 c1]|] eqn:R.
    + apply rmatch_sound in R. destruct R as (w1 & s2 & c2 & E2 & M2 & K2).
      inversion K2; subst. rewrite (no_groups_caps _ _ _ _ _ M2 NG) in H. assumption.
    + pose proof (IHr LS _ _ _ R w0 rest c eq_refl Mr). discriminate.
  - inversion M; subst. simpl in H.
    match goal with H : at_eol _ _ = true |- _ => rewrite H in * end.
    assumption.
Qed.

(* ================================================================= *)
(** ** [search] finds the leftmost occurrence *)

Lemma rmatch_accept r s s' c :
  rmatch r s [] accept = Some (s', c) ->
  exists w,
    s = w ++ s' /\ firstn (length s - length s') s = w /\ mtc r w s' [] c.
Proof.
  intros R. apply rmatch_sound in R. destruct R as (w & s2 & c2 & E & M & K).
  inversion K; subst. exists w. rewrite firstn_app_len. auto.
Qed.

Lemma search_at_sound r : forall s pos m,
  search_at r pos s = Some m ->
  exists pre w post,
    s = pre ++ w ++ post /\ m_start m = pos + length pre /\ m_text m = w /\
    mtc r w post [] (m_caps m) /\
    (look_simple r = true ->
     forall pre' w' post' c',
       s = pre' ++ w' ++ post' -> mtc r w' post' [] c' ->
       length pre <= length pre').
Proof.
  assert (Hhead : forall s pos s' c,
    rmatch r s [] accept = Some (s', c) ->
    exists pre w post,
      s = pre ++ w ++ post /\ pos = pos + length pre /\
      firstn (length s - length s') s = w /\
      mtc r w post [] c /\
      (look_simple r = true ->
       forall pre' w' post' c',
         s = pre' ++ w' ++ post' -> mtc r w' post' [] c' ->
         length pre <= length pre')).
  { intros s pos s' c R. apply rmatch_accept in R.
    destruct R as (w & E & F & M). exists [], w, s'. simpl.
    repeat split; auto; intros; lia. }
  induction s as [|x s IH]; intros pos m H.
  - unfold search_at in H.
    destruct (rmatch r [] [] accept) as [[s' c]|] eqn:R; [|discriminate].
    inversion H; subst; clear H. apply (Hhead _ pos) in R. exact R.
  - simpl in H.
    destruct (rmatch r (x :: s) [] accept) as [[s' c]|] eqn:R.
    + inversion H; subst; clear H. apply (Hhead _ pos) in R. exact R.
    + apply IH in H. destruct H as (pre & w & post & E & St & Tx & M & L).
      exists (x :: pre), w, post. subst s. simpl.
      repeat split; auto; try lia.
      intros LS pre' w' post' c' E' M'.
      destruct pre' as [|y pre'].
      * simpl in E'.
        pose proof (rmatch_complete r LS _ _ _ R w' post' c' E' M') as A.
        discriminate.
      * simpl in E'. inversion E'; subst. simpl.
        apply le_n_S. eapply L; eauto.
Qed.

Lemma search_sound r t m :
  search r t = Some m ->
  exists pre w post,
    t = pre ++ w ++ post /\ m_start m = length pre /\ m_text m = w /\
    mtc r w post [] (m_caps m) /\
    (look_simple r = true ->
     forall pre' w' post' c',
       t = pre' ++ w' ++ post' -> mtc r w' post' [] c' ->
       length pre <= length pre').
Proof.
  intros H. apply search_at_sound in H.
  destruct H as (pre & w & post & H). exists pre, w, post. exact H.
Qed.

Lemma search_at_none r : look_simple r = true -> forall s pos,
  search_at r pos s = None -> ~ occurs r s.
Proof.
  intros LS. induction s as [|x s IH]; intros pos H (pre & w & post & c & E & M);
    simpl in H.
  - destruct (rmatch r [] [] accept) as [[s' c0]|] eqn:R; [discriminate|].
    destruct pre; [|discriminate]. simpl in E.
    pose proof (rmatch_complete r LS _ _ _ R w post c E M). discriminate.
  - destruct (rmatch r (x :: s) [] accept) as [[s' c0]|] eqn:R; [discriminate|].
    destruct pre as [|y pre]; simpl in E.
    + pose proof (rmatch_complete r LS _ _ _ R w post c E M). discriminate.
    + inversion E; subst. apply (IH _ H). exists pre, w, post, c. auto.
Qed.

(** [search] misses exactly when the pattern occurs nowhere. *)
Lemma search_none_iff r t :
  look_simple r = true -> (search r t = None <-> ~ occurs r t).
Proof.
  intros LS. split.
  - apply search_at_none; assumption.
  - intros N. destruct (search r t) as [m|] eqn:S; [|reflexivity].
    exfalso. apply N. apply search_sound in S.
    destruct S as (pre & w & post & E & _ & _ & M & _).
    exists pre, w, post, (m_caps m). auto.
Qed.

Lemma search_some_iff r t :
  look_simple r = true -> ((exists m, search r t = Some m) <-> occurs r t).
Proof.
  intros LS. split.
  - intros [m S]. apply search_sound in S.
    destruct S as (pre & w & post & E & _ & _ & M & _).
    exists pre, w, post, (m_caps m). auto.
  - intros O. destruct (search r t) as [m|] eqn:S; [eauto|].
    apply search_none_iff in S; tauto.
Qed.

(* ================================================================= *)
(** ** Substrings *)

(** [needle] occurs in [hay]. *)
Definition substring (needle hay : text) : Prop :=
  exists pre post, hay = pre ++ needle ++ post.

Lemma starts_with_iff p : forall t,
  starts_with p t = true <-> exists post, t = p ++ post.
Proof.
  induction p as [|a p IH]; intros t; simpl.
  - split; eauto.
  - destruct t as [|b t].
    + split; [discriminate|]. intros [post E]. discriminate.
    + rewrite andb_true_iff, Ascii.eqb_eq, IH. split.
      * intros [-> [post ->]]. eauto.
      * intros [post E]. inversion E; subst. eauto.
Qed.

Lemma contains_iff needle : forall hay,
  contains needle hay = true <-> substring needle hay.
Proof.
  unfold substring.
  induction hay as [|x hay IH]; simpl; rewrite orb_true_iff, starts_with_iff.
  - split.
    + intros [[post E]|F]; [|discriminate]. exists [], post. exact E.
    + intros (pre & post & E). left.
      destruct pre; [|discriminate]. eauto.
  - rewrite IH. split.
    + intros [[post E]|(pre & post & E)].
      * exists [], post. exact E.
      * exists (x :: pre), post. simpl. congruence.
    + intros (pre & post & E). destruct pre as [|y pre].
      * left. eauto.
      * right. inversion E; subst. eauto.
Qed.

(** [needle], written in lower case, occurs in [t] in some mix of cases. *)
Definition occurs_ci (needle t : text) : Prop :=
  exists pre mid post, t = pre ++ mid ++ post /\ lower mid = needle.

Lemma contains_lower_iff needle t :
  contains needle (lower t) = true <-> occurs_ci needle t.
Proof.
  rewrite contains_iff. unfold substring, occurs_ci, lower. split.
  - intros (pre & post & E).
    apply map_eq_app in E. destruct E as (p1 & r1 & -> & E1 & E2).
    apply map_eq_app in E2. destruct E2 as (m1 & q1 & -> & E2 & E3).
    exists p1, m1, q1. auto.
  - intros (pre & mid & post & -> & E).
    exists (map lower_char pre), (map lower_char post).
    rewrite !map_app, E. reflexivity.
Qed.

(* ================================================================= *)
(** ** Shapes of what the patterns match *)

Lemma mtc_lit l : forall w rest c c',
  mtc (lit l) w rest c c' -> w = l /\ c' = c.
Proof.
  induction l as [|x l IH]; simpl; intros w rest c c' M.
  - inversion M; subst; auto.
  - inversion M; subst.
    match goal with H : mtc (Cls _) _ _ _ _ |- _ => inversion H; subst end.
    match goal with H : mtc (lit _) _ _ _ _ |- _ => apply IH in H; destruct H end.
    subst. simpl in *.
    match goal with H : Ascii.eqb _ _ = true |- _ => apply Ascii.eqb_eq in H end.
    subst. auto.
Qed.

Lemma lit_mtc l : forall rest c, mtc (lit l) l rest c c.
Proof.
  induction l as [|x l IH]; simpl; intros rest c.
  - constructor.
  - change (x :: l) with ([x] ++ l). econstructor; [|apply IH].
    constructor. simpl. apply Ascii.eqb_refl.
Qed.

Lemma mtc_star_cls g cs w rest c c' :
  mtc (Star g (Cls cs)) w rest c c' ->
  forallb (cmatch cs) w = true /\ c' = c.
Proof.
  remember (Star g (Cls cs)) as r eqn:Er. intros M. revert Er.
  induction M; intros Er; inversion Er; subst; auto.
  destruct (IHM2 eq_refl) as [F ->].
  inversion M1; subst. simpl.
  match goal with H : cmatch _ _ = true |- _ => rewrite H end. auto.
Qed.

Lemma star_cls_mtc g cs w : forall rest c,
  forallb (cmatch cs) w = true -> mtc (Star g (Cls cs)) w rest c c.
Proof.
  induction w as [|x w IH]; simpl; intros rest c F.
  - constructor.
  - apply andb_true_iff in F. destruct F as [Fx Fw].
    change (x :: w) with ([x] ++ w).
    eapply MStarS; [discriminate| |apply IH; assumption].
    constructor. assumption.
Qed.

Lemma mtc_plus_cls g cs w rest c c' :
  mtc (Plus g (Cls cs)) w rest c c' ->
  w <> [] /\ forallb (cmatch cs) w = true /\ c' = c.
Proof.
  unfold Plus. intros M. inversion M; subst.
  match goal with H : mtc (Cls _) _ _ _ _ |- _ => inversion H; subst end.
  match goal with H : mtc (Star _ _) _ _ _ _ |- _ =>
    apply mtc_star_cls in H; destruct H as [F ->] end.
  simpl. repeat split; auto; try discriminate.
  match goal with H : cmatch _ _ = true |- _ => rewrite H end. auto.
Qed.

Lemma plus_cls_mtc g cs w rest c :
  w <> [] -> forallb (cmatch cs) w = true -> mtc (Plus g (Cls cs)) w rest c c.
Proof.
  intros N F. destruct w as [|x w]; [congruence|]. simpl in F.
  apply andb_true_iff in F. destruct F as [Fx Fw].
  unfold Plus. change (x :: w) with ([x] ++ w).
  econstructor; [constructor; assumption|].
  apply star_cls_mtc. assumption.
Qed.

Definition is_amount_char (c : ascii) : bool :=
  cmatch (CUnion CDigit (COne ","%char)) c.

Definition is_percent_char (c : ascii) : bool :=
  cmatch (CUnion CDigit (COne "."%char)) c.

(** What [[\d,]+\.\d{2}] matches: digits and commas, a dot, two digits. *)
Definition amount_shape (w : text) : Prop :=
  exists ds d1 d2,
    w = ds ++ ["."%char; d1; d2] /\ ds <> [] /\
    forallb is_amount_char ds = true /\
    is_digit d1 = true /\ is_digit d2 = true.

(** What [[\d.]+] matches: digits and dots, at least one of them. *)
Definition percent_shape (w : text) : Prop :=
  w <> [] /\ forallb is_percent_char w = true.

Lemma mtc_amount w rest c c' :
  mtc amount w rest c c' -> amount_shape w /\ c' = c.
Proof.
  unfold amount, ch, digit. intros M.
  inversion M; subst; clear M.
  match goal with H : mtc (Plus _ _) _ _ _ _ |- _ =>
    apply mtc_plus_cls in H; destruct H as (N & F & ->) end.
  match goal with H : mtc (Seq _ _) _ _ _ _ |- _ => inversion H; subst; clear H end.
  match goal with H : mtc (Seq _ _) _ _ _ _ |- _ => inversion H; subst; clear H end.
  repeat match goal with H : mtc (Cls _) _ _ _ _ |- _ =>
    inversion H; subst; clear H end.
  cbn [cmatch] in *.
  match goal with H : Ascii.eqb _ _ = true |- _ => apply Ascii.eqb_eq in H; subst end.
  split; [|reflexivity].
  eexists _, _, _. repeat split; eauto.
Qed.

Lemma amount_mtc w rest c : amount_shape w -> mtc amount w rest c c.
Proof.
  intros (ds & d1 & d2 & -> & N & F & D1 & D2).
  unfold amount. econstructor; [apply plus_cls_mtc; eassumption|].
  change ["."%char; d1; d2] with (["."%char] ++ [d1] ++ [d2]).
  econstructor; [constructor; reflexivity|].
  econstructor; constructor; assumption.
Qed.

Lemma mtc_percent w rest c c' :
  mtc percent_number w rest c c' -> percent_shape w /\ c' = c.
Proof.
  unfold percent_number. intros M. apply mtc_plus_cls in M.
  destruct M as (N & F & ->). repeat split; auto.
Qed.

Lemma percent_mtc w rest c : percent_shape w -> mtc percent_number w rest c c.
Proof.
  intros [N F]. apply plus_cls_mtc; assumption.
Qed.

(** The group a pattern captures as number 1, when the pattern is a sequence
    with that one group in it. *)
Fixpoint grp1 (r : regex) : option regex :=
  match r with
  | Grp 1 a => if no_groups a then Some a else None
  | Seq a b =>
      match grp1 a with
      | Some x => if no_groups b then Some x else None
      | None => if no_groups a then grp1 b else None
      end
  | _ => None
  end.

Lemma grp1_caps r : forall a w rest c c',
  grp1 r = Some a -> mtc r w rest c c' ->
  exists g rest', c' = (1, g) :: c /\ mtc a g rest' c c.
Proof.
  induction r; simpl; intros a0 w rest c c' G M; try discriminate.
  - inversion M; subst.
    destruct (grp1 r1) as [x|] eqn:G1.
    + destruct (no_groups r2) eqn:N2; inversion G; subst.
      match goal with H : mtc r1 _ _ _ _ |- _ =>
        destruct (IHr1 _ _ _ _ _ eq_refl H) as (g & rest' & -> & Mg) end.
      match goal with H : mtc r2 _ _ _ _ |- _ =>
        rewrite (no_groups_caps _ _ _ _ _ H N2) end.
      eauto.
    + destruct (no_groups r1) eqn:N1; [|discriminate].
      match goal with H : mtc r1 _ _ _ _ |- _ =>
        pose proof (no_groups_caps _ _ _ _ _ H N1); subst end.
      eapply IHr2; eauto.
  - destruct n as [|[|n]]; try discriminate.
    destruct (no_groups r) eqn:N; inversion G; subst.
    inversion M; subst.
    match goal with H : mtc _ _ _ _ _ |- _ =>
      pose proof (no_groups_caps _ _ _ _ _ H N); subst; eauto end.
Qed.

(** A successful search of such a pattern has group 1, and the group holds a
    match of the group's pattern. *)
Lemma search_grp1 r a t m :
  grp1 r = Some a -> search r t = Some m ->
  exists g rest, group 1 m = Some g /\ mtc a g rest [] [].
Proof.
  intros G S. apply search_sound in S.
  destruct S as (pre & w & post & E & _ & _ & M & _).
  destruct (grp1_caps _ _ _ _ _ _ G M) as (g & rest' & Ec & Mg).
  exists g, rest'. unfold group. rewrite Ec. simpl. auto.
Qed.

(* ================================================================= *)
(** ** Taking patterns apart, and the first match of a lazy repetition *)

Lemma mtc_seq_lit l r w rest c c' :
  mtc (lit l >> r) w rest c c' ->
  exists w2, w = l ++ w2 /\ mtc r w2 rest c c'.
Proof.
  intros M. inversion M; subst.
  match goal with H : mtc (lit _) _ _ _ _ |- _ =>
    apply mtc_lit in H; destruct H as [-> ->] end.
  eauto.
Qed.

Lemma occurs_seq_lit l r t : occurs (lit l >> r) t -> substring l t.
Proof.
  intros (pre & w & post & c & -> & M).
  apply mtc_seq_lit in M. destruct M as (w2 & -> & _).
  exists pre, (w2 ++ post). rewrite <- app_assoc. reflexivity.
Qed.

Lemma search_seq_lit l r t m :
  search (lit l >> r) t = Some m -> substring l t.
Proof.
  intros S. apply (occurs_seq_lit l r).
  apply search_sound in S.
  destruct S as (pre & w & post & E & _ & _ & M & _).
  exists pre, w, post, (m_caps m). auto.
Qed.

Lemma mtc_seq_inv a b w rest c c' :
  mtc (a >> b) w rest c c' ->
  exists w1 w2 c1,
    w = w1 ++ w2 /\ mtc a w1 (w2 ++ rest) c c1 /\ mtc b w2 rest c1 c'.
Proof.
  intros M. inversion M; subst. eauto 8.
Qed.

Lemma mtc_seq_ch x r w rest c c' :
  mtc (ch x >> r) w rest c c' ->
  exists w2, w = x :: w2 /\ mtc r w2 rest c c'.
Proof.
  intros M. apply mtc_seq_inv in M.
  destruct M as (w1 & w2 & c1 & -> & M1 & M2).
  inversion M1; subst. cbn [cmatch] in *.
  match goal with H : Ascii.eqb _ _ = true |- _ =>
    apply Ascii.eqb_eq in H; subst end.
  exists w2. split; [reflexivity | assumption].
Qed.

Lemma mtc_seq_plus_cls g cs r w rest c c' :
  mtc (Plus g (Cls cs) >> r) w rest c c' ->
  exists w1 w2,
    w = w1 ++ w2 /\ w1 <> [] /\ forallb (cmatch cs) w1 = true /\
    mtc r w2 rest c c'.
Proof.
  intros M. apply mtc_seq_inv in M.
  destruct M as (w1 & w2 & c1 & -> & M1 & M2).
  apply mtc_plus_cls in M1. destruct M1 as (N & F & ->). eauto 8.
Qed.

Lemma mtc_seq_star_cls g cs r w rest c c' :
  mtc (Star g (Cls cs) >> r) w rest c c' ->
  exists w1 w2,
    w = w1 ++ w2 /\ forallb (cmatch cs) w1 = true /\ mtc r w2 rest c c'.
Proof.
  intros M. apply mtc_seq_inv in M.
  destruct M as (w1 & w2 & c1 & -> & M1 & M2).
  apply mtc_star_cls in M1. destruct M1 as (F & ->). eauto 8.
Qed.

Lemma mtc_seq_amount r w rest c c' :
  mtc (amount >> r) w rest c c' ->
  exists a w2, w = a ++ w2 /\ amount_shape a /\ mtc r w2 rest c c'.
Proof.
  intros M. apply mtc_seq_inv in M.
  destruct M as (w1 & w2 & c1 & -> & M1 & M2).
  apply mtc_amount in M1. destruct M1 as (Sh & ->). eauto 8.
Qed.

Lemma mtc_grp_amount n w rest c c' :
  mtc (Grp n amount) w rest c c' -> amount_shape w /\ c' = (n, w) :: c.
Proof.
  intros M. inversion M; subst.
  match goal with H : mtc amount _ _ _ _ |- _ =>
    apply mtc_amount in H; destruct H as (Sh & ->) end.
  auto.
Qed.

Lemma grp_amount_mtc n w rest c :
  amount_shape w -> mtc (Grp n amount) w rest c ((n, w) :: c).
Proof.
  intros Sh. constructor. apply amount_mtc. assumption.
Qed.

Lemma ch_mtc x rest c : mtc (ch x) [x] rest c c.
Proof.
  constructor. simpl. apply Ascii.eqb_refl.
Qed.

(** Two prefixes of one text: the shorter is a prefix of the longer. *)
Lemma prefix_split (p p' x x' : text) :
  p ++ x = p' ++ x' -> length p' <= length p ->
  exists q, p = p' ++ q /\ x' = q ++ x.
Proof.
  revert p'. induction p as [|a p IH]; intros p' E L.
  - destruct p'; [|simpl in L; lia]. exists []. simpl in *. auto.
  - destruct p' as [|b p'].
    + exists (a :: p). simpl in *. auto.
    + simpl in E. inversion E; subst. simpl in L.
      destruct (IH p' ltac:(assumption) ltac:(lia)) as (q & -> & ->).
      exists q. auto.
Qed.

Lemma rmatch_lit_app l : forall s c k, rmatch (lit l) (l ++ s) c k = k s c.
Proof.
  induction l as [|x l IH]; intros s c k; simpl.
  - reflexivity.
  - rewrite Ascii.eqb_refl. apply IH.
Qed.

Lemma rmatch_lit_some l s c k res :
  rmatch (lit l) s c k = Some res ->
  exists s', s = l ++ s' /\ k s' c = Some res.
Proof.
  intros R. apply rmatch_sound in R.
  destruct R as (w & s' & c' & -> & M & K).
  apply mtc_lit in M. destruct M as [-> ->]. eauto.
Qed.

(** A lazy repetition of a character set stops at the first place where the
    rest of the pattern matches. *)
Lemma star_loop_lazy_cls cs k n : forall s c res,
  star_loop (rmatch (Cls cs)) false k n s c = Some res ->
  exists mid s',
    s = mid ++ s' /\ forallb (cmatch cs) mid = true /\
    k s' c = Some res /\
    forall m1 m2, mid = m1 ++ m2 -> m2 <> [] -> k (m2 ++ s') c = None.
Proof.
  induction n as [|n IH]; intros s c res H; simpl in H.
  - exists [], s. repeat split; auto.
    intros m1 m2 E N. symmetry in E. apply app_eq_nil in E. tauto.
  - destruct (k s c) eqn:K0.
    + inversion H; subst. exists [], s. repeat split; auto.
      intros m1 m2 E N. symmetry in E. apply app_eq_nil in E. tauto.
    + destruct s as [|x s1]; [discriminate|].
      destruct (cmatch cs x) eqn:C; [|discriminate].
      destruct (length s1 <? length (x :: s1)); [|discriminate].
      apply IH in H. destruct H as (mid & s' & -> & F & K & Min).
      exists (x :: mid), s'. simpl. rewrite C, F. repeat split; auto.
      intros m1 m2 E N. destruct m1 as [|y m1]; simpl in E.
      * subst m2. simpl. exact K0.
      * inversion E; subst. eapply Min; eauto.
Qed.

Lemma rmatch_lit_lazy l cs r s c k res :
  rmatch (lit l >> Star false (Cls cs) >> r) s c k = Some res ->
  exists mid s',
    s = l ++ mid ++ s' /\ forallb (cmatch cs) mid = true /\
    rmatch r s' c k = Some res /\
    forall m1 m2, mid = m1 ++ m2 -> m2 <> [] -> rmatch r (m2 ++ s') c k = None.
Proof.
  intros R. cbn [rmatch] in R. apply rmatch_lit_some in R.
  destruct R as (s1 & -> & R).
  apply star_loop_lazy_cls in R.
  destruct R as (mid & s' & -> & F & K & Min). eauto 8.
Qed.

(** [search] with the place it stops at, and the places it passed. *)
Lemma search_at_first r : forall s pos m,
  search_at r pos s = Some m ->
  exists pre s0 s',
    s = pre ++ s0 /\ m_start m = pos + length pre /\
    rmatch r s0 [] accept = Some (s', m_caps m) /\
    m_text m = firstn (length s0 - length s') s0 /\
    forall p1 p2, pre = p1 ++ p2 -> p2 <> [] ->
      rmatch r (p2 ++ s0) [] accept = None.
Proof.
  assert (Hhead : forall s pos s' c,
    rmatch r s [] accept = Some (s', c) ->
    exists pre s0 s'0,
      s = pre ++ s0 /\ pos = pos + length pre /\
      rmatch r s0 [] accept = Some (s'0, c) /\
      firstn (length s - length s') s = firstn (length s0 - length s'0) s0 /\
      forall p1 p2, pre = p1 ++ p2 -> p2 <> [] ->
        rmatch r (p2 ++ s0) [] accept = None).
  { intros s pos s' c R. exists [], s, s'. simpl. repeat split; auto.
    intros p1 p2 E N. symmetry in E. apply app_eq_nil in E. tauto. }
  induction s as [|x s IH]; intros pos m H.
  - unfold search_at in H.
    destruct (rmatch r [] [] accept) as [[s' c]|] eqn:R; [|discriminate].
    inversion H; subst; clear H. apply (Hhead _ pos) in R. exact R.
  - simpl in H.
    destruct (rmatch r (x :: s) [] accept) as [[s' c]|] eqn:R.
    + inversion H; subst; clear H. apply (Hhead _ pos) in R. exact R.
    + apply IH in H. destruct H as (pre & s0 & s' & E & St & Rm & Tx & Min).
      exists (x :: pre), s0, s'. subst s. simpl.
      repeat split; auto; try lia.
      intros p1 p2 E N. destruct p1 as [|y p1]; simpl in E.
      * subst p2. simpl. exact R.
      * inversion E; subst. eapply Min; eauto.
Qed.

(** [stops P y]: [y] does not go on with a character of [P]. *)
Definition stops (P : ascii -> bool) (y : text) : Prop :=
  match y with
  | [] => True
  | c :: _ => P c = false
  end.

(** A run of [P] characters that stops is read in one way only. *)
Lemma run_unique (P : ascii -> bool) : forall u u' y y',
  forallb P u = true -> forallb P u' = true ->
  u ++ y = u' ++ y' -> stops P y -> stops P y' ->
  u = u' /\ y = y'.
Proof.
  induction u as [|a u IH]; intros [|b u'] y y' F F' E S S'; simpl in *.
  - auto.
  - subst y. simpl in S. apply andb_true_iff in F'. destruct F'. congruence.
  - subst y'. simpl in S'. apply andb_true_iff in F. destruct F. congruence.
  - inversion E; subst.
    apply andb_true_iff in F. apply andb_true_iff in F'.
    destruct F as [_ F], F' as [_ F'].
    destruct (IH u' y y' F F' ltac:(assumption) S S') as [-> ->]. auto.
Qed.

(** At a given place there is at most one amount. *)
Lemma amount_unique a a' x x' :
  amount_shape a -> amount_shape a' -> a ++ x = a' ++ x' ->
  a = a' /\ x = x'.
Proof.
  intros (ds & d1 & d2 & -> & _ & F & _) (ds' & d1' & d2' & -> & _ & F' & _) E.
  rewrite <- !app_assoc in E.
  apply (run_unique is_amount_char) in E; auto; try reflexivity.
  destruct E as [-> E]. simpl in E. inversion E; subst. auto.
Qed.

Lemma amount_char_not_space c : is_amount_char c = true -> is_space c = false.
Proof.
  destruct c as [[|] [|] [|] [|] [|] [|] [|] [|]]; vm_compute; congruence.
Qed.

Lemma amount_head a :
  amount_shape a -> exists c r, a = c :: r /\ is_amount_char c = true.
Proof.
  intros (ds & d1 & d2 & -> & N & F & _).
  destruct ds as [|c ds]; [congruence|]. simpl in F.
  apply andb_true_iff in F. destruct F as [C _].
  exists c, (ds ++ ["."%char; d1; d2]). auto.
Qed.

(** Blanks that an amount follows are read in one way only. *)
Lemma blanks_amount_unique s s' a a' x x' :
  forallb is_space s = true -> forallb is_space s' = true ->
  amount_shape a -> amount_shape a' ->
  s ++ a ++ x = s' ++ a' ++ x' ->
  s = s' /\ a = a' /\ x = x'.
Proof.
  intros F F' A A' E.
  destruct (amount_head a A) as (c & r & Ea & C).
  destruct (amount_head a' A') as (c' & r' & Ea' & C').
  apply (run_unique is_space) in E; auto.
  - destruct E as [-> E].
    destruct (amount_unique _ _ _ _ A A' E) as [-> ->]. auto.
  - rewrite Ea. simpl. apply amount_char_not_space. assumption.
  - rewrite Ea'. simpl. apply amount_char_not_space. assumption.
Qed.

(** Blanks that a dash follows are read in one way only. *)
Lemma blanks_dash_unique s s' x x' :
  forallb is_space s = true -> forallb is_space s' = true ->
  s ++ ["-"%char] ++ x = s' ++ ["-"%char] ++ x' ->
  s = s' /\ x = x'.
Proof.
  intros F F' E.
  apply (run_unique is_space) in E; auto; try reflexivity.
  destruct E as [-> E]. inversion E. auto.
Qed.

Lemma forallb_all w : forallb (cmatch CAll) w = true.
Proof. induction w; simpl; auto. Qed.

(* ================================================================= *)
(** ** [float] on what the patterns capture *)

Lemma digit_not_dot c : is_digit c = true -> Ascii.eqb c "."%char = false.
Proof.
  intros D. destruct (Ascii.eqb c "."%char) eqn:E; [|reflexivity].
  apply Ascii.eqb_eq in E. subst. discriminate.
Qed.

Lemma split_dot_digits ds : forall f,
  forallb is_digit ds = true ->
  split_dot (ds ++ "."%char :: f) = (ds, Some f).
Proof.
  induction ds as [|d ds IH]; simpl; intros f F.
  - reflexivity.
  - apply andb_true_iff in F. destruct F as [D F].
    rewrite (digit_not_dot _ D), IH; auto.
Qed.

Lemma remove_commas_digits ds :
  forallb is_amount_char ds = true ->
  forallb is_digit (remove_commas ds) = true.
Proof.
  induction ds as [|d ds IH]; simpl; intros F; [reflexivity|].
  apply andb_true_iff in F. destruct F as [D F].
  destruct (Ascii.eqb d ","%char) eqn:E; simpl; auto.
  unfold is_amount_char in D. cbn [cmatch] in D.
  rewrite Ascii.eqb_sym, E, orb_false_r in D. rewrite D. auto.
Qed.

Lemma remove_commas_app a b :
  remove_commas (a ++ b) = remove_commas a ++ remove_commas b.
Proof. apply filter_app. Qed.

(** Some floats by their bits: 0.1 is 0x1.999999999999ap-4; 0.1 + 0.2 is
    0.30000000000000004; a half of the last place above 2^53 goes to the
    even neighbour; 1.8e308 is out of range; 2 is 2. *)
Example float64_samples :
  nearest 0.1 = S754_finite false 7205759403792794 (-56) /\
  fadd (nearest 0.1) (nearest 0.2) = nearest 0.30000000000000004 /\
  nearest 0.30000000000000004 <> nearest 0.3 /\
  nearest 9007199254740993 = nearest 9007199254740992 /\
  nearest 9007199254740995 = nearest 9007199254740996 /\
  nearest 1.8e308 = S754_infinity false /\
  fdiv (nearest 1) (nearest 3) = nearest 0.3333333333333333 /\
  of_nat 2 = nearest 2.
Proof. vm_compute. repeat split; discriminate. Qed.

(** A captured amount always converts. *)
Lemma float_amount w :
  amount_shape w -> exists q, float (remove_commas w) = Ok q.
Proof.
  intros (ds & d1 & d2 & -> & N & F & D1 & D2).
  rewrite remove_commas_app.
  assert (R : remove_commas ["."%char; d1; d2] = ["."%char; d1; d2]).
  { unfold remove_commas. simpl.
    assert (C : forall d, is_digit d = true -> Ascii.eqb d ","%char = false).
    { intros d D. destruct (Ascii.eqb d ","%char) eqn:E; [|reflexivity].
      apply Ascii.eqb_eq in E. subst. discriminate. }
    rewrite (C _ D1), (C _ D2). reflexivity. }
  rewrite R. unfold float.
  rewrite split_dot_digits by (apply remove_commas_digits; assumption).
  rewrite remove_commas_digits by assumption.
  simpl forallb. rewrite D1, D2. simpl.
  rewrite Nat.add_comm. simpl. eauto.
Qed.

(** The number an amount stands for: its digits read in base ten, the last
    two of them hundredths.  "2,345.67" stands for 234567/100. *)
Definition amount_number (g : text) : Q :=
  digits_val (filter is_digit g) # 100.

Lemma filter_digits_amount ds :
  forallb is_amount_char ds = true -> filter is_digit ds = remove_commas ds.
Proof.
  induction ds as [|d ds IH]; simpl; intros F; [reflexivity|].
  apply andb_true_iff in F. destruct F as [D F]. rewrite (IH F).
  unfold is_amount_char in D. cbn [cmatch] in D.
  destruct (Ascii.eqb d ","%char) eqn:E; simpl.
  - apply Ascii.eqb_eq in E. subst d. reflexivity.
  - rewrite Ascii.eqb_sym, E, orb_false_r in D. rewrite D. reflexivity.
Qed.

(** [float] reads a captured amount, commas removed, as the float nearest to
    the number it stands for. *)
Lemma float_amount_number g :
  amount_shape g -> float (remove_commas g) = Ok (nearest (amount_number g)).
Proof.
  intros (ds & d1 & d2 & -> & N & F & D1 & D2).
  rewrite remove_commas_app.
  assert (R : remove_commas ["."%char; d1; d2] = ["."%char; d1; d2]).
  { unfold remove_commas. simpl.
    assert (C : forall d, is_digit d = true -> Ascii.eqb d ","%char = false).
    { intros d D. destruct (Ascii.eqb d ","%char) eqn:E; [|reflexivity].
      apply Ascii.eqb_eq in E. subst. discriminate. }
    rewrite (C _ D1), (C _ D2). reflexivity. }
  rewrite R. unfold float.
  rewrite split_dot_digits by (apply remove_commas_digits; assumption).
  rewrite remove_commas_digits by assumption.
  simpl forallb. rewrite D1, D2. simpl andb.
  rewrite Nat.add_comm. cbn [length Nat.add Nat.eqb negb].
  unfold amount_number. rewrite filter_app, (filter_digits_amount ds F).
  simpl filter. rewrite D1, D2. reflexivity.
Qed.

Lemma float_raises s e : float s = Raise e -> e = ValueError.
Proof.
  unfold float. destruct (split_dot s) as [ip fp].
  destruct (_ && _); intros H; inversion H; reflexivity.
Qed.

(** Every currency pattern of the source captures its amount as group 1. *)
Definition amount_patterns : list regex :=
  [ AJBell.holdings_re; AJBell.value_re; AJBell.contrib_re;
    AJBell.change_re; AJBell.change_gbp_re;
    Morningstar.val_re; Morningstar.contrib_re; Morningstar.return_re ].

Definition percent_patterns : list regex :=
  [ AJBell.perf_re; AJBell.twr_re; Morningstar.perf_re ].

Lemma amount_patterns_grp1 r : In r amount_patterns -> grp1 r = Some amount.
Proof.
  simpl. intros H.
  repeat (destruct H as [<-|H]; [reflexivity|]). contradiction.
Qed.

Lemma percent_patterns_grp1 r :
  In r percent_patterns -> grp1 r = Some percent_number.
Proof.
  simpl. intros H.
  repeat (destruct H as [<-|H]; [reflexivity|]). contradiction.
Qed.

Lemma amount_of_ok r t m :
  grp1 r = Some amount -> search r t = Some m ->
  exists g q,
    group 1 m = Some g /\ amount_shape g /\
    float (remove_commas g) = Ok q /\ amount_of m = Ok q.
Proof.
  intros G S. destruct (search_grp1 _ _ _ _ G S) as (g & rest & Gm & M).
  apply mtc_amount in M. destruct M as [Sh _].
  destruct (float_amount _ Sh) as [q Fq].
  exists g, q. unfold amount_of, group_str. rewrite Gm. simpl. auto.
Qed.

Lemma percent_of_group r t m :
  grp1 r = Some percent_number -> search r t = Some m ->
  exists g, group 1 m = Some g /\ percent_shape g /\ percent_of m = float g.
Proof.
  intros G S. destruct (search_grp1 _ _ _ _ G S) as (g & rest & Gm & M).
  apply mtc_percent in M. destruct M as [Sh _].
  exists g. unfold percent_of, group_str. rewrite Gm. simpl. auto.
Qed.

(** A decimal number in digits and dots: at most one dot, and a digit. *)
Definition decimal_ok (g : text) : bool :=
  (count_occ ascii_dec g "."%char <=? 1) && existsb is_digit g.

Lemma digits_no_dot l :
  forallb is_digit l = true -> count_occ ascii_dec l "."%char = 0.
Proof.
  induction l as [|c l IH]; simpl; intros F; [reflexivity|].
  apply andb_true_iff in F. destruct F as [D F].
  destruct (ascii_dec c "."%char) as [->|N]; [discriminate|]. auto.
Qed.

Lemma digits_exists l :
  forallb is_digit l = true -> existsb is_digit l = negb (length l =? 0).
Proof.
  destruct l as [|c l]; simpl; intros F; [reflexivity|].
  apply andb_true_iff in F. destruct F as [-> _]. reflexivity.
Qed.

Lemma percent_chars_digits f :
  forallb is_percent_char f = true ->
  forallb is_digit f = (count_occ ascii_dec f "."%char =? 0).
Proof.
  induction f as [|c f IH]; simpl; intros F; [reflexivity|].
  apply andb_true_iff in F. destruct F as [C F].
  destruct (ascii_dec c "."%char) as [->|N].
  - reflexivity.
  - unfold is_percent_char in C. cbn [cmatch] in C.
    apply orb_true_iff in C. destruct C as [D|E].
    + rewrite D. simpl. auto.
    + apply Ascii.eqb_eq in E. congruence.
Qed.

Lemma split_dot_percent g :
  forallb is_percent_char g = true ->
  exists ip,
    forallb is_digit ip = true /\
    ((split_dot g = (ip, None) /\ g = ip) \/
     exists f,
       split_dot g = (ip, Some f) /\ g = ip ++ "."%char :: f /\
       forallb is_percent_char f = true).
Proof.
  induction g as [|c g IH]; simpl; intros F.
  - exists []. auto.
  - apply andb_true_iff in F. destruct F as [C F].
    destruct (Ascii.eqb c "."%char) eqn:E.
    + apply Ascii.eqb_eq in E. subst. exists []. split; [reflexivity|].
      right. exists g. auto.
    + unfold is_percent_char in C. cbn [cmatch] in C.
      rewrite Ascii.eqb_sym, E, orb_false_r in C.
      destruct (IH F) as (ip & D & [[S ->]|(f & S & -> & Ff)]); rewrite S.
      * exists (c :: ip). simpl. rewrite C, D. auto.
      * exists (c :: ip). simpl. rewrite C, D. split; [reflexivity|].
        right. exists f. auto.
Qed.

(** [float] reads a captured percentage exactly when it is such a number. *)
Lemma float_percent g :
  forallb is_percent_char g = true ->
  (float g = Raise ValueError <-> decimal_ok g = false).
Proof.
  intros F. destruct (split_dot_percent g F) as (ip & D & H).
  unfold float, decimal_ok.
  destruct H as [[S ->]|(f & S & -> & Ff)]; rewrite S.
  - rewrite D, (digits_no_dot _ D), (digits_exists _ D). simpl.
    rewrite Nat.add_0_r.
    destruct (length ip =? 0); simpl; split; congruence.
  - rewrite D, count_occ_app, (digits_no_dot _ D), existsb_app.
    rewrite (digits_exists _ D). simpl.
    rewrite (percent_chars_digits _ Ff).
    destruct (count_occ ascii_dec f "."%char) as [|n] eqn:Cn; simpl.
    + rewrite digits_exists
        by (rewrite (percent_chars_digits _ Ff), Cn; reflexivity).
      destruct ip, f; simpl; split; congruence.
    + split; congruence.
Qed.

(* ================================================================= *)
(** ** The records the extractors build *)

(** The record of an extractor, by its five values. *)
Definition record (prov : text) (client : value) (accounts : list value)
    (total : float64) (perf : dict) : dict :=
  [ ("provider"%string, VStr prov);
    ("client_name"%string, client);
    ("accounts"%string, VList accounts);
    ("total_value"%string, VNum total);
    ("performance"%string, VDict perf) ].

(** The four numbers of an account. *)
Record fields : Type := MkFields {
  f_value : float64;
  f_contributions : float64;
  f_return : float64;
  f_performance : float64
}.

Definition aj_client_name (t : text) : value :=
  match search AJBell.client_re t with
  | Some m => VStr (strip (m_text m))
  | None => VNone
  end.

Definition aj_account_number (t : text) : value :=
  match search AJBell.acc_re t with
  | Some m => match group 1 m with Some w => VStr w | None => VNone end
  | None => VNone
  end.

Definition aj_value (t isa_text : text) : result float64 :=
  match search AJBell.holdings_re t with
  | Some m => amount_of m
  | None => amount_or_zero (search AJBell.value_re isa_text)
  end.

Definition aj_contributions (t : text) : result float64 :=
  amount_or_zero (search AJBell.contrib_re t).

Definition aj_performance (t isa_text : text) : result float64 :=
  percent_or_zero (search_or AJBell.perf_re isa_text AJBell.twr_re t).

Definition aj_return (t : text) : result float64 :=
  amount_or_zero (search_or AJBell.change_re t AJBell.change_gbp_re t).

Definition aj_fields (t isa_text : text) : result fields :=
  v <- aj_value t isa_text ;;
  c <- aj_contributions t ;;
  p <- aj_performance t isa_text ;;
  r <- aj_return t ;;
  Ok (MkFields v c r p).

Definition aj_account (number : value) (f : fields) : value :=
  VDict
    [ ("type"%string, VStr (str "ISA"));
      ("provider"%string, VStr (str "AJ Bell"));
      ("account_number"%string, number);
      ("value"%string, VNum (f_value f));
      ("contributions"%string, VNum (f_contributions f));
      ("return"%string, VNum (f_return f));
      ("performance"%string, VNum (f_performance f)) ].

(** [extract_aj_bell], step by step. *)
Lemma extract_aj_bell_eq t :
  extract_aj_bell t =
  match search AJBell.isa_section_re t with
  | Some isa =>
      f <- aj_fields t (m_text isa) ;;
      Ok (record (str "AJ Bell") (aj_client_name t)
            [aj_account (aj_account_number t) f]
            (fadd zero (f_value f))
            [("oneYearReturn"%string, VNum (f_performance f))])
  | None => Ok (record (str "AJ Bell") (aj_client_name t) [] zero [])
  end.
Proof.
  unfold extract_aj_bell, aj_client_name, aj_account_number, aj_fields,
    aj_value, aj_contributions, aj_performance, aj_return.
  destruct (search AJBell.client_re t) as [cm|];
  destruct (search AJBell.isa_section_re t) as [isa|];
  destruct (search AJBell.sipp_section_re t) as [sipp|];
  try reflexivity;
  destruct (match search AJBell.holdings_re t with
            | Some m => amount_of m
            | None => amount_or_zero (search AJBell.value_re (m_text isa))
            end) as [v|]; try reflexivity;
  destruct (amount_or_zero (search AJBell.contrib_re t)) as [c|];
    try reflexivity;
  destruct (percent_or_zero
              (search_or AJBell.perf_re (m_text isa) AJBell.twr_re t)) as [p|];
    try reflexivity;
  destruct (amount_or_zero
              (search_or AJBell.change_re t AJBell.change_gbp_re t)) as [r|];
    reflexivity.
Qed.

Definition ms_client_name (t : text) : value :=
  match search Morningstar.client_re t with
  | Some m => match group 1 m with Some w => VStr (strip w) | None => VNone end
  | None => VNone
  end.

(** The numbers of one wrapper kind: none when the section or its valuation
    is missing. *)
Definition ms_fields (kind t : text) : result (option fields) :=
  match search (Morningstar.section_re kind) t with
  | Some section =>
      match search Morningstar.val_re (m_text section) with
      | Some val_match =>
          v <- amount_of val_match ;;
          c <- amount_or_zero (search Morningstar.contrib_re (m_text section)) ;;
          r <- amount_or_zero (search Morningstar.return_re (m_text section)) ;;
          p <- percent_or_zero (search Morningstar.perf_re (m_text section)) ;;
          Ok (Some (MkFields v c r p))
      | None => Ok None
      end
  | None => Ok None
  end.

Definition ms_account (kind : text) (f : fields) : value :=
  VDict
    [ ("type"%string, VStr kind);
      ("provider"%string, VStr (str "Morningstar"));
      ("value"%string, VNum (f_value f));
      ("contributions"%string, VNum (f_contributions f));
      ("return"%string, VNum (f_return f));
      ("performance"%string, VNum (f_performance f)) ].

Definition opt_list {A : Type} (o : option A) : list A :=
  match o with
  | Some a => [a]
  | None => []
  end.

(** The sum of a list of floats, added up from 0 in the order of the
    list. *)
Definition fsum (l : list float64) : float64 := fold_left fadd l zero.

(** The arithmetic mean of a list of floats: their sum over their number. *)
Definition mean (l : list float64) : float64 :=
  fdiv (fsum l) (of_nat (length l)).

Definition ms_performance (fs : list fields) : dict :=
  match fs with
  | [] => []
  | _ :: _ => [("oneYearReturn"%string, VNum (mean (map f_performance fs)))]
  end.

Lemma extract_morningstar_kind_eq kind t client accounts total :
  extract_morningstar_kind kind t
    (record (str "Morningstar") client accounts total []) =
  (f <- ms_fields kind t ;;
   Ok (match f with
       | Some f =>
           record (str "Morningstar") client
             (accounts ++ [ms_account kind f]) (fadd total (f_value f)) []
       | None => record (str "Morningstar") client accounts total []
       end)).
Proof.
  unfold extract_morningstar_kind, ms_fields.
  destruct (search (Morningstar.section_re kind) t) as [sec|]; [|reflexivity].
  destruct (search Morningstar.val_re (m_text sec)) as [vm|]; [|reflexivity].
  destruct (amount_of vm) as [v|]; [|reflexivity].
  destruct (amount_or_zero (search Morningstar.contrib_re (m_text sec)))
    as [c|]; [|reflexivity].
  destruct (amount_or_zero (search Morningstar.return_re (m_text sec)))
    as [r|]; [|reflexivity].
  destruct (percent_or_zero (search Morningstar.perf_re (m_text sec)))
    as [p|]; reflexivity.
Qed.

(** [extract_morningstar], step by step. *)
Lemma extract_morningstar_eq t :
  extract_morningstar t =
  (isa <- ms_fields (str "ISA") t ;;
   sipp <- ms_fields (str "SIPP") t ;;
   Ok (record (str "Morningstar") (ms_client_name t)
         (map (ms_account (str "ISA")) (opt_list isa)
          ++ map (ms_account (str "SIPP")) (opt_list sipp))
         (fsum (map f_value (opt_list isa ++ opt_list sipp)))
         (ms_performance (opt_list isa ++ opt_list sipp)))).
Proof.
  unfold extract_morningstar, ms_client_name.
  assert (K : forall client,
    (data <- Ok (record (str "Morningstar") client [] zero []) ;;
     data <- extract_morningstar_kind (str "ISA") t data ;;
     data <- extract_morningstar_kind (str "SIPP") t data ;;
     match accounts_of data with
     | _ :: _ =>
         total <- sum_field "performance" (accounts_of data) ;;
         let avg_perf :=
           fdiv total (of_nat (length (accounts_of data))) in
         set_one_year_return (VNum avg_perf) data
     | [] => Ok data
     end) =
    (isa <- ms_fields (str "ISA") t ;;
     sipp <- ms_fields (str "SIPP") t ;;
     Ok (record (str "Morningstar") client
           (map (ms_account (str "ISA")) (opt_list isa)
            ++ map (ms_account (str "SIPP")) (opt_list sipp))
           (fsum (map f_value (opt_list isa ++ opt_list sipp)))
           (ms_performance (opt_list isa ++ opt_list sipp))))).
  { intros client. cbn [bind].
    rewrite extract_morningstar_kind_eq.
    destruct (ms_fields (str "ISA") t) as [[fi|]|]; cbn [bind];
      try reflexivity;
      rewrite extract_morningstar_kind_eq;
      destruct (ms_fields (str "SIPP") t) as [[fs|]|]; reflexivity. }
  destruct (search Morningstar.client_re t) as [m|] eqn:S.
  - destruct (search_grp1 Morningstar.client_re _ t m eq_refl S)
      as (g & rest & G & _).
    rewrite G. apply (K (VStr (strip g))).
  - apply (K VNone).
Qed.

(** The ISA section is found as soon as its heading is in the text. *)
Lemma isa_section_found t :
  substring (str "ISA - Performance summary") t ->
  exists isa, search AJBell.isa_section_re t = Some isa.
Proof.
  intros (pre & post & ->).
  apply search_some_iff; [reflexivity|].
  exists pre, (str "ISA - Performance summary" ++ post), [], [].
  split; [rewrite app_nil_r; reflexivity|].
  unfold AJBell.isa_section_re.
  eapply MSeq; [apply lit_mtc|].
  rewrite <- (app_nil_r post) at 1.
  eapply MSeq; [apply star_cls_mtc, forallb_all|].
  change (@nil ascii) with (@nil ascii ++ @nil ascii) at 2.
  apply MLook. apply MAltR. apply MAltR. constructor. reflexivity.
Qed.

Lemma aj_fields_value t isa_text f :
  aj_fields t isa_text = Ok f -> aj_value t isa_text = Ok (f_value f).
Proof.
  unfold aj_fields.
  destruct (aj_value t isa_text) as [v|]; [|discriminate].
  destruct (aj_contributions t) as [c|]; [|discriminate].
  destruct (aj_performance t isa_text) as [p|]; [|discriminate].
  destruct (aj_return t) as [r|]; [|discriminate].
  intros E; inversion E; reflexivity.
Qed.

Lemma aj_fields_contributions t isa_text f :
  aj_fields t isa_text = Ok f -> aj_contributions t = Ok (f_contributions f).
Proof.
  unfold aj_fields.
  destruct (aj_value t isa_text) as [v|]; [|discriminate].
  destruct (aj_contributions t) as [c|]; [|discriminate].
  destruct (aj_performance t isa_text) as [p|]; [|discriminate].
  destruct (aj_return t) as [r|]; [|discriminate].
  intros E; inversion E; reflexivity.
Qed.

(* ================================================================= *)
(** ** Sample statements *)

Definition nl : text := [newline].

(** An AJ Bell report: the ISA summary has a currency amount and a
    percentage of its own, and a Total row follows the holdings heading. *)
Definition sample_aj : text :=
  str "AJ Bell Youinvest" ++ nl ++
  str "Mr John Smith  SCC12345" ++ nl ++
  str "ISA - Performance summary" ++ nl ++
  str "Cash in " ++ [pound] ++ str "1,000.00  " ++ [pound] ++ str "9,999.99  5.25%" ++ nl ++
  str "ISA - Holdings" ++ nl ++
  str "Total - 1,234.56 - 2,345.67" ++ nl.

(** An AJ Bell report with a SIPP section and no ISA section. *)
Definition sample_aj_sipp : text :=
  str "AJ Bell Youinvest" ++ nl ++
  str "SIPP - Performance summary" ++ nl ++
  str "Cash in " ++ [pound] ++ str "1,000.00  " ++ [pound] ++ str "9,999.99  5.25%" ++ nl ++
  str "SIPP - Holdings" ++ nl ++
  str "Total - 1,234.56 - 2,345.67" ++ nl.

(** A Morningstar report with both wrappers. *)
Definition sample_ms : text :=
  str "Morningstar PREPARED FOR Ms. Jane Doe." ++ nl ++
  str "Investment held: ISA" ++ nl ++
  str "Portfolio Valuation " ++ [pound] ++ str "10,000.00" ++ nl ++
  str "Portfolio % Returns 4.0%" ++ nl ++
  str "Investment held: SIPP" ++ nl ++
  str "Portfolio Valuation " ++ [pound] ++ str "5,000.00" ++ nl ++
  str "Portfolio % Returns 6.0%" ++ nl.

(** A Morningstar report whose SIPP section has no valuation. *)
Definition sample_ms_no_sipp_value : text :=
  str "Morningstar report" ++ nl ++
  str "Investment held: ISA" ++ nl ++
  str "Portfolio Valuation " ++ [pound] ++ str "10,000.00" ++ nl ++
  str "Investment held: SIPP" ++ nl ++
  str "Total In/Out " ++ [pound] ++ str "500.00" ++ nl ++
  str "Total Return " ++ [pound] ++ str "25.00" ++ nl ++
  str "Portfolio % Returns 6.0%" ++ nl.

Definition sample_cashflow : text := str "Cashflow forecast, client 574611".

Definition record_of (r : result dict) : dict :=
  match r with
  | Ok d => d
  | Raise _ => []
  end.

Definition sample_aj_record : dict :=
  Eval vm_compute in record_of (extract_aj_bell sample_aj).

Definition sample_aj_sipp_record : dict :=
  Eval vm_compute in record_of (extract_aj_bell sample_aj_sipp).

Definition sample_ms_record : dict :=
  Eval vm_compute in record_of (extract_morningstar sample_ms).

Definition sample_ms_no_sipp_value_record : dict :=
  Eval vm_compute in record_of (extract_morningstar sample_ms_no_sipp_value).

(** An AJ Bell report whose ISA summary ends a line with "1.2.3%". *)
Definition sample_aj_bad_percent : text :=
  str "AJ Bell Youinvest" ++ nl ++
  str "ISA - Performance summary" ++ nl ++
  str "Fund 1.2.3%" ++ nl.

(** An AJ Bell report with the amount on the line after "Cash in". *)
Definition sample_aj_cash_in_next_line : text :=
  str "AJ Bell Youinvest" ++ nl ++
  str "ISA - Performance summary" ++ nl ++
  str "Cash in" ++ nl ++
  [pound] ++ str "1,000.00" ++ nl.

(* ================================================================= *)
(** ** C1: when the extractors raise *)

(** The percentage text that [extract_aj_bell] converts, if any. *)
Definition aj_percent_capture (t : text) : option text :=
  match search AJBell.isa_section_re t with
  | Some isa =>
      match search_or AJBell.perf_re (m_text isa) AJBell.twr_re t with
      | Some m => group 1 m
      | None => None
      end
  | None => None
  end.

(** The percentage text that [extract_morningstar] converts for a kind, if
    any: the conversion is made only when the valuation is there. *)
Definition ms_percent_capture (kind t : text) : option text :=
  match search (Morningstar.section_re kind) t with
  | Some section =>
      match search Morningstar.val_re (m_text section) with
      | Some _ =>
          match search Morningstar.perf_re (m_text section) with
          | Some m => group 1 m
          | None => None
          end
      | None => None
      end
  | None => None
  end.

Lemma amount_or_zero_ok r s :
  grp1 r = Some amount -> exists q, amount_or_zero (search r s) = Ok q.
Proof.
  intros G. destruct (search r s) as [m|] eqn:S; simpl; [|eauto].
  destruct (amount_of_ok r s m G S) as (g & q & _ & _ & _ & A). eauto.
Qed.

Lemma amount_or_zero_search_or_ok p s q t :
  grp1 p = Some amount -> grp1 q = Some amount ->
  exists v, amount_or_zero (search_or p s q t) = Ok v.
Proof.
  intros Gp Gq. unfold search_or.
  destruct (search p s) as [m|] eqn:S.
  - simpl. destruct (amount_of_ok p s m Gp S) as (g & v & _ & _ & _ & A). eauto.
  - apply amount_or_zero_ok. assumption.
Qed.

Lemma search_or_percent p s q t m :
  grp1 p = Some percent_number -> grp1 q = Some percent_number ->
  search_or p s q t = Some m ->
  exists g, group 1 m = Some g /\ percent_shape g /\ percent_of m = float g.
Proof.
  intros Gp Gq. unfold search_or.
  destruct (search p s) as [m'|] eqn:S.
  - intros E; inversion E; subst. exact (percent_of_group p s m Gp S).
  - intros E. exact (percent_of_group q t m Gq E).
Qed.

Lemma aj_value_ok t isa_text : exists v, aj_value t isa_text = Ok v.
Proof.
  unfold aj_value.
  destruct (search AJBell.holdings_re t) as [m|] eqn:S.
  - destruct (amount_of_ok AJBell.holdings_re _ _ eq_refl S)
      as (g & q & _ & _ & _ & A). eauto.
  - apply amount_or_zero_ok. reflexivity.
Qed.

(** The AJ Bell numbers fail only in the conversion of the percentage. *)
Lemma aj_fields_raise t isa_text e :
  aj_fields t isa_text = Raise e <->
  e = ValueError /\
  exists m g,
    search_or AJBell.perf_re isa_text AJBell.twr_re t = Some m /\
    group 1 m = Some g /\ float g = Raise ValueError.
Proof.
  unfold aj_fields, aj_contributions, aj_performance, aj_return.
  destruct (aj_value_ok t isa_text) as [v ->].
  destruct (amount_or_zero_ok AJBell.contrib_re t eq_refl) as [c ->].
  destruct (amount_or_zero_search_or_ok AJBell.change_re t
              AJBell.change_gbp_re t eq_refl eq_refl) as [r ->].
  cbn [bind].
  destruct (search_or AJBell.perf_re isa_text AJBell.twr_re t) as [m|] eqn:S.
  - destruct (search_or_percent AJBell.perf_re _ AJBell.twr_re _ _
                eq_refl eq_refl S)
      as (g & G & Sh & P).
    cbn [percent_or_zero]. rewrite P.
    destruct (float g) as [p|e'] eqn:F; cbn [bind].
    + split; [discriminate|].
      intros (_ & m' & g' & E & G' & F'). inversion E; subst.
      rewrite G in G'. inversion G'; subst. congruence.
    + pose proof (float_raises _ _ F) as ->. split.
      * intros E; inversion E; subst. split; [reflexivity|]. eauto.
      * intros [-> _]. reflexivity.
  - cbn [percent_or_zero bind]. split; [discriminate|].
    intros (_ & m' & g' & E & _). discriminate.
Qed.

(** The Morningstar numbers of a kind fail only in the conversion of the
    percentage. *)
Lemma ms_fields_raise kind t e :
  ms_fields kind t = Raise e <->
  e = ValueError /\
  exists g, ms_percent_capture kind t = Some g /\ float g = Raise ValueError.
Proof.
  unfold ms_fields, ms_percent_capture.
  destruct (search (Morningstar.section_re kind) t) as [sec|];
    [|split; [discriminate | intros (_ & g & E & _); discriminate]].
  destruct (search Morningstar.val_re (m_text sec)) as [vm|] eqn:V;
    [|split; [discriminate | intros (_ & g & E & _); discriminate]].
  destruct (amount_of_ok Morningstar.val_re _ _ eq_refl V)
    as (gv & v & _ & _ & _ & ->).
  destruct (amount_or_zero_ok Morningstar.contrib_re (m_text sec) eq_refl)
    as [c ->].
  destruct (amount_or_zero_ok Morningstar.return_re (m_text sec) eq_refl)
    as [r ->].
  cbn [bind].
  destruct (search Morningstar.perf_re (m_text sec)) as [m|] eqn:S.
  - destruct (percent_of_group Morningstar.perf_re _ _ eq_refl S)
      as (g & G & Sh & P).
    cbn [percent_or_zero]. rewrite P, G.
    destruct (float g) as [p|e'] eqn:F; cbn [bind].
    + split; [discriminate|].
      intros (_ & g' & E & F'). inversion E; subst. congruence.
    + pose proof (float_raises _ _ F) as ->. split.
      * intros E; inversion E; subst. split; [reflexivity|]. eauto.
      * intros [-> _]. reflexivity.
  - cbn [percent_or_zero bind]. split; [discriminate|].
    intros (_ & g' & E & _). discriminate.
Qed.

(** C1, as amended.  An extractor raises only [ValueError], and exactly when
    the percentage text it converts (digits and dots, the capture of
    [[\d.]+]) is not a decimal number: no digit in it, or more than one dot.
    Otherwise it returns a record.  Every captured amount converts, and a
    pattern that misses gives a default. *)
Theorem extractors_raise_only_on_percent (t : text) :
  (forall e,
     extract_aj_bell t = Raise e <->
     e = ValueError /\
     exists g, aj_percent_capture t = Some g /\ decimal_ok g = false) /\
  (forall e,
     extract_morningstar t = Raise e <->
     e = ValueError /\
     exists kind g,
       (kind = str "ISA" \/ kind = str "SIPP") /\
       ms_percent_capture kind t = Some g /\ decimal_ok g = false) /\
  (forall r m,
     In r amount_patterns -> search r t = Some m ->
     exists g q,
       group 1 m = Some g /\ amount_shape g /\ amount_of m = Ok q) /\
  (forall r, In r amount_patterns ->
     search r t = None -> amount_or_zero (search r t) = Ok zero) /\
  (forall r, In r percent_patterns ->
     search r t = None -> percent_or_zero (search r t) = Ok zero).
Proof.
  split; [|split; [|split; [|split]]].
  - intros e. rewrite extract_aj_bell_eq. unfold aj_percent_capture.
    destruct (search AJBell.isa_section_re t) as [isa|].
    + destruct (aj_fields t (m_text isa)) as [f|e'] eqn:A; cbn [bind].
      * split; [discriminate|]. intros (_ & g & C & B).
        destruct (search_or AJBell.perf_re (m_text isa) AJBell.twr_re t)
          as [m|] eqn:S; [|discriminate].
        destruct (search_or_percent AJBell.perf_re _ AJBell.twr_re _ _
                    eq_refl eq_refl S) as (g' & G & [_ Sh] & _).
        assert (R : aj_fields t (m_text isa) = Raise ValueError).
        { apply aj_fields_raise. split; [reflexivity|].
          exists m, g. repeat split; auto.
          apply float_percent; congruence. }
        congruence.
      * apply aj_fields_raise in A. destruct A as (-> & m & g & S & G & F).
        rewrite S.
        destruct (search_or_percent AJBell.perf_re _ AJBell.twr_re _ _
                    eq_refl eq_refl S) as (g' & G' & [_ Sh] & _).
        assert (g' = g) by congruence. subst g'.
        apply (float_percent _ Sh) in F.
        split.
        { intros E; inversion E; subst. eauto. }
        { intros [-> _]. reflexivity. }
    + split; [discriminate|]. intros (_ & g & C & _). discriminate.
  - intros e. rewrite extract_morningstar_eq.
    assert (K : forall kind e',
      ms_fields kind t = Raise e' <->
      e' = ValueError /\
      exists g, ms_percent_capture kind t = Some g /\ decimal_ok g = false).
    { intros kind e'. rewrite ms_fields_raise.
      unfold ms_percent_capture.
      destruct (search (Morningstar.section_re kind) t) as [sec|];
        [|split; intros (_ & g & C & _); discriminate].
      destruct (search Morningstar.val_re (m_text sec)) as [vm|];
        [|split; intros (_ & g & C & _); discriminate].
      destruct (search Morningstar.perf_re (m_text sec)) as [m|] eqn:S;
        [|split; intros (_ & g & C & _); discriminate].
      destruct (percent_of_group Morningstar.perf_re _ _ eq_refl S)
        as (g' & G & [_ Sh] & _).
      rewrite G.
      split; intros (-> & g & C & F); inversion C; subst;
        (split; [reflexivity|]); exists g; (split; [reflexivity|]);
        apply (float_percent _ Sh); assumption. }
    destruct (ms_fields (str "ISA") t) as [isa|ei] eqn:I; cbn [bind].
    + destruct (ms_fields (str "SIPP") t) as [sipp|es] eqn:S; cbn [bind].
      * split; [discriminate|].
        intros (_ & kind & g & [-> | ->] & C & B).
        { assert (R : ms_fields (str "ISA") t = Raise ValueError)
            by (apply K; eauto). congruence. }
        { assert (R : ms_fields (str "SIPP") t = Raise ValueError)
            by (apply K; eauto). congruence. }
      * apply K in S. destruct S as (-> & g & C & B). split.
        { intros E; inversion E; subst. split; [reflexivity|].
          exists (str "SIPP"), g. auto. }
        { intros [-> _]. reflexivity. }
    + apply K in I. destruct I as (-> & g & C & B). split.
      * intros E; inversion E; subst. split; [reflexivity|].
        exists (str "ISA"), g. auto.
      * intros [-> _]. reflexivity.
  - intros r m R S.
    destruct (amount_of_ok r t m (amount_patterns_grp1 r R) S)
      as (g & q & G & Sh & _ & A).
    eauto.
  - intros r _ ->. reflexivity.
  - intros r _ ->. reflexivity.
Qed.

Lemma extractors_raise_only_on_percent_witness :
  aj_percent_capture sample_aj_bad_percent = Some (str "1.2.3") /\
  decimal_ok (str "1.2.3") = false /\
  extract_aj_bell sample_aj_bad_percent = Raise ValueError.
Proof.
  assert (C : aj_percent_capture sample_aj_bad_percent = Some (str "1.2.3"))
    by (vm_compute; reflexivity).
  assert (B : decimal_ok (str "1.2.3") = false) by reflexivity.
  split; [exact C|]. split; [exact B|].
  apply (proj1 (extractors_raise_only_on_percent sample_aj_bad_percent)).
  split; [reflexivity|]. exists (str "1.2.3"). split; [exact C | exact B].
Defined.

(** C1 as stated fails: a text routed to the AJ Bell extractor on which the
    extractor raises. *)
Lemma aj_bell_raises_on_bad_percent :
  detect_provider sample_aj_bad_percent = AJ_BELL /\
  main sample_aj_bad_percent = Raise ValueError /\
  ~ exists d, extract_aj_bell sample_aj_bad_percent = Ok d.
Proof.
  split; [reflexivity|]. split; [vm_compute; reflexivity|].
  intros [d E]. vm_compute in E. discriminate.
Qed.

(* ================================================================= *)
(** ** C2: the total is the sum of the account values *)

(** C2.  In every record an extractor or the fallback produces,
    [total_value] is the sum of the [value] fields of the accounts, as [sum]
    adds them up from 0 in the order of the list; it is 0 when there is no
    account. *)
Theorem total_value_is_sum (t : text) (d : dict) :
  extract_aj_bell t = Ok d \/ extract_morningstar t = Ok d \/ main t = Ok d ->
  exists total,
    dget "total_value" d = Some (VNum total) /\
    sum_field "value" (accounts_of d) = Ok total /\
    (accounts_of d = [] -> total = zero).
Proof.
  assert (AJ : extract_aj_bell t = Ok d ->
    exists total,
      dget "total_value" d = Some (VNum total) /\
      sum_field "value" (accounts_of d) = Ok total /\
      (accounts_of d = [] -> total = zero)).
  { rewrite extract_aj_bell_eq.
    destruct (search AJBell.isa_section_re t) as [isa|].
    - destruct (aj_fields t (m_text isa)) as [f|]; [|discriminate].
      intros E; inversion E; subst; clear E.
      exists (fadd zero (f_value f)). repeat split. discriminate.
    - intros E; inversion E; subst. exists zero. repeat split. }
  assert (MS : extract_morningstar t = Ok d ->
    exists total,
      dget "total_value" d = Some (VNum total) /\
      sum_field "value" (accounts_of d) = Ok total /\
      (accounts_of d = [] -> total = zero)).
  { rewrite extract_morningstar_eq.
    destruct (ms_fields (str "ISA") t) as [isa|]; [|discriminate].
    destruct (ms_fields (str "SIPP") t) as [sipp|]; [|discriminate].
    intros E; inversion E; subst; clear E.
    destruct isa as [fi|], sipp as [fs|]; eexists; repeat split;
      try discriminate. }
  intros [H|[H|H]]; auto.
  unfold main in H. destruct (detect_provider t); auto;
    inversion H; subst; exists zero; repeat split.
Qed.

Lemma total_value_is_sum_witness :
  main sample_ms = Ok sample_ms_record /\
  exists total,
    dget "total_value" sample_ms_record = Some (VNum total) /\
    sum_field "value" (accounts_of sample_ms_record) = Ok total /\
    (accounts_of sample_ms_record = [] -> total = zero).
Proof.
  assert (H : main sample_ms = Ok sample_ms_record) by (vm_compute; reflexivity).
  split; [exact H|].
  exact (total_value_is_sum sample_ms sample_ms_record (or_intror (or_intror H))).
Defined.

(* ================================================================= *)
(** ** C3: the fallback record *)

(** C3.  When the classifier answers UNKNOWN or CASHFLOW, the program
    returns, without raising, the record with provider "Unknown", error
    "Provider not recognized", no accounts and total value 0, and that
    record has no performance field. *)
Theorem unrecognized_record (t : text) :
  detect_provider t = UNKNOWN \/ detect_provider t = CASHFLOW ->
  main t = Ok [ ("provider"%string, VStr (str "Unknown"));
                ("error"%string, VStr (str "Provider not recognized"));
                ("accounts"%string, VList []);
                ("total_value"%string, VNum zero) ] /\
  forall d, main t = Ok d -> dget "performance" d = None.
Proof.
  intros H. unfold main.
  destruct H as [-> | ->]; split; try reflexivity;
    intros d E; inversion E; reflexivity.
Qed.

Lemma unrecognized_record_witness :
  (detect_provider sample_cashflow = UNKNOWN \/
   detect_provider sample_cashflow = CASHFLOW) /\
  main sample_cashflow =
    Ok [ ("provider"%string, VStr (str "Unknown"));
         ("error"%string, VStr (str "Provider not recognized"));
         ("accounts"%string, VList []);
         ("total_value"%string, VNum zero) ].
Proof.
  assert (H : detect_provider sample_cashflow = UNKNOWN \/
              detect_provider sample_cashflow = CASHFLOW)
    by (right; reflexivity).
  split; [exact H | exact (proj1 (unrecognized_record sample_cashflow H))].
Defined.

(* ================================================================= *)
(** ** C4: the classifier *)

(** C4.  [detect_provider] applies the case-insensitive substring rules in
    order, the first match winning: "aj bell" or "ajbell" gives AJ_BELL;
    otherwise "morningstar" gives MORNINGSTAR; otherwise "cashflow" or
    "574611" gives CASHFLOW; otherwise UNKNOWN.  A text with both "aj bell"
    and "morningstar" is AJ_BELL, and every text gets a label. *)
Theorem detect_provider_rules (t : text) :
  let aj := occurs_ci (str "aj bell") t \/ occurs_ci (str "ajbell") t in
  let ms := occurs_ci (str "morningstar") t in
  let cf := occurs_ci (str "cashflow") t \/ occurs_ci (str "574611") t in
  (detect_provider t = AJ_BELL <-> aj) /\
  (detect_provider t = MORNINGSTAR <-> ~ aj /\ ms) /\
  (detect_provider t = CASHFLOW <-> ~ aj /\ ~ ms /\ cf) /\
  (detect_provider t = UNKNOWN <-> ~ aj /\ ~ ms /\ ~ cf) /\
  (occurs_ci (str "aj bell") t -> occurs_ci (str "morningstar") t ->
   detect_provider t = AJ_BELL) /\
  (exists label, detect_provider t = label).
Proof.
  cbv zeta. unfold detect_provider.
  rewrite <- !contains_lower_iff.
  destruct (contains (str "aj bell") (lower t));
  destruct (contains (str "ajbell") (lower t));
  destruct (contains (str "morningstar") (lower t));
  destruct (contains (str "cashflow") (lower t));
  destruct (contains (str "574611") (lower t));
  simpl; repeat split; intros; eauto;
    try discriminate; try tauto; try intuition discriminate.
Qed.

(** A text that names both providers. *)
Definition sample_both : text := str "AJ Bell report, data by Morningstar".

Lemma detect_provider_rules_witness :
  occurs_ci (str "aj bell") sample_both /\
  occurs_ci (str "morningstar") sample_both /\
  detect_provider sample_both = AJ_BELL.
Proof.
  assert (A : occurs_ci (str "aj bell") sample_both)
    by (apply contains_lower_iff; vm_compute; reflexivity).
  assert (M : occurs_ci (str "morningstar") sample_both)
    by (apply contains_lower_iff; vm_compute; reflexivity).
  split; [exact A|]. split; [exact M|].
  exact (proj1 (proj2 (proj2 (proj2 (proj2 (detect_provider_rules sample_both)))))
           A M).
Defined.

(* ================================================================= *)
(** ** C5: which fields an account has *)

Ltac dget_cases H :=
  simpl in H;
  repeat match type of H with
  | context [String.eqb ?k ?s] =>
      let E := fresh "E" in
      destruct (String.eqb k s) eqn:E;
      [try discriminate H; try (apply String.eqb_eq in E; exact E)|]
  end;
  try discriminate H.

Definition aj_account_keys : list string :=
  [ "type"; "provider"; "account_number"; "value"; "contributions";
    "return"; "performance" ]%string.

Definition ms_account_keys : list string :=
  [ "type"; "provider"; "value"; "contributions"; "return";
    "performance" ]%string.

Lemma occurs_acc_re t :
  occurs AJBell.acc_re t <->
  exists dg, is_digit dg = true /\ substring (str "SCC" ++ [dg]) t.
Proof.
  unfold AJBell.acc_re. split.
  - intros (pre & w & post & c & -> & M).
    inversion M; subst.
    match goal with H : mtc (_ >> _) _ _ _ _ |- _ =>
      apply (mtc_seq_lit (str "SCC")) in H; destruct H as (w2 & -> & P) end.
    apply mtc_plus_cls in P. destruct P as (N & F & _).
    destruct w2 as [|dg w2]; [congruence|]. simpl in F.
    apply andb_true_iff in F. destruct F as [D _].
    exists dg. split; [exact D|].
    exists pre, (w2 ++ post). rewrite <- !app_assoc. reflexivity.
  - intros (dg & D & pre & post & ->).
    exists pre, (str "SCC" ++ [dg]), post, [(1, str "SCC" ++ [dg])].
    split; [reflexivity|].
    constructor. econstructor; [apply lit_mtc|].
    apply plus_cls_mtc; [discriminate|]. simpl. rewrite D. reflexivity.
Qed.

Lemma aj_account_number_none t :
  aj_account_number t = VNone <-> ~ occurs AJBell.acc_re t.
Proof.
  unfold aj_account_number.
  destruct (search AJBell.acc_re t) as [m|] eqn:S.
  - destruct (search_grp1 AJBell.acc_re _ t m eq_refl S) as (g & rest & G & _).
    rewrite G. split; [discriminate|]. intros N. exfalso. apply N.
    apply search_some_iff; [reflexivity | eauto].
  - split; [|reflexivity]. intros _.
    apply search_none_iff; [reflexivity | assumption].
Qed.

(** C5, as amended.  In every record the program produces, only
    [client_name] can be null.  An account of the AJ Bell extractor has the
    seven fields with [account_number] among them, which is null exactly when
    the text has no "SCC" followed by a digit; an account of the Morningstar
    extractor has six fields and no [account_number] field at all.  No other
    field of an account is null. *)
Theorem account_fields (t : text) (d : dict) :
  main t = Ok d ->
  (forall k, dget k d = Some VNone -> k = "client_name"%string) /\
  forall acc, In acc (accounts_of d) ->
    exists fs,
      acc = VDict fs /\
      (forall k, dget k fs = Some VNone -> k = "account_number"%string) /\
      ((detect_provider t = AJ_BELL /\ keys fs = aj_account_keys /\
        (dget "account_number" fs = Some VNone <->
         ~ exists dg, is_digit dg = true /\ substring (str "SCC" ++ [dg]) t))
       \/
       (detect_provider t = MORNINGSTAR /\ keys fs = ms_account_keys /\
        dget "account_number" fs = None)).
Proof.
  unfold main. destruct (detect_provider t) eqn:P.
  - rewrite extract_aj_bell_eq.
    destruct (search AJBell.isa_section_re t) as [isa|].
    + destruct (aj_fields t (m_text isa)) as [f|]; [|discriminate].
      intros E; inversion E; subst; clear E. split.
      * intros k H. dget_cases H.
      * intros acc [<-|[]]. eexists. split; [reflexivity|]. split.
        { intros k H. dget_cases H. }
        left. split; [reflexivity|]. split; [reflexivity|].
        rewrite <- occurs_acc_re, <- aj_account_number_none.
        simpl. split; [intros H; inversion H; reflexivity | intros ->; reflexivity].
    + intros E; inversion E; subst; clear E. split.
      * intros k H. dget_cases H.
      * intros acc [].
  - rewrite extract_morningstar_eq.
    destruct (ms_fields (str "ISA") t) as [isa|]; [|discriminate].
    destruct (ms_fields (str "SIPP") t) as [sipp|]; [|discriminate].
    intros E; inversion E; subst; clear E. split.
    + intros k H. destruct isa, sipp; dget_cases H.
    + intros acc H.
      assert (A : exists kind f, acc = ms_account kind f).
      { apply in_app_or in H. destruct H as [H|H];
          apply in_map_iff in H; destruct H as (f & <- & _); eauto. }
      destruct A as (kind & f & ->). eexists. split; [reflexivity|]. split.
      * intros k H'. dget_cases H'.
      * right. repeat split.
  - intros E; inversion E; subst; clear E. split.
    + intros k H. dget_cases H.
    + intros acc [].
  - intros E; inversion E; subst; clear E. split.
    + intros k H. dget_cases H.
    + intros acc [].
Qed.

Lemma account_fields_witness :
  main sample_aj = Ok sample_aj_record /\
  forall acc, In acc (accounts_of sample_aj_record) ->
    exists fs,
      acc = VDict fs /\
      (forall k, dget k fs = Some VNone -> k = "account_number"%string) /\
      ((detect_provider sample_aj = AJ_BELL /\ keys fs = aj_account_keys /\
        (dget "account_number" fs = Some VNone <->
         ~ exists dg, is_digit dg = true /\
                      substring (str "SCC" ++ [dg]) sample_aj))
       \/
       (detect_provider sample_aj = MORNINGSTAR /\ keys fs = ms_account_keys /\
        dget "account_number" fs = None)).
Proof.
  assert (H : main sample_aj = Ok sample_aj_record) by (vm_compute; reflexivity).
  split; [exact H | exact (proj2 (account_fields sample_aj sample_aj_record H))].
Defined.

(** C5 as stated fails: the accounts of a Morningstar record have no
    [account_number] field, null or other. *)
Lemma morningstar_account_without_number :
  exists d acc,
    main sample_ms = Ok d /\ In acc (accounts_of d) /\
    item "account_number" acc = Raise KeyError.
Proof.
  exists sample_ms_record. eexists. split; [vm_compute; reflexivity|].
  split; [left; reflexivity|]. reflexivity.
Qed.

(* ================================================================= *)
(** ** C6: the ISA contributions *)

(** No newline in [w]. *)
Definition one_line (w : text) : Prop := ~ In newline w.

Lemma one_line_iff w : forallb (cmatch CAny) w = true <-> one_line w.
Proof.
  unfold one_line. induction w as [|c w IH]; simpl.
  - split; auto.
  - rewrite andb_true_iff, IH, negb_true_iff. split.
    + intros [N H] [->|I]; [|tauto].
      rewrite Ascii.eqb_refl in N. discriminate.
    + intros H. split; [|tauto].
      destruct (Ascii.eqb c newline) eqn:E; [|reflexivity].
      apply Ascii.eqb_eq in E. subst. tauto.
Qed.

(** "Cash in", then [mid] on the same line, then the pound sign and the
    amount [g]: what [contrib_re] matches, at the place [pre] of [t]. *)
Definition cash_in_at (t pre mid g post : text) : Prop :=
  t = pre ++ str "Cash in" ++ mid ++ [pound] ++ g ++ post /\
  one_line mid /\ amount_shape g.

Lemma mtc_pound_amount w rest c c' :
  mtc (ch pound >> Grp 1 amount) w rest c c' <->
  exists g, w = pound :: g /\ amount_shape g /\ c' = (1, g) :: c.
Proof.
  split.
  - intros M. apply mtc_seq_ch in M. destruct M as (g & -> & M).
    apply mtc_grp_amount in M. destruct M as [Sh ->]. eauto.
  - intros (g & -> & Sh & ->). change (pound :: g) with ([pound] ++ g).
    eapply MSeq; [apply ch_mtc | apply grp_amount_mtc; assumption].
Qed.

Lemma contrib_mtc mid g rest c :
  one_line mid -> amount_shape g ->
  mtc AJBell.contrib_re (str "Cash in" ++ mid ++ [pound] ++ g) rest c
    ((1, g) :: c).
Proof.
  intros O Sh. unfold AJBell.contrib_re.
  eapply MSeq; [apply lit_mtc|].
  eapply MSeq; [apply star_cls_mtc, one_line_iff; assumption|].
  apply mtc_pound_amount. exists g. auto.
Qed.

(** What the search of [contrib_re] finds: the leftmost "Cash in" with an
    amount after it on its line, and the nearest such amount. *)
Lemma search_contrib t :
  match search AJBell.contrib_re t with
  | Some m =>
      exists pre mid g post,
        cash_in_at t pre mid g post /\ group 1 m = Some g /\
        forall pre' mid' g' post',
          cash_in_at t pre' mid' g' post' ->
          length pre < length pre' \/
          (pre' = pre /\ length mid < length mid') \/
          (pre' = pre /\ mid' = mid /\ g' = g /\ post' = post)
  | None => forall pre mid g post, ~ cash_in_at t pre mid g post
  end.
Proof.
  destruct (search AJBell.contrib_re t) as [m|] eqn:S.
  - apply search_at_first in S.
    destruct S as (pre & s0 & s' & Et & _ & R & _ & MinP).
    pose proof R as R'. apply rmatch_lit_lazy in R'.
    destruct R' as (mid & s1 & E0 & F & Rt & MinM).
    pose proof Rt as Rt'. apply rmatch_sound in Rt'.
    destruct Rt' as (w & s2 & c2 & E1 & M & K). inversion K; subst s2 c2.
    apply mtc_pound_amount in M. destruct M as (g & -> & Sh & Ec).
    exists pre, mid, g, s'. split; [|split].
    + split; [|split; [apply one_line_iff; assumption | assumption]].
      rewrite Et, E0, E1. reflexivity.
    + unfold group. rewrite Ec. reflexivity.
    + intros pre' mid' g' post' (E' & O' & Sh').
      assert (C : forall x rest,
        x = str "Cash in" ++ mid' ++ [pound] ++ g' ++ rest ->
        rmatch AJBell.contrib_re x [] accept <> None).
      { intros x rest -> N.
        pose proof (rmatch_complete AJBell.contrib_re eq_refl _ _ _ N
          (str "Cash in" ++ mid' ++ [pound] ++ g') rest [(1, g')]) as A.
        rewrite <- !app_assoc in A.
        specialize (A eq_refl (contrib_mtc mid' g' rest [] O' Sh')).
        discriminate. }
      assert (T : forall x rest,
        x = [pound] ++ g' ++ rest ->
        rmatch (ch pound >> Grp 1 amount) x [] accept <> None).
      { intros x rest -> N.
        pose proof (rmatch_complete (ch pound >> Grp 1 amount) eq_refl _ _ _ N
          (pound :: g') rest [(1, g')] eq_refl) as A.
        assert (Mt : mtc (ch pound >> Grp 1 amount) (pound :: g') rest []
                       [(1, g')])
          by (apply mtc_pound_amount; exists g'; auto).
        specialize (A Mt). discriminate. }
      rewrite Et in E'.
      destruct (Nat.lt_trichotomy (length pre) (length pre')) as [L|[L|L]].
      * left. exact L.
      * right.
        destruct (prefix_split pre pre' _ _ E' ltac:(lia)) as (q & Eq & Ex).
        assert (q = []) by
          (apply (f_equal (@length ascii)) in Eq;
           rewrite length_app in Eq; destruct q; [reflexivity | simpl in Eq; lia]).
        subst q. rewrite app_nil_r in Eq. cbn [app] in Ex. subst pre'.
        rewrite E0 in Ex. apply app_inv_head in Ex.
        destruct (Nat.lt_trichotomy (length mid) (length mid')) as [Lm|[Lm|Lm]].
        { left. auto. }
        { right. symmetry in Ex.
          destruct (prefix_split mid mid' _ _ Ex ltac:(lia)) as (q & Eq & Ex').
          assert (q = []) by
            (apply (f_equal (@length ascii)) in Eq;
             rewrite length_app in Eq; destruct q;
             [reflexivity | simpl in Eq; lia]).
          subst q. rewrite app_nil_r in Eq. cbn [app] in Ex'. subst mid'.
          rewrite E1 in Ex'. cbn [app] in Ex'. inversion Ex' as [Eg].
          destruct (amount_unique _ _ _ _ Sh' Sh Eg) as [-> ->]. auto. }
        { exfalso. symmetry in Ex.
          destruct (prefix_split mid mid' _ _ Ex ltac:(lia)) as (q & Eq & Ex').
          assert (Nq : q <> []) by
            (intros ->; rewrite app_nil_r in Eq; subst; lia).
          pose proof (MinM mid' q Eq Nq) as Nn.
          exact (T _ post' (eq_sym Ex') Nn). }
      * exfalso.
        destruct (prefix_split pre pre' _ _ E' ltac:(lia)) as (q & Eq & Ex).
        assert (Nq : q <> []) by
          (intros ->; rewrite app_nil_r in Eq; subst; lia).
        pose proof (MinP pre' q Eq Nq) as Nn.
        exact (C _ post' (eq_sym Ex) Nn).
  - intros pre mid g post (E & O & Sh).
    apply search_none_iff in S; [|reflexivity]. apply S.
    exists pre, (str "Cash in" ++ mid ++ [pound] ++ g), post, [(1, g)].
    split; [rewrite E, <- !app_assoc; reflexivity|].
    apply contrib_mtc; assumption.
Qed.

(** C6, as amended.  When the text has the ISA heading, the contributions of
    the ISA account come from the whole text: the leftmost "Cash in" that has
    a pound sign and an amount after it on the same line, and the nearest
    such amount, commas removed.  They are 0 when no "Cash in" has such an
    amount after it on its line. *)
Theorem isa_contributions (t : text) (d : dict) :
  substring (str "ISA - Performance summary") t ->
  extract_aj_bell t = Ok d ->
  exists acc c,
    accounts_of d = [acc] /\ item "contributions" acc = Ok (VNum c) /\
    ((exists pre mid g post,
        cash_in_at t pre mid g post /\ float (remove_commas g) = Ok c /\
        forall pre' mid' g' post',
          cash_in_at t pre' mid' g' post' ->
          length pre < length pre' \/
          (pre' = pre /\ length mid < length mid') \/
          (pre' = pre /\ mid' = mid /\ g' = g /\ post' = post))
     \/
     (c = zero /\ forall pre mid g post, ~ cash_in_at t pre mid g post)).
Proof.
  intros Hh E. rewrite extract_aj_bell_eq in E.
  destruct (isa_section_found t Hh) as [isa I]. rewrite I in E.
  destruct (aj_fields t (m_text isa)) as [f|] eqn:F; [|discriminate].
  inversion E; subst d; clear E.
  exists (aj_account (aj_account_number t) f), (f_contributions f).
  split; [reflexivity|]. split; [reflexivity|].
  apply aj_fields_contributions in F. unfold aj_contributions in F.
  pose proof (search_contrib t) as S.
  destruct (search AJBell.contrib_re t) as [m|].
  - left. destruct S as (pre & mid & g & post & C & G & Min).
    exists pre, mid, g, post. split; [exact C|]. split; [|exact Min].
    simpl in F. unfold amount_of, group_str in F. rewrite G in F. exact F.
  - right. simpl in F. inversion F. split; [reflexivity | exact S].
Qed.

Lemma isa_contributions_witness :
  substring (str "ISA - Performance summary") sample_aj /\
  extract_aj_bell sample_aj = Ok sample_aj_record /\
  exists acc c,
    accounts_of sample_aj_record = [acc] /\
    item "contributions" acc = Ok (VNum c) /\
    ((exists pre mid g post,
        cash_in_at sample_aj pre mid g post /\
        float (remove_commas g) = Ok c /\
        forall pre' mid' g' post',
          cash_in_at sample_aj pre' mid' g' post' ->
          length pre < length pre' \/
          (pre' = pre /\ length mid < length mid') \/
          (pre' = pre /\ mid' = mid /\ g' = g /\ post' = post))
     \/
     (c = zero /\ forall pre mid g post, ~ cash_in_at sample_aj pre mid g post)).
Proof.
  assert (Hh : substring (str "ISA - Performance summary") sample_aj)
    by (apply contains_iff; vm_compute; reflexivity).
  assert (H : extract_aj_bell sample_aj = Ok sample_aj_record)
    by (vm_compute; reflexivity).
  split; [exact Hh|]. split; [exact H|].
  exact (isa_contributions sample_aj sample_aj_record Hh H).
Defined.

(** The text after the first occurrence of [needle]. *)
Fixpoint after_first (needle t : text) : option text :=
  if starts_with needle t then Some (skipn (length needle) t)
  else match t with
       | [] => None
       | _ :: t' => after_first needle t'
       end.

(** C6 in the claim's words: the first "Cash in" of the text, and the first
    pound sign with an amount anywhere after it, on its line or a later one;
    0 when there is none. *)
Definition claimed_contributions (t : text) : result float64 :=
  match after_first (str "Cash in") t with
  | Some rest => amount_or_zero (search (ch pound >> Grp 1 amount) rest)
  | None => Ok zero
  end.

(** C6 as stated fails: with the amount on the line after "Cash in" the
    contributions are 0, not the amount. *)
Lemma contributions_not_from_next_line :
  exists d acc,
    extract_aj_bell sample_aj_cash_in_next_line = Ok d /\
    accounts_of d = [acc] /\
    item "contributions" acc = Ok (VNum zero) /\
    claimed_contributions sample_aj_cash_in_next_line
      = Ok (nearest 1000.00) /\
    zero <> nearest 1000.00.
Proof.
  eexists. eexists. split; [vm_compute; reflexivity|].
  split; [reflexivity|]. split; [reflexivity|].
  split; [vm_compute; reflexivity|]. discriminate.
Qed.

(* ================================================================= *)
(** ** C7: the ISA value comes from the Total row *)

(** One or more blanks: what [\s+] matches. *)
Definition blanks (w : text) : Prop := w <> [] /\ forallb is_space w = true.

(** A row "Total - <amount> - <amount>": what [holdings_re] matches. *)
Definition total_row (w a1 a2 : text) : Prop :=
  exists s1 s2 s3 s4,
    w = str "Total" ++ s1 ++ ["-"%char] ++ s2 ++ a1
        ++ s3 ++ ["-"%char] ++ s4 ++ a2 /\
    blanks s1 /\ blanks s2 /\ blanks s3 /\ blanks s4 /\
    amount_shape a1 /\ amount_shape a2.

Lemma mtc_holdings w rest c c' :
  mtc AJBell.holdings_re w rest c c' <->
  exists a1 a2, total_row w a1 a2 /\ c' = (1, a2) :: c.
Proof.
  unfold AJBell.holdings_re, total_row, blanks. split.
  - intros M.
    apply mtc_seq_lit in M. destruct M as (w1 & -> & M).
    apply mtc_seq_plus_cls in M. destruct M as (s1 & w2 & -> & N1 & F1 & M).
    apply mtc_seq_ch in M. destruct M as (w3 & -> & M).
    apply mtc_seq_plus_cls in M. destruct M as (s2 & w4 & -> & N2 & F2 & M).
    apply mtc_seq_amount in M. destruct M as (a1 & w5 & -> & A1 & M).
    apply mtc_seq_plus_cls in M. destruct M as (s3 & w6 & -> & N3 & F3 & M).
    apply mtc_seq_ch in M. destruct M as (w7 & -> & M).
    apply mtc_seq_plus_cls in M. destruct M as (s4 & a2 & -> & N4 & F4 & M).
    apply mtc_grp_amount in M. destruct M as (A2 & ->).
    exists a1, a2. split; [|reflexivity].
    exists s1, s2, s3, s4. repeat split; auto.
  - intros (a1 & a2 & (s1 & s2 & s3 & s4 & -> & [N1 F1] & [N2 F2] & [N3 F3]
            & [N4 F4] & A1 & A2) & ->).
    eapply MSeq; [apply lit_mtc|].
    eapply MSeq; [apply plus_cls_mtc; assumption|].
    eapply MSeq; [apply ch_mtc|].
    eapply MSeq; [apply plus_cls_mtc; assumption|].
    eapply MSeq; [apply amount_mtc; assumption|].
    eapply MSeq; [apply plus_cls_mtc; assumption|].
    eapply MSeq; [apply ch_mtc|].
    eapply MSeq; [apply plus_cls_mtc; assumption|].
    apply grp_amount_mtc. assumption.
Qed.

(** At a given place there is at most one Total row. *)
Lemma total_row_unique w w' a1 a1' a2 a2' x x' :
  total_row w a1 a2 -> total_row w' a1' a2' -> w ++ x = w' ++ x' ->
  w = w' /\ a1 = a1' /\ a2 = a2' /\ x = x'.
Proof.
  intros (s1 & s2 & s3 & s4 & -> & [_ F1] & [_ F2] & [_ F3] & [_ F4] & A1 & A2)
         (t1 & t2 & t3 & t4 & -> & [_ G1] & [_ G2] & [_ G3] & [_ G4] & B1 & B2)
         E.
  rewrite <- !app_assoc in E. apply app_inv_head in E.
  apply blanks_dash_unique in E; auto. destruct E as [-> E].
  apply blanks_amount_unique in E; auto. destruct E as (-> & -> & E).
  apply blanks_dash_unique in E; auto. destruct E as [-> E].
  apply blanks_amount_unique in E; auto. destruct E as (-> & -> & E).
  auto.
Qed.

(** C7.  When the text has the heading "ISA - Performance summary" and a
    row "Total - <amount> - <amount>", the ISA account's value is the second
    amount of the leftmost such row (there is one such row at most at a
    place), commas removed: the float nearest to the number the amount
    stands for, whether or not the ISA section has a currency amount
    followed by a percentage. *)
Theorem isa_value_from_total_row (t : text) (d : dict) :
  substring (str "ISA - Performance summary") t ->
  (exists pre w post a1 a2, t = pre ++ w ++ post /\ total_row w a1 a2) ->
  extract_aj_bell t = Ok d ->
  exists pre w post a1 a2 v acc,
    t = pre ++ w ++ post /\ total_row w a1 a2 /\
    (forall pre' w' post' a1' a2',
       t = pre' ++ w' ++ post' -> total_row w' a1' a2' ->
       length pre < length pre' \/
       (pre' = pre /\ w' = w /\ a1' = a1 /\ a2' = a2)) /\
    float (remove_commas a2) = Ok v /\
    v = nearest (amount_number a2) /\
    accounts_of d = [acc] /\ item "value" acc = Ok (VNum v).
Proof.
  intros Hh (pre0 & w0 & post0 & b1 & b2 & E0 & R0) E.
  rewrite extract_aj_bell_eq in E.
  destruct (isa_section_found t Hh) as [isa I]. rewrite I in E.
  destruct (aj_fields t (m_text isa)) as [f|] eqn:F; [|discriminate].
  inversion E; subst d; clear E.
  apply aj_fields_value in F. unfold aj_value in F.
  destruct (search AJBell.holdings_re t) as [hm|] eqn:S.
  - pose proof S as S'. apply search_sound in S'.
    destruct S' as (pre & w & post & Et & _ & _ & M & L).
    apply mtc_holdings in M. destruct M as (a1 & a2 & R & Ec).
    destruct (amount_of_ok AJBell.holdings_re t hm eq_refl S)
      as (g & q & G & Sh & Fq & A).
    unfold group in G. rewrite Ec in G. simpl in G. inversion G; subst g.
    exists pre, w, post, a1, a2, q, (aj_account (aj_account_number t) f).
    split; [exact Et|]. split; [exact R|]. split; [|split; [exact Fq|split]].
    + intros pre' w' post' a1' a2' E' R'.
      assert (Le : length pre <= length pre').
      { apply (L eq_refl pre' w' post' [(1, a2')] E').
        apply mtc_holdings. eauto. }
      destruct (Nat.eq_dec (length pre) (length pre')) as [Q|Q]; [|left; lia].
      right. rewrite Et in E'.
      destruct (prefix_split pre' pre _ _ (eq_sym E') ltac:(lia))
        as (u & Eq & Ex).
      assert (u = []) by
        (apply (f_equal (@length ascii)) in Eq;
         rewrite length_app in Eq; destruct u; [reflexivity | simpl in Eq; lia]).
      subst u. rewrite app_nil_r in Eq. cbn [app] in Ex. subst pre'.
      destruct (total_row_unique _ _ _ _ _ _ _ _ R R' Ex) as (-> & -> & -> & _).
      auto.
    + rewrite (float_amount_number a2 Sh) in Fq. congruence.
    + split; [reflexivity|]. simpl. congruence.
  - exfalso. apply search_none_iff in S; [|reflexivity]. apply S.
    exists pre0, w0, post0, [(1, b2)]. split; [assumption|].
    apply mtc_holdings. eauto.
Qed.

(** In [sample_aj] the Total row reads "Total - 1,234.56 - 2,345.67" and the
    ISA summary has the amount 9,999.99 before its percentage: the value is
    2345.67, and the fallback would have given 9999.99. *)
Lemma isa_value_from_total_row_witness :
  substring (str "ISA - Performance summary") sample_aj /\
  (exists isa,
     search AJBell.isa_section_re sample_aj = Some isa /\
     amount_or_zero (search AJBell.value_re (m_text isa))
       = Ok (nearest 9999.99)) /\
  extract_aj_bell sample_aj = Ok sample_aj_record /\
  exists pre w post a1 a2 v acc,
    sample_aj = pre ++ w ++ post /\ total_row w a1 a2 /\
    (forall pre' w' post' a1' a2',
       sample_aj = pre' ++ w' ++ post' -> total_row w' a1' a2' ->
       length pre < length pre' \/
       (pre' = pre /\ w' = w /\ a1' = a1 /\ a2' = a2)) /\
    float (remove_commas a2) = Ok v /\
    v = nearest (amount_number a2) /\
    accounts_of sample_aj_record = [acc] /\
    item "value" acc = Ok (VNum v) /\
    v = nearest 2345.67.
Proof.
  assert (Hh : substring (str "ISA - Performance summary") sample_aj)
    by (apply contains_iff; vm_compute; reflexivity).
  assert (Hr : exists pre w post a1 a2,
                 sample_aj = pre ++ w ++ post /\ total_row w a1 a2).
  { exists (firstn 119 sample_aj), (str "Total - 1,234.56 - 2,345.67"), nl,
      (str "1,234.56"), (str "2,345.67").
    split; [vm_compute; reflexivity|].
    exists (str " "), (str " "), (str " "), (str " ").
    split; [reflexivity|].
    repeat split; try discriminate;
      [exists (str "1,234"), "5"%char, "6"%char
      |exists (str "2,345"), "6"%char, "7"%char];
      repeat split; discriminate. }
  assert (H : extract_aj_bell sample_aj = Ok sample_aj_record)
    by (vm_compute; reflexivity).
  split; [exact Hh|]. split.
  { destruct (search AJBell.isa_section_re sample_aj) as [isa|] eqn:S;
      [|vm_compute in S; discriminate].
    exists isa. split; [reflexivity|].
    vm_compute in S. injection S as <-. vm_compute. reflexivity. }
  split; [exact H|].
  destruct (isa_value_from_total_row sample_aj sample_aj_record Hh Hr H)
    as (pre & w & post & a1 & a2 & v & acc & Et & R & L & Fv & Nv & A & V).
  exists pre, w, post, a1, a2, v, acc.
  split; [exact Et|]. split; [exact R|]. split; [exact L|].
  split; [exact Fv|]. split; [exact Nv|]. split; [exact A|].
  split; [exact V|].
  injection A as <-. injection V as <-. vm_compute. reflexivity.
Defined.

(* ================================================================= *)
(** ** C8: the one-year return of a Morningstar record *)

(** A Morningstar report whose accounts perform 4.7 and 6.4. *)
Definition sample_ms_tenths : text :=
  str "Morningstar report" ++ nl ++
  str "Investment held: ISA" ++ nl ++
  str "Portfolio Valuation " ++ [pound] ++ str "10,000.10" ++ nl ++
  str "Portfolio % Returns 4.7%" ++ nl ++
  str "Investment held: SIPP" ++ nl ++
  str "Portfolio Valuation " ++ [pound] ++ str "2,000.20" ++ nl ++
  str "Portfolio % Returns 6.4%" ++ nl.

Definition sample_ms_tenths_record : dict :=
  Eval vm_compute in record_of (extract_morningstar sample_ms_tenths).

(** C8.  In a Morningstar record, [performance.oneYearReturn] is there
    exactly when there is an account, and it is then the arithmetic mean of
    the accounts' [performance] values, in the order of the list: their sum
    over their number, as floats add and divide. *)
Theorem morningstar_one_year_return (t : text) (d : dict) :
  extract_morningstar t = Ok d ->
  exists perf ps,
    dget "performance" d = Some (VDict perf) /\
    map (num_field "performance") (accounts_of d) = map Ok ps /\
    (dget "oneYearReturn" perf <> None <-> accounts_of d <> []) /\
    (accounts_of d <> [] ->
     dget "oneYearReturn" perf = Some (VNum (mean ps))).
Proof.
  rewrite extract_morningstar_eq.
  destruct (ms_fields (str "ISA") t) as [isa|]; [|discriminate].
  destruct (ms_fields (str "SIPP") t) as [sipp|]; [|discriminate].
  intros E; inversion E; subst; clear E.
  exists (ms_performance (opt_list isa ++ opt_list sipp)),
    (map f_performance (opt_list isa ++ opt_list sipp)).
  split; [reflexivity|]. split.
  { destruct isa as [fi|], sipp as [fs|]; reflexivity. }
  destruct isa as [fi|], sipp as [fs|]; split;
    try (split; discriminate);
    try (split; intros H; exfalso; apply H; reflexivity);
    try (intros _; reflexivity);
    intros H; exfalso; apply H; reflexivity.
Qed.

(** The two accounts of [sample_ms] perform 4.0 and 6.0: the mean is 5.0. *)
Lemma morningstar_one_year_return_witness :
  extract_morningstar sample_ms = Ok sample_ms_record /\
  exists perf ps,
    dget "performance" sample_ms_record = Some (VDict perf) /\
    map (num_field "performance") (accounts_of sample_ms_record)
      = map Ok ps /\
    (dget "oneYearReturn" perf <> None <-> accounts_of sample_ms_record <> []) /\
    (accounts_of sample_ms_record <> [] ->
     dget "oneYearReturn" perf = Some (VNum (mean ps))) /\
    ps = [nearest 4.0; nearest 6.0] /\
    dget "oneYearReturn" perf = Some (VNum (nearest 5.0)).
Proof.
  assert (H : extract_morningstar sample_ms = Ok sample_ms_record)
    by (vm_compute; reflexivity).
  split; [exact H|].
  destruct (morningstar_one_year_return _ _ H) as (perf & ps & P & M & I & V).
  exists perf, ps.
  split; [exact P|]. split; [exact M|]. split; [exact I|]. split; [exact V|].
  assert (Eps : ps = [nearest 4.0; nearest 6.0]).
  { destruct ps as [|p1 [|p2 [|p3 ps]]]; try discriminate M.
    injection M as <- <-. vm_compute. reflexivity. }
  split; [exact Eps|].
  rewrite (V ltac:(discriminate)), Eps. vm_compute. reflexivity.
Defined.

(** The mean is the mean of floats: performances 4.7 and 6.4 give
    5.550000000000001 and not 5.55, and values 10,000.10 and 2,000.20 add up
    to 12000.300000000001. *)
Example sample_ms_rounded_mean :
  extract_morningstar sample_ms_tenths = Ok sample_ms_tenths_record /\
  map (num_field "performance") (accounts_of sample_ms_tenths_record)
    = [Ok (nearest 4.7); Ok (nearest 6.4)] /\
  item "performance" (VDict sample_ms_tenths_record)
    = Ok (VDict [("oneYearReturn"%string,
                  VNum (nearest 5.550000000000001))]) /\
  nearest 5.550000000000001 <> nearest 5.55 /\
  dget "total_value" sample_ms_tenths_record
    = Some (VNum (nearest 12000.300000000001)) /\
  nearest 12000.300000000001 <> nearest 12000.30.
Proof.
  split; [vm_compute; reflexivity|].
  split; [vm_compute; reflexivity|].
  split; [vm_compute; reflexivity|].
  split; [vm_compute; discriminate|].
  split; [vm_compute; reflexivity|].
  vm_compute. discriminate.
Qed.

(* ================================================================= *)
(** ** The sections of a Morningstar report *)

Lemma mtc_alt_inv a b w rest c c' :
  mtc (Alt a b) w rest c c' -> mtc a w rest c c' \/ mtc b w rest c c'.
Proof. intros M. inversion M; subst; auto. Qed.

Lemma mtc_look_inv a w rest c c' :
  mtc (Look a) w rest c c' ->
  w = [] /\ exists w1 r1, rest = w1 ++ r1 /\ mtc a w1 r1 c c'.
Proof. intros M. inversion M; subst. eauto. Qed.

Lemma mtc_eol_inv ml w rest c c' :
  mtc (Eol ml) w rest c c' -> w = [] /\ c' = c /\ at_eol ml rest = true.
Proof. intros M. inversion M; subst. auto. Qed.

(** Where [$] matches without MULTILINE: at the end of the text, or before a
    newline that ends it. *)
Definition text_end (s : text) : Prop := s = [] \/ s = [newline].

Lemma at_eol_false s : at_eol false s = true <-> text_end s.
Proof.
  unfold text_end. destruct s as [|c [|c' s]]; simpl.
  - split; auto.
  - rewrite andb_true_r, Ascii.eqb_eq. split.
    + intros ->. auto.
    + intros [H|H]; [discriminate | inversion H; reflexivity].
  - rewrite andb_false_r. split; [discriminate|].
    intros [H|H]; discriminate.
Qed.

Lemma rmatch_seq_some a b s c k res :
  rmatch (a >> b) s c k = Some res ->
  exists w s1 c1,
    s = w ++ s1 /\ mtc a w s1 c c1 /\ rmatch b s1 c1 k = Some res.
Proof.
  intros R. cbn [rmatch] in R. apply rmatch_sound in R. exact R.
Qed.

(** Where a section of a Morningstar report stops. *)
Definition ms_boundary (post : text) : Prop :=
  (exists r, post = str "Investment held:" ++ r) \/ text_end post.

Definition ms_look : regex :=
  Look (Alt (lit (str "Investment held:")) (Eol false)).

Lemma mtc_ms_look w post c c' :
  mtc ms_look w post c c' <-> w = [] /\ c' = c /\ ms_boundary post.
Proof.
  unfold ms_look, ms_boundary. split.
  - intros M. apply mtc_look_inv in M. destruct M as (-> & w1 & r1 & -> & M).
    split; [reflexivity|].
    apply mtc_alt_inv in M. destruct M as [M|M].
    + apply mtc_lit in M. destruct M as [-> ->]. eauto.
    + apply mtc_eol_inv in M. destruct M as (-> & -> & E).
      split; [reflexivity|]. right. apply at_eol_false. exact E.
  - intros (-> & -> & [[r ->]|E]).
    + apply MLook. apply MAltL. apply lit_mtc.
    + change post with ([] ++ post). apply MLook. apply MAltR.
      constructor. apply at_eol_false. exact E.
Qed.

Lemma section_mtc kind ws body post c :
  forallb is_space ws = true -> ms_boundary post ->
  mtc (Morningstar.section_re kind)
    (str "Investment held:" ++ ws ++ kind ++ body) post c c.
Proof.
  intros F B. unfold Morningstar.section_re.
  eapply MSeq; [apply lit_mtc|].
  eapply MSeq; [apply star_cls_mtc; exact F|].
  eapply MSeq; [apply lit_mtc|].
  rewrite <- (app_nil_r body).
  eapply MSeq; [apply star_cls_mtc, forallb_all|].
  apply (proj2 (mtc_ms_look [] post c c)). auto.
Qed.

(** Where [search] finds the section of a kind. *)
Lemma section_span (kind t : text) (section : match_obj) :
  search (Morningstar.section_re kind) t = Some section ->
  exists pre ws body post,
    t = pre ++ str "Investment held:" ++ ws ++ kind ++ body ++ post /\
    forallb is_space ws = true /\
    m_start section = length pre /\
    m_text section = str "Investment held:" ++ ws ++ kind ++ body /\
    ms_boundary post /\
    (forall b1 b2, body = b1 ++ b2 -> b2 <> [] -> ~ ms_boundary (b2 ++ post)) /\
    (forall pre' ws' rest',
       t = pre' ++ str "Investment held:" ++ ws' ++ kind ++ rest' ->
       forallb is_space ws' = true ->
       length pre <= length pre').
Proof.
  intros S. apply search_at_first in S.
  destruct S as (pre & s0 & s' & Et & St & R & Tx & MinP).
  pose proof R as R'. unfold Morningstar.section_re in R'.
  apply rmatch_seq_some in R'. destruct R' as (w1 & s1 & c1 & E1 & M1 & R1).
  apply mtc_lit in M1. destruct M1 as [-> ->].
  apply rmatch_seq_some in R1. destruct R1 as (ws & s2 & c2 & E2 & M2 & R2).
  apply mtc_star_cls in M2. destruct M2 as [F ->].
  change (Look (Alt (lit (str "Investment held:")) (Eol false)))
    with ms_look in R2.
  apply rmatch_lit_lazy in R2.
  destruct R2 as (body & s3 & E3 & _ & Rl & MinM).
  pose proof Rl as Rl'. apply rmatch_sound in Rl'.
  destruct Rl' as (w & s4 & c4 & E4 & M & K). inversion K; subst s4 c4.
  apply mtc_ms_look in M. destruct M as (-> & _ & B).
  simpl in E4. subst s3.
  assert (E0 : s0 = str "Investment held:" ++ ws ++ kind ++ body ++ s')
    by (rewrite E1, E2, E3; reflexivity).
  exists pre, ws, body, s'. repeat split; auto.
  - rewrite Et, E0. reflexivity.
  - rewrite Tx, E0.
    replace (str "Investment held:" ++ ws ++ kind ++ body ++ s')
      with ((str "Investment held:" ++ ws ++ kind ++ body) ++ s')
      by (rewrite <- !app_assoc; reflexivity).
    apply firstn_app_len.
  - intros b1 b2 Eb Nb Bd.
    pose proof (MinM b1 b2 Eb Nb) as Nn.
    pose proof (rmatch_complete ms_look eq_refl _ _ _ Nn [] (b2 ++ s') []
                  eq_refl) as A.
    assert (Mk : mtc ms_look [] (b2 ++ s') [] [])
      by (apply mtc_ms_look; auto).
    specialize (A Mk). discriminate.
  - intros pre' ws' rest' E' F'.
    destruct (Nat.le_gt_cases (length pre) (length pre')) as [L|L]; [exact L|].
    exfalso. rewrite Et in E'.
    destruct (prefix_split pre pre' _ _ E' ltac:(lia)) as (u & Eu & Ex).
    assert (Nu : u <> []) by (intros ->; rewrite app_nil_r in Eu; subst; lia).
    pose proof (MinP pre' u Eu Nu) as Nn. rewrite <- Ex in Nn.
    assert (LS : look_simple (Morningstar.section_re kind) = true).
    { unfold Morningstar.section_re. simpl.
      assert (G : forall l, look_simple (lit l) = true)
        by (induction l; simpl; auto).
      rewrite G. reflexivity. }
    pose proof (rmatch_complete (Morningstar.section_re kind) LS _ _ _ Nn
                  (str "Investment held:" ++ ws' ++ kind ++ rest') [] []) as A.
    rewrite app_nil_r in A. specialize (A eq_refl).
    assert (Mk : mtc (Morningstar.section_re kind)
                   (str "Investment held:" ++ ws' ++ kind ++ rest') [] [] [])
      by (apply section_mtc; [exact F' | right; left; reflexivity]).
    specialize (A Mk). discriminate.
Qed.

(** The section of a wrapper kind, read off the text: it starts at the first
    "Investment held:" that the kind follows, blanks apart, and runs up to
    the next "Investment held:" or to the end of the text, a newline that
    ends the text left out. *)
Definition ms_section (kind t sec : text) : Prop :=
  exists pre ws body post,
    t = pre ++ str "Investment held:" ++ ws ++ kind ++ body ++ post /\
    forallb is_space ws = true /\
    sec = str "Investment held:" ++ ws ++ kind ++ body /\
    ms_boundary post /\
    (forall b1 b2, body = b1 ++ b2 -> b2 <> [] -> ~ ms_boundary (b2 ++ post)) /\
    (forall pre' ws' rest',
       t = pre' ++ str "Investment held:" ++ ws' ++ kind ++ rest' ->
       forallb is_space ws' = true ->
       length pre <= length pre').

Lemma search_ms_section kind t m :
  search (Morningstar.section_re kind) t = Some m ->
  ms_section kind t (m_text m).
Proof.
  intros S.
  destruct (section_span kind t m S)
    as (pre & ws & body & post & Et & F & _ & Tx & B & MinM & MinP).
  exists pre, ws, body, post. auto 8.
Qed.

(** A text has one section of a kind at most. *)
Lemma ms_section_unique kind t sec sec' :
  stops is_space kind -> kind <> [] ->
  ms_section kind t sec -> ms_section kind t sec' -> sec = sec'.
Proof.
  intros Sk Nk
    (pre & ws & body & post & Et & F & -> & B & MinM & MinP)
    (pre' & ws' & body' & post' & Et' & F' & -> & B' & MinM' & MinP').
  assert (L1 : length pre <= length pre') by (apply (MinP _ _ _ Et' F')).
  assert (L2 : length pre' <= length pre) by (apply (MinP' _ _ _ Et F)).
  rewrite Et in Et'.
  destruct (prefix_split pre pre' _ _ Et' L2) as (u & Eu & Ex).
  assert (u = []).
  { apply (f_equal (@length ascii)) in Eu. rewrite length_app in Eu.
    destruct u; [reflexivity | simpl in Eu; lia]. }
  subst u. cbn [app] in Ex. apply app_inv_head in Ex.
  assert (Sk' : forall r, stops is_space (kind ++ r)).
  { intros r. destruct kind as [|x k]; [congruence | exact Sk]. }
  destruct (run_unique is_space ws' ws _ _ F' F Ex (Sk' _) (Sk' _))
    as [-> Er].
  apply app_inv_head in Er.
  f_equal. f_equal. f_equal.
  destruct (Nat.le_gt_cases (length body) (length body')) as [L|L].
  - destruct (prefix_split body' body _ _ Er L) as (q & Eq & Ep).
    destruct q as [|x q]; [rewrite app_nil_r in Eq; auto|].
    exfalso. apply (MinM' body (x :: q) Eq ltac:(discriminate)).
    rewrite <- Ep. exact B.
  - destruct (prefix_split body body' _ _ (eq_sym Er) ltac:(lia))
      as (q & Eq & Ep).
    destruct q as [|x q]; [rewrite app_nil_r in Eq; auto|].
    exfalso. apply (MinM body' (x :: q) Eq ltac:(discriminate)).
    rewrite <- Ep. exact B'.
Qed.

Lemma section_look_simple kind :
  look_simple (Morningstar.section_re kind) = true.
Proof.
  unfold Morningstar.section_re. simpl.
  assert (G : forall l, look_simple (lit l) = true)
    by (induction l; simpl; auto).
  rewrite G. reflexivity.
Qed.

(** A text has a section of a kind as soon as it has the heading with the
    kind after it. *)
Lemma ms_section_found kind t pre ws rest :
  t = pre ++ str "Investment held:" ++ ws ++ kind ++ rest ->
  forallb is_space ws = true ->
  exists sec, ms_section kind t sec.
Proof.
  intros Et F.
  assert (O : occurs (Morningstar.section_re kind) t).
  { exists pre, (str "Investment held:" ++ ws ++ kind ++ rest), [], [].
    split.
    - rewrite Et, app_nil_r. reflexivity.
    - apply section_mtc; [exact F | right; left; reflexivity]. }
  apply search_some_iff in O; [|apply section_look_simple].
  destruct O as [m S]. exists (m_text m). exact (search_ms_section _ _ _ S).
Qed.

(** [search] finds the section of a kind, and nothing else. *)
Lemma ms_section_search kind t sec :
  stops is_space kind -> kind <> [] ->
  (ms_section kind t sec <->
   exists m, search (Morningstar.section_re kind) t = Some m /\ m_text m = sec).
Proof.
  intros Sk Nk. split.
  - intros H. pose proof H as H'.
    destruct H' as (pre & ws & body & post & Et & F & Es & B & _ & _).
    assert (O : occurs (Morningstar.section_re kind) t).
    { exists pre, sec, post, []. split.
      - rewrite Et, Es, <- !app_assoc. reflexivity.
      - rewrite Es. apply section_mtc; assumption. }
    apply search_some_iff in O; [|apply section_look_simple].
    destruct O as [m S]. exists m. split; [exact S|].
    exact (ms_section_unique kind t _ _ Sk Nk (search_ms_section _ _ _ S) H).
  - intros (m & S & <-). exact (search_ms_section _ _ _ S).
Qed.

(* ================================================================= *)
(** ** C9: a Morningstar account needs its valuation *)

Lemma ms_fields_some kind t o :
  ms_fields kind t = Ok o ->
  (o <> None <->
   exists section,
     search (Morningstar.section_re kind) t = Some section /\
     occurs Morningstar.val_re (m_text section)).
Proof.
  unfold ms_fields.
  destruct (search (Morningstar.section_re kind) t) as [sec|] eqn:S.
  - destruct (search Morningstar.val_re (m_text sec)) as [vm|] eqn:V.
    + intros E.
      assert (O : occurs Morningstar.val_re (m_text sec))
        by (apply search_some_iff; [reflexivity | eauto]).
      split; [eauto|]. intros _ ->.
      destruct (amount_of vm); [|discriminate].
      destruct (amount_or_zero _); [|discriminate].
      destruct (amount_or_zero _); [|discriminate].
      destruct (percent_or_zero _); discriminate.
    + intros E; inversion E; subst. split; [congruence|].
      intros (sec' & E' & O). inversion E'; subst.
      apply search_none_iff in V; [contradiction | reflexivity].
  - intros E; inversion E; subst. split; [congruence|].
    intros (sec' & E' & _). discriminate.
Qed.

(** "Portfolio Valuation", blanks if any, the pound sign and an amount occur
    in [s]: what [val_re] looks for. *)
Definition valuation_in (s : text) : Prop :=
  exists pre ws g post,
    s = pre ++ str "Portfolio Valuation" ++ ws ++ [pound] ++ g ++ post /\
    forallb is_space ws = true /\ amount_shape g.

Lemma occurs_val_re s : occurs Morningstar.val_re s <-> valuation_in s.
Proof.
  unfold valuation_in, Morningstar.val_re, Morningstar.labelled_amount_re.
  split.
  - intros (pre & w & post & c & -> & M).
    apply mtc_seq_lit in M. destruct M as (w1 & -> & M).
    apply mtc_seq_star_cls in M. destruct M as (ws & w2 & -> & F & M).
    apply mtc_pound_amount in M. destruct M as (g & -> & Sh & _).
    exists pre, ws, g, post. rewrite <- !app_assoc. auto.
  - intros (pre & ws & g & post & -> & F & Sh).
    exists pre, (str "Portfolio Valuation" ++ ws ++ [pound] ++ g), post,
      [(1, g)].
    split; [rewrite <- !app_assoc; reflexivity|].
    eapply MSeq; [apply lit_mtc|].
    eapply MSeq; [apply star_cls_mtc; assumption|].
    apply mtc_pound_amount. exists g. auto.
Qed.

(** C9.  For each wrapper kind, ISA and SIPP, a Morningstar record has an
    account of that kind exactly when the text has a section of the kind and
    "Portfolio Valuation", the pound sign and an amount occur in that
    section; without them there is no account of the kind, whatever else the
    section holds. *)
Theorem morningstar_account_iff_valuation (kind t : text) (d : dict) :
  kind = str "ISA" \/ kind = str "SIPP" ->
  extract_morningstar t = Ok d ->
  ((exists acc, In acc (accounts_of d) /\ item "type" acc = Ok (VStr kind))
   <->
   (exists sec, ms_section kind t sec /\ valuation_in sec)).
Proof.
  intros K.
  assert (V : (exists sec, ms_section kind t sec /\ valuation_in sec) <->
              (exists section,
                 search (Morningstar.section_re kind) t = Some section /\
                 occurs Morningstar.val_re (m_text section))).
  { assert (Sk : stops is_space kind /\ kind <> [])
      by (destruct K as [-> | ->]; split; [reflexivity | discriminate
                                         | reflexivity | discriminate]).
    destruct Sk as [Sk Nk]. split.
    - intros (sec & H & O).
      apply (ms_section_search kind t sec Sk Nk) in H.
      destruct H as (m & S & <-). exists m. split; [exact S|].
      apply occurs_val_re. exact O.
    - intros (m & S & O). exists (m_text m).
      split; [exact (search_ms_section _ _ _ S) | apply occurs_val_re; exact O]. }
  rewrite V. clear V.
  rewrite extract_morningstar_eq.
  destruct (ms_fields (str "ISA") t) as [isa|] eqn:I; [|discriminate].
  destruct (ms_fields (str "SIPP") t) as [sipp|] eqn:S; [|discriminate].
  intros E; inversion E; subst d; clear E.
  apply ms_fields_some in I. apply ms_fields_some in S.
  change (accounts_of _) with
    (map (ms_account (str "ISA")) (opt_list isa)
     ++ map (ms_account (str "SIPP")) (opt_list sipp)).
  destruct K as [-> | ->].
  - rewrite <- I. split.
    + intros (acc & H & T). apply in_app_or in H. destruct H as [H|H];
        apply in_map_iff in H; destruct H as (f & <- & F).
      * destruct isa; [discriminate | destruct F].
      * discriminate T.
    + intros N. destruct isa as [f|]; [|congruence].
      exists (ms_account (str "ISA") f). split; [left; reflexivity|reflexivity].
  - rewrite <- S. split.
    + intros (acc & H & T). apply in_app_or in H. destruct H as [H|H];
        apply in_map_iff in H; destruct H as (f & <- & F).
      * discriminate T.
      * destruct sipp; [discriminate | destruct F].
    + intros N. destruct sipp as [f|]; [|congruence].
      exists (ms_account (str "SIPP") f). split; [|reflexivity].
      apply in_or_app. right. left. reflexivity.
Qed.

(** [sample_ms] has a SIPP section with a valuation, and a SIPP account;
    the SIPP section of [sample_ms_no_sipp_value] has the other three
    entries and no valuation, and the record has no SIPP account, though the
    ISA section before it has a valuation. *)
Lemma morningstar_account_iff_valuation_witness :
  (str "SIPP" = str "ISA" \/ str "SIPP" = str "SIPP") /\
  extract_morningstar sample_ms = Ok sample_ms_record /\
  ms_section (str "SIPP") sample_ms
    (str "Investment held: SIPP" ++ nl ++
     str "Portfolio Valuation " ++ [pound] ++ str "5,000.00" ++ nl ++
     str "Portfolio % Returns 6.0%") /\
  (exists acc,
     In acc (accounts_of sample_ms_record) /\
     item "type" acc = Ok (VStr (str "SIPP"))) /\
  extract_morningstar sample_ms_no_sipp_value
    = Ok sample_ms_no_sipp_value_record /\
  ms_section (str "SIPP") sample_ms_no_sipp_value
    (str "Investment held: SIPP" ++ nl ++
     str "Total In/Out " ++ [pound] ++ str "500.00" ++ nl ++
     str "Total Return " ++ [pound] ++ str "25.00" ++ nl ++
     str "Portfolio % Returns 6.0%") /\
  ~ (exists acc,
       In acc (accounts_of sample_ms_no_sipp_value_record) /\
       item "type" acc = Ok (VStr (str "SIPP"))).
Proof.
  assert (K : str "SIPP" = str "ISA" \/ str "SIPP" = str "SIPP")
    by (right; reflexivity).
  assert (H : extract_morningstar sample_ms = Ok sample_ms_record)
    by (vm_compute; reflexivity).
  assert (H' : extract_morningstar sample_ms_no_sipp_value
               = Ok sample_ms_no_sipp_value_record)
    by (vm_compute; reflexivity).
  assert (Sec : forall t sec,
    (match search (Morningstar.section_re (str "SIPP")) t with
     | Some m => m_text m
     | None => []
     end) = sec ->
    sec <> [] -> ms_section (str "SIPP") t sec).
  { intros t sec E N.
    destruct (search (Morningstar.section_re (str "SIPP")) t) as [m|] eqn:S;
      [|congruence].
    rewrite <- E. exact (search_ms_section _ _ _ S). }
  assert (S1 : ms_section (str "SIPP") sample_ms
    (str "Investment held: SIPP" ++ nl ++
     str "Portfolio Valuation " ++ [pound] ++ str "5,000.00" ++ nl ++
     str "Portfolio % Returns 6.0%"))
    by (apply Sec; [vm_compute; reflexivity | discriminate]).
  assert (S2 : ms_section (str "SIPP") sample_ms_no_sipp_value
    (str "Investment held: SIPP" ++ nl ++
     str "Total In/Out " ++ [pound] ++ str "500.00" ++ nl ++
     str "Total Return " ++ [pound] ++ str "25.00" ++ nl ++
     str "Portfolio % Returns 6.0%"))
    by (apply Sec; [vm_compute; reflexivity | discriminate]).
  split; [exact K|]. split; [exact H|]. split; [exact S1|]. split.
  - apply (proj2 (morningstar_account_iff_valuation _ _ _ K H)).
    eexists. split; [exact S1|].
    exists (str "Investment held: SIPP" ++ nl), (str " "), (str "5,000.00"),
      (nl ++ str "Portfolio % Returns 6.0%").
    split; [reflexivity|]. split; [reflexivity|].
    exists (str "5,000"), "0"%char, "0"%char.
    repeat split; discriminate.
  - split; [exact H'|]. split; [exact S2|].
    intros A.
    apply (proj1 (morningstar_account_iff_valuation _ _ _ K H')) in A.
    destruct A as (sec & S & O).
    assert (E : sec = str "Investment held: SIPP" ++ nl ++
                      str "Total In/Out " ++ [pound] ++ str "500.00" ++ nl ++
                      str "Total Return " ++ [pound] ++ str "25.00" ++ nl ++
                      str "Portfolio % Returns 6.0%")
      by (apply (ms_section_unique (str "SIPP") sample_ms_no_sipp_value);
          [reflexivity | discriminate | exact S | exact S2]).
    subst sec. apply occurs_val_re in O.
    apply search_some_iff in O; [|reflexivity]. destruct O as [m V].
    vm_compute in V. discriminate.
Defined.

(* ================================================================= *)
(** ** Further properties: the shape of the records *)

(** An AJ Bell record has an account exactly when the text has the ISA
    heading, and then exactly one, even when no field pattern matches: unlike
    the Morningstar extractor, which drops an account without a valuation. *)
Theorem aj_bell_account_iff_heading (t : text) (d : dict) :
  extract_aj_bell t = Ok d ->
  ((exists acc, accounts_of d = [acc]) <->
   substring (str "ISA - Performance summary") t) /\
  (accounts_of d = [] <-> ~ substring (str "ISA - Performance summary") t).
Proof.
  rewrite extract_aj_bell_eq.
  destruct (search AJBell.isa_section_re t) as [isa|] eqn:S.
  - pose proof (search_seq_lit _ _ _ _ S) as Hh.
    destruct (aj_fields t (m_text isa)) as [f|]; [|discriminate].
    intros E; inversion E; subst d; clear E. split; split.
    + intros _. exact Hh.
    + intros _. eexists. reflexivity.
    + discriminate.
    + intros N. contradiction.
  - assert (N : ~ substring (str "ISA - Performance summary") t).
    { intros Hh. destruct (isa_section_found t Hh) as [isa I]. congruence. }
    intros E; inversion E; subst d; clear E. split; split.
    + intros [acc A]. discriminate.
    + intros Hh. contradiction.
    + intros _. exact N.
    + intros _. reflexivity.
Qed.

Lemma aj_bell_account_iff_heading_witness :
  extract_aj_bell sample_aj = Ok sample_aj_record /\
  substring (str "ISA - Performance summary") sample_aj /\
  exists acc, accounts_of sample_aj_record = [acc].
Proof.
  assert (H : extract_aj_bell sample_aj = Ok sample_aj_record)
    by (vm_compute; reflexivity).
  assert (Hh : substring (str "ISA - Performance summary") sample_aj)
    by (apply contains_iff; vm_compute; reflexivity).
  split; [exact H|]. split; [exact Hh|].
  exact (proj2 (proj1 (aj_bell_account_iff_heading _ _ H)) Hh).
Defined.

(** In an AJ Bell record [performance.oneYearReturn] is there exactly when
    there is an account, and it is the [performance] of the first account. *)
Theorem aj_bell_one_year_return (t : text) (d : dict) :
  extract_aj_bell t = Ok d ->
  exists perf,
    dget "performance" d = Some (VDict perf) /\
    (dget "oneYearReturn" perf <> None <-> accounts_of d <> []) /\
    forall first rest,
      accounts_of d = first :: rest ->
      exists p,
        item "performance" first = Ok p /\
        dget "oneYearReturn" perf = Some p.
Proof.
  rewrite extract_aj_bell_eq.
  destruct (search AJBell.isa_section_re t) as [isa|].
  - destruct (aj_fields t (m_text isa)) as [f|]; [|discriminate].
    intros E; inversion E; subst d; clear E.
    eexists. split; [reflexivity|]. split.
    + split; discriminate.
    + intros first rest A. simpl in A. inversion A; subst.
      eexists. split; reflexivity.
  - intros E; inversion E; subst d; clear E.
    eexists. split; [reflexivity|]. split.
    + split; intros H; exfalso; apply H; reflexivity.
    + intros first rest A. discriminate.
Qed.

Lemma aj_bell_one_year_return_witness :
  extract_aj_bell sample_aj = Ok sample_aj_record /\
  exists perf,
    dget "performance" sample_aj_record = Some (VDict perf) /\
    (dget "oneYearReturn" perf <> None <-> accounts_of sample_aj_record <> []).
Proof.
  assert (H : extract_aj_bell sample_aj = Ok sample_aj_record)
    by (vm_compute; reflexivity).
  split; [exact H|].
  destruct (aj_bell_one_year_return _ _ H) as (perf & P & I & _).
  exists perf. split; [exact P | exact I].
Defined.

(** A Morningstar report with the SIPP section before the ISA section. *)
Definition sample_ms_sipp_first : text :=
  str "Morningstar report" ++ nl ++
  str "Investment held: SIPP" ++ nl ++
  str "Portfolio Valuation " ++ [pound] ++ str "5,000.00" ++ nl ++
  str "Investment held: ISA" ++ nl ++
  str "Portfolio Valuation " ++ [pound] ++ str "10,000.00" ++ nl.

Definition sample_ms_sipp_first_record : dict :=
  Eval vm_compute in record_of (extract_morningstar sample_ms_sipp_first).

(** The kinds of the accounts, in the order of the list. *)
Definition account_types (d : dict) : list (result value) :=
  map (item "type") (accounts_of d).

(** A Morningstar record has at most one account of each kind, and the ISA
    account comes before the SIPP account whatever the order of the sections
    in the text. *)
Theorem morningstar_account_order (t : text) (d : dict) :
  extract_morningstar t = Ok d ->
  account_types d = [] \/
  account_types d = [Ok (VStr (str "ISA"))] \/
  account_types d = [Ok (VStr (str "SIPP"))] \/
  account_types d = [Ok (VStr (str "ISA")); Ok (VStr (str "SIPP"))].
Proof.
  rewrite extract_morningstar_eq.
  destruct (ms_fields (str "ISA") t) as [isa|]; [|discriminate].
  destruct (ms_fields (str "SIPP") t) as [sipp|]; [|discriminate].
  intros E; inversion E; subst d; clear E.
  destruct isa, sipp; unfold account_types; simpl; auto.
Qed.

Lemma morningstar_account_order_witness :
  extract_morningstar sample_ms_sipp_first = Ok sample_ms_sipp_first_record /\
  substring (str "SIPP" ++ nl ++ str "Portfolio Valuation " ++ [pound]
             ++ str "5,000.00" ++ nl ++ str "Investment held: ISA")
    sample_ms_sipp_first /\
  account_types sample_ms_sipp_first_record
    = [Ok (VStr (str "ISA")); Ok (VStr (str "SIPP"))].
Proof.
  assert (H : extract_morningstar sample_ms_sipp_first
              = Ok sample_ms_sipp_first_record) by (vm_compute; reflexivity).
  split; [exact H|]. split.
  - apply contains_iff. vm_compute. reflexivity.
  - destruct (morningstar_account_order _ _ H) as [A|[A|[A|A]]];
      try (vm_compute in A; discriminate A). exact A.
Defined.

(** The display name of a label's provider. *)
Definition display_name (p : provider) : text :=
  match p with
  | AJ_BELL => str "AJ Bell"
  | MORNINGSTAR => str "Morningstar"
  | CASHFLOW | UNKNOWN => str "Unknown"
  end.

(** The record [main] returns names the provider the classifier chose, and
    every account repeats that name. *)
Theorem provider_names (t : text) (d : dict) :
  main t = Ok d ->
  dget "provider" d = Some (VStr (display_name (detect_provider t))) /\
  forall acc, In acc (accounts_of d) ->
    item "provider" acc = Ok (VStr (display_name (detect_provider t))).
Proof.
  unfold main. destruct (detect_provider t).
  - rewrite extract_aj_bell_eq.
    destruct (search AJBell.isa_section_re t) as [isa|].
    + destruct (aj_fields t (m_text isa)) as [f|]; [|discriminate].
      intros E; inversion E; subst d; clear E. split; [reflexivity|].
      intros acc [<-|[]]. reflexivity.
    + intros E; inversion E; subst d; clear E. split; [reflexivity|].
      intros acc [].
  - rewrite extract_morningstar_eq.
    destruct (ms_fields (str "ISA") t) as [isa|]; [|discriminate].
    destruct (ms_fields (str "SIPP") t) as [sipp|]; [|discriminate].
    intros E; inversion E; subst d; clear E. split; [reflexivity|].
    intros acc H. apply in_app_or in H. destruct H as [H|H];
      apply in_map_iff in H; destruct H as (f & <- & _); reflexivity.
  - intros E; inversion E; subst d. split; [reflexivity|]. intros acc [].
  - intros E; inversion E; subst d. split; [reflexivity|]. intros acc [].
Qed.

Lemma provider_names_witness :
  main sample_ms = Ok sample_ms_record /\
  dget "provider" sample_ms_record = Some (VStr (str "Morningstar")) /\
  forall acc, In acc (accounts_of sample_ms_record) ->
    item "provider" acc = Ok (VStr (str "Morningstar")).
Proof.
  assert (H : main sample_ms = Ok sample_ms_record) by (vm_compute; reflexivity).
  split; [exact H|]. exact (provider_names _ _ H).
Defined.

(** The keys of a record, in the order [json.dumps] prints them: the five of
    an extractor, whatever matched, or the four of the fallback.  So a record
    has an [error] exactly when the provider was not recognised, and then no
    [client_name] and no [performance]. *)
Theorem record_keys (t : text) (d : dict) :
  main t = Ok d ->
  (detect_provider t = AJ_BELL \/ detect_provider t = MORNINGSTAR ->
   keys d = [ "provider"; "client_name"; "accounts"; "total_value";
              "performance" ]%string) /\
  (detect_provider t = CASHFLOW \/ detect_provider t = UNKNOWN ->
   keys d = [ "provider"; "error"; "accounts"; "total_value" ]%string) /\
  (dget "error" d <> None <->
   detect_provider t = CASHFLOW \/ detect_provider t = UNKNOWN).
Proof.
  unfold main. destruct (detect_provider t) eqn:P.
  - rewrite extract_aj_bell_eq.
    destruct (search AJBell.isa_section_re t) as [isa|].
    + destruct (aj_fields t (m_text isa)) as [f|]; [|discriminate].
      intros E; inversion E; subst d; clear E.
      repeat split; try reflexivity; try (intros [H|H]; discriminate H).
      intros H. exfalso. apply H. reflexivity.
    + intros E; inversion E; subst d; clear E.
      repeat split; try reflexivity; try (intros [H|H]; discriminate H).
      intros H. exfalso. apply H. reflexivity.
  - rewrite extract_morningstar_eq.
    destruct (ms_fields (str "ISA") t) as [isa|]; [|discriminate].
    destruct (ms_fields (str "SIPP") t) as [sipp|]; [|discriminate].
    intros E; inversion E; subst d; clear E.
    repeat split; try reflexivity; try (intros [H|H]; discriminate H).
    intros H. exfalso. apply H. reflexivity.
  - intros E; inversion E; subst d.
    repeat split; try reflexivity; try (intros [H|H]; discriminate H);
      try discriminate; auto.
  - intros E; inversion E; subst d.
    repeat split; try reflexivity; try (intros [H|H]; discriminate H);
      try discriminate; auto.
Qed.

Lemma record_keys_witness :
  main sample_aj_sipp = Ok sample_aj_sipp_record /\
  keys sample_aj_sipp_record
    = [ "provider"; "client_name"; "accounts"; "total_value";
        "performance" ]%string.
Proof.
  assert (H : main sample_aj_sipp = Ok sample_aj_sipp_record)
    by (vm_compute; reflexivity).
  split; [exact H|].
  exact (proj1 (record_keys _ _ H) (or_introl eq_refl)).
Defined.

(* ================================================================= *)
(** ** Further properties: the numbers of a record *)

(** A float that is not negative: a number, with its sign bit clear. *)
Definition nonneg (x : float64) : bool :=
  match x with
  | S754_zero s | S754_infinity s | S754_finite s _ _ => negb s
  | S754_nan => false
  end.

(** Rounding keeps the sign. *)
Lemma shr_1_nonneg mrs : (0 <= shr_m mrs)%Z -> (0 <= shr_m (shr_1 mrs))%Z.
Proof.
  destruct mrs as [m r s]. simpl.
  destruct m as [|[p|p|]|p]; simpl; lia.
Qed.

Lemma iter_shr_1_nonneg p : forall mrs,
  (0 <= shr_m mrs)%Z -> (0 <= shr_m (iter_pos shr_1 p mrs))%Z.
Proof.
  induction p as [p IH|p IH|]; intros mrs H; simpl.
  - apply IH, IH, shr_1_nonneg, H.
  - apply IH, IH, H.
  - apply shr_1_nonneg, H.
Qed.

Lemma shr_fexp_nonneg m e l :
  (0 <= m)%Z -> (0 <= shr_m (fst (shr_fexp prec emax m e l)))%Z.
Proof.
  intros H. unfold shr_fexp, shr.
  assert (H0 : (0 <= shr_m (shr_record_of_loc m l))%Z)
    by (destruct l as [|[| |]]; exact H).
  destruct (_ - e)%Z; simpl; auto.
  apply iter_shr_1_nonneg, H0.
Qed.

Lemma round_nearest_even_nonneg m l :
  (0 <= m)%Z -> (0 <= round_nearest_even m l)%Z.
Proof.
  intros H. unfold round_nearest_even.
  destruct l as [|[| |]]; try destruct (Z.even m); lia.
Qed.

Lemma binary_round_aux_nonneg m e l :
  (0 <= m)%Z -> nonneg (binary_round_aux prec emax false m e l) = true.
Proof.
  intros H. unfold binary_round_aux.
  pose proof (shr_fexp_nonneg m e l H) as H1.
  destruct (shr_fexp prec emax m e l) as [mrs' e'].
  simpl in H1.
  pose proof (shr_fexp_nonneg
                (round_nearest_even (shr_m mrs') (loc_of_shr_record mrs'))
                e' loc_Exact (round_nearest_even_nonneg _ _ H1)) as H2.
  destruct (shr_fexp prec emax _ e' loc_Exact) as [mrs'' e''].
  simpl in H2.
  destruct (shr_m mrs'') as [|p|p]; [reflexivity| |lia].
  destruct (Z.leb e'' _); reflexivity.
Qed.

Lemma binary_round_nonneg m e :
  nonneg (binary_round prec emax false m e) = true.
Proof.
  unfold binary_round. destruct (shl_align _ _ _) as [mz ez].
  apply binary_round_aux_nonneg. lia.
Qed.

Lemma div_core_nonneg m1 e1 m2 e2 q e l :
  SFdiv_core_binary prec emax (Zpos m1) e1 (Zpos m2) e2 = (q, e, l) ->
  (0 <= q)%Z.
Proof.
  unfold SFdiv_core_binary.
  set (e' := Z.min _ _).
  set (m' := match (e1 - e2 - e')%Z with
             | Zpos _ => _ | Z0 => _ | Zneg _ => _ end).
  assert (M : (0 <= m')%Z).
  { unfold m'. destruct (e1 - e2 - e')%Z; try lia.
    apply Z.shiftl_nonneg. lia. }
  destruct (Z.div_eucl m' (Zpos m2)) as [qq r] eqn:D.
  intros E. injection E as <- _ _.
  assert (Eq : qq = (m' / Zpos m2)%Z)
    by (unfold Z.div; rewrite D; reflexivity).
  rewrite Eq. apply Z.div_pos; lia.
Qed.

(** The float nearest to a rational that is not negative is not negative. *)
Lemma nearest_nonneg q : (0 <= Qnum q)%Z -> nonneg (nearest q) = true.
Proof.
  intros H. unfold nearest.
  destruct (Qnum q) as [|n|n]; [reflexivity| |lia].
  destruct (SFdiv_core_binary prec emax (Zpos n) 0 (Zpos (Qden q)) 0)
    as [[m e] l] eqn:D.
  apply binary_round_aux_nonneg. exact (div_core_nonneg _ _ _ _ _ _ _ D).
Qed.

(** Neither is a sum of two such floats. *)
Lemma fadd_nonneg x y :
  nonneg x = true -> nonneg y = true -> nonneg (fadd x y) = true.
Proof.
  unfold fadd.
  destruct x as [[|]|[|]| |[|] mx ex], y as [[|]|[|]| |[|] my ey];
    simpl; try discriminate; intros _ _; try reflexivity.
  apply binary_round_nonneg.
Qed.

(** Nor is the quotient of one by a positive finite float. *)
Lemma fdiv_nonneg x m e :
  nonneg x = true -> nonneg (fdiv x (S754_finite false m e)) = true.
Proof.
  unfold fdiv.
  destruct x as [[|]|[|]| |[|] mx ex]; simpl; try discriminate;
    intros _; try reflexivity.
  destruct (SFdiv_core_binary prec emax (Zpos mx) ex (Zpos m) e)
    as [[mz ez] lz] eqn:D.
  apply binary_round_aux_nonneg. exact (div_core_nonneg _ _ _ _ _ _ _ D).
Qed.

Lemma digits_val_nonneg s : (0 <= digits_val s)%Z.
Proof.
  unfold digits_val.
  assert (G : forall acc, (0 <= acc)%Z ->
    (0 <= fold_left (fun a c => (a * 10 + digit_val c)%Z) s acc)%Z).
  { induction s as [|c s IH]; simpl; intros acc A; [assumption|].
    apply IH. unfold digit_val. lia. }
  apply G. lia.
Qed.

(** Nor is the mean of one or two such floats. *)
Lemma mean_nonneg ps :
  (forall x, In x ps -> nonneg x = true) ->
  length ps = 1 \/ length ps = 2 ->
  nonneg (mean ps) = true.
Proof.
  intros H L. unfold mean, fsum.
  destruct ps as [|a [|b [|c ps]]]; simpl in L; try lia; cbn [fold_left length].
  - change (of_nat 1) with (S754_finite false 4503599627370496 (-52)).
    apply fdiv_nonneg, fadd_nonneg; [reflexivity | apply H; left; reflexivity].
  - change (of_nat 2) with (S754_finite false 4503599627370496 (-51)).
    apply fdiv_nonneg, fadd_nonneg;
      [apply fadd_nonneg; [reflexivity | apply H; left; reflexivity]
      |apply H; right; left; reflexivity].
Qed.

Lemma float_nonneg s x : float s = Ok x -> nonneg x = true.
Proof.
  unfold float. destruct (split_dot s) as [ip fp].
  destruct (_ && _); intros E; inversion E; subst.
  apply nearest_nonneg. simpl. apply digits_val_nonneg.
Qed.

(** The float of a whole number of hundredths that is not negative. *)
Definition hundredths (x : float64) : Prop :=
  exists n : Z, (0 <= n)%Z /\ x = nearest (n # 100).

Lemma float_amount_hundredths g x :
  amount_shape g -> float (remove_commas g) = Ok x -> hundredths x.
Proof.
  intros Sh E. rewrite (float_amount_number g Sh) in E.
  injection E as <-.
  exists (digits_val (filter is_digit g)).
  split; [apply digits_val_nonneg | reflexivity].
Qed.

Lemma hundredths_zero : hundredths zero.
Proof. exists 0%Z. split; [lia | reflexivity]. Qed.

Lemma hundredths_nonneg x : hundredths x -> nonneg x = true.
Proof. intros (n & Hn & ->). apply nearest_nonneg. exact Hn. Qed.

Lemma amount_or_zero_hundredths r s q :
  grp1 r = Some amount -> amount_or_zero (search r s) = Ok q -> hundredths q.
Proof.
  intros G. destruct (search r s) as [m|] eqn:S; simpl.
  - destruct (amount_of_ok r s m G S) as (g & q' & _ & Sh & Fq & A).
    intros E. rewrite A in E. inversion E; subst.
    exact (float_amount_hundredths g q Sh Fq).
  - intros E; inversion E; subst. apply hundredths_zero.
Qed.

Lemma amount_or_zero_search_or_hundredths p s r t q :
  grp1 p = Some amount -> grp1 r = Some amount ->
  amount_or_zero (search_or p s r t) = Ok q -> hundredths q.
Proof.
  intros Gp Gr. unfold search_or.
  destruct (search p s) as [m|] eqn:S.
  - simpl. destruct (amount_of_ok p s m Gp S) as (g & q' & _ & Sh & Fq & A).
    intros E. rewrite A in E. inversion E; subst.
    exact (float_amount_hundredths g q Sh Fq).
  - apply amount_or_zero_hundredths. assumption.
Qed.

Lemma percent_or_zero_nonneg m q :
  percent_or_zero m = Ok q -> nonneg q = true.
Proof.
  destruct m as [m|]; simpl.
  - unfold percent_of, group_str. destruct (group 1 m); simpl; [|discriminate].
    apply float_nonneg.
  - intros E; inversion E; subst. reflexivity.
Qed.

(** The numbers of an account that an extractor built: none is negative,
    and the three amounts are floats of whole numbers of hundredths. *)
Definition account_numbers_ok (acc : value) : Prop :=
  (exists v, num_field "value" acc = Ok v /\
             hundredths v /\ nonneg v = true) /\
  (exists c, num_field "contributions" acc = Ok c /\
             hundredths c /\ nonneg c = true) /\
  (exists r, num_field "return" acc = Ok r /\
             hundredths r /\ nonneg r = true) /\
  (exists p, num_field "performance" acc = Ok p /\ nonneg p = true).

Definition fields_ok (f : fields) : Prop :=
  hundredths (f_value f) /\ hundredths (f_contributions f) /\
  hundredths (f_return f) /\ nonneg (f_performance f) = true.

Lemma aj_fields_numbers t isa_text f :
  aj_fields t isa_text = Ok f -> fields_ok f.
Proof.
  unfold aj_fields, aj_value, aj_contributions, aj_performance, aj_return,
    fields_ok.
  destruct (match search AJBell.holdings_re t with
            | Some m => amount_of m
            | None => amount_or_zero (search AJBell.value_re isa_text)
            end) as [v|] eqn:V; [|discriminate].
  destruct (amount_or_zero (search AJBell.contrib_re t)) as [c|] eqn:C;
    [|discriminate].
  destruct (percent_or_zero _) as [p|] eqn:P; [|discriminate].
  destruct (amount_or_zero (search_or _ _ _ _)) as [r|] eqn:R; [|discriminate].
  cbn [bind]. intros E; inversion E; subst f; clear E. simpl.
  repeat split.
  - destruct (search AJBell.holdings_re t) as [m|] eqn:S.
    + destruct (amount_of_ok AJBell.holdings_re t m eq_refl S)
        as (g & q' & _ & Sh & Fq & A).
      rewrite A in V. inversion V; subst.
      exact (float_amount_hundredths g v Sh Fq).
    + exact (amount_or_zero_hundredths AJBell.value_re isa_text v eq_refl V).
  - exact (amount_or_zero_hundredths AJBell.contrib_re t c eq_refl C).
  - exact (amount_or_zero_search_or_hundredths AJBell.change_re t
             AJBell.change_gbp_re t r eq_refl eq_refl R).
  - exact (percent_or_zero_nonneg _ p P).
Qed.

Lemma ms_fields_numbers kind t f :
  ms_fields kind t = Ok (Some f) -> fields_ok f.
Proof.
  unfold ms_fields, fields_ok.
  destruct (search (Morningstar.section_re kind) t) as [sec|]; [|discriminate].
  destruct (search Morningstar.val_re (m_text sec)) as [vm|] eqn:S;
    [|discriminate].
  destruct (amount_of vm) as [v|] eqn:V; [|discriminate].
  destruct (amount_or_zero (search Morningstar.contrib_re (m_text sec)))
    as [c|] eqn:C; [|discriminate].
  destruct (amount_or_zero (search Morningstar.return_re (m_text sec)))
    as [r|] eqn:R; [|discriminate].
  destruct (percent_or_zero _) as [p|] eqn:P; [|discriminate].
  cbn [bind]. intros E; inversion E; subst f; clear E. simpl.
  repeat split.
  - destruct (amount_of_ok Morningstar.val_re _ vm eq_refl S)
      as (g & q' & _ & Sh & Fq & A).
    rewrite A in V. inversion V; subst.
    exact (float_amount_hundredths g v Sh Fq).
  - exact (amount_or_zero_hundredths Morningstar.contrib_re _ c eq_refl C).
  - exact (amount_or_zero_hundredths Morningstar.return_re _ r eq_refl R).
  - exact (percent_or_zero_nonneg _ p P).
Qed.

Lemma aj_account_ok n f : fields_ok f -> account_numbers_ok (aj_account n f).
Proof.
  intros (H1 & H2 & H3 & H4). unfold account_numbers_ok. simpl.
  repeat split; eexists; (split; [reflexivity|]); auto using hundredths_nonneg.
Qed.

Lemma ms_account_ok k f : fields_ok f -> account_numbers_ok (ms_account k f).
Proof.
  intros (H1 & H2 & H3 & H4). unfold account_numbers_ok. simpl.
  repeat split; eexists; (split; [reflexivity|]); auto using hundredths_nonneg.
Qed.

(** An AJ Bell report of a loss: the summary line ends with "-3.20%". *)
Definition sample_aj_loss : text :=
  str "AJ Bell Youinvest" ++ nl ++
  str "ISA - Performance summary" ++ nl ++
  str "Change -" ++ [pound] ++ str "150.00  -3.20%" ++ nl ++
  str "ISA - Holdings" ++ nl.

Definition sample_aj_loss_record : dict :=
  Eval vm_compute in record_of (extract_aj_bell sample_aj_loss).

(** The numbers of a record. *)
Definition record_numbers_ok (d : dict) : Prop :=
  (exists total,
     dget "total_value" d = Some (VNum total) /\ nonneg total = true) /\
  (forall acc, In acc (accounts_of d) -> account_numbers_ok acc) /\
  (forall perf p,
     dget "performance" d = Some (VDict perf) ->
     dget "oneYearReturn" perf = Some p ->
     exists x, p = VNum x /\ nonneg x = true).

(** No number of a record is negative: the patterns capture no sign, so a
    loss comes out as a gain or as 0.  This holds for the total, for the four
    numbers of every account and for [performance.oneYearReturn]; the value,
    the contributions and the return of an account are floats of whole
    numbers of hundredths. *)
Theorem numbers_never_negative (t : text) (d : dict) :
  extract_aj_bell t = Ok d \/ extract_morningstar t = Ok d \/ main t = Ok d ->
  (exists total,
     dget "total_value" d = Some (VNum total) /\ nonneg total = true) /\
  (forall acc, In acc (accounts_of d) -> account_numbers_ok acc) /\
  (forall perf p,
     dget "performance" d = Some (VDict perf) ->
     dget "oneYearReturn" perf = Some p ->
     exists x, p = VNum x /\ nonneg x = true).
Proof.
  change (extract_aj_bell t = Ok d \/ extract_morningstar t = Ok d
          \/ main t = Ok d -> record_numbers_ok d).
  assert (AJ : extract_aj_bell t = Ok d -> record_numbers_ok d).
  { rewrite extract_aj_bell_eq.
    destruct (search AJBell.isa_section_re t) as [isa|].
    - destruct (aj_fields t (m_text isa)) as [f|] eqn:F; [|discriminate].
      intros E; inversion E; subst d; clear E.
      pose proof (aj_fields_numbers _ _ _ F) as N.
      split; [|split].
      + exists (fadd zero (f_value f)). split; [reflexivity|].
        apply fadd_nonneg; [reflexivity|].
        apply hundredths_nonneg, N.
      + intros acc [<-|[]]. apply aj_account_ok. exact N.
      + intros perf p P O. injection P as <-.
        cbn [dget] in O. rewrite String.eqb_refl in O.
        injection O as <-. exists (f_performance f).
        split; [reflexivity | apply N].
    - intros E; inversion E; subst d; clear E. split; [|split].
      + exists zero. split; reflexivity.
      + intros acc [].
      + intros perf p P O. injection P as <-. discriminate O. }
  assert (MS : extract_morningstar t = Ok d -> record_numbers_ok d).
  { rewrite extract_morningstar_eq.
    destruct (ms_fields (str "ISA") t) as [isa|] eqn:I; [|discriminate].
    destruct (ms_fields (str "SIPP") t) as [sipp|] eqn:S; [|discriminate].
    intros E; inversion E; subst d; clear E.
    assert (N : forall f, In f (opt_list isa ++ opt_list sipp) -> fields_ok f).
    { intros f H. apply in_app_or in H. destruct H as [H|H].
      - destruct isa as [fi|]; [|destruct H]. destruct H as [<-|[]].
        exact (ms_fields_numbers _ _ _ I).
      - destruct sipp as [fs|]; [|destruct H]. destruct H as [<-|[]].
        exact (ms_fields_numbers _ _ _ S). }
    assert (L : length (opt_list isa ++ opt_list sipp) <= 2)
      by (destruct isa, sipp; simpl; lia).
    clear I S. split; [|split].
    - exists (fsum (map f_value (opt_list isa ++ opt_list sipp))).
      split; [reflexivity|]. unfold fsum.
      assert (G : forall l acc,
        nonneg acc = true -> (forall f, In f l -> fields_ok f) ->
        nonneg (fold_left fadd (map f_value l) acc) = true).
      { induction l as [|f l IH]; simpl; intros acc A Hl; [exact A|].
        apply IH; [|auto]. apply fadd_nonneg; [exact A|].
        apply hundredths_nonneg, (Hl f). left. reflexivity. }
      apply G; [reflexivity | exact N].
    - intros acc H.
      change (accounts_of _) with
        (map (ms_account (str "ISA")) (opt_list isa)
         ++ map (ms_account (str "SIPP")) (opt_list sipp)) in H.
      apply in_app_or in H. destruct H as [H|H];
        apply in_map_iff in H; destruct H as (f & <- & Fi);
        apply ms_account_ok; apply N; apply in_or_app; auto.
    - intros perf p P O. injection P as <-.
      destruct (opt_list isa ++ opt_list sipp) as [|f fs] eqn:Efs;
        [discriminate O|].
      unfold ms_performance in O. cbn [dget] in O.
      rewrite String.eqb_refl in O. injection O as <-.
      eexists. split; [reflexivity|].
      apply mean_nonneg.
      + intros x Hx.
        change (In x (map f_performance (f :: fs))) in Hx.
        apply in_map_iff in Hx. destruct Hx as (g & <- & Hg).
        apply (N g Hg).
      + destruct fs as [|g [|h fs]]; simpl in L |- *; lia. }
  intros [H|[H|H]]; auto.
  unfold main in H. destruct (detect_provider t); auto;
    inversion H; subst d;
    (split; [exists zero; split; reflexivity|]);
    (split; [intros acc [] | intros perf p P; discriminate P]).
Qed.

Lemma numbers_never_negative_witness :
  extract_aj_bell sample_aj_loss = Ok sample_aj_loss_record /\
  substring (str "-3.20%") sample_aj_loss /\
  (exists acc,
     accounts_of sample_aj_loss_record = [acc] /\
     num_field "performance" acc = Ok (nearest 3.2)) /\
  (exists total,
     dget "total_value" sample_aj_loss_record = Some (VNum total) /\
     nonneg total = true) /\
  (forall acc, In acc (accounts_of sample_aj_loss_record) ->
     account_numbers_ok acc) /\
  (forall perf p,
     dget "performance" sample_aj_loss_record = Some (VDict perf) ->
     dget "oneYearReturn" perf = Some p ->
     exists x, p = VNum x /\ nonneg x = true).
Proof.
  assert (H : extract_aj_bell sample_aj_loss = Ok sample_aj_loss_record)
    by (vm_compute; reflexivity).
  split; [exact H|]. split; [apply contains_iff; vm_compute; reflexivity|].
  split.
  - eexists. split; [reflexivity|]. vm_compute. reflexivity.
  - exact (numbers_never_negative _ _ (or_introl H)).
Defined.

(* ================================================================= *)
(** ** Further properties: the sections *)

(** Where the ISA section of an AJ Bell report stops. *)
Definition isa_boundary (post : text) : Prop :=
  (exists r, post = str "ISA - Performance Analysis" ++ r) \/
  (exists r, post = str "ISA - Holdings" ++ r) \/
  text_end post.

Definition isa_look : regex :=
  Look (Alt (lit (str "ISA - Performance Analysis"))
         (Alt (lit (str "ISA - Holdings")) (Eol false))).

Lemma mtc_isa_look w post c c' :
  mtc isa_look w post c c' <-> w = [] /\ c' = c /\ isa_boundary post.
Proof.
  unfold isa_look, isa_boundary. split.
  - intros M. apply mtc_look_inv in M. destruct M as (-> & w1 & r1 & -> & M).
    split; [reflexivity|].
    apply mtc_alt_inv in M. destruct M as [M|M].
    + apply mtc_lit in M. destruct M as [-> ->]. eauto.
    + apply mtc_alt_inv in M. destruct M as [M|M].
      * apply mtc_lit in M. destruct M as [-> ->]. eauto 6.
      * apply mtc_eol_inv in M. destruct M as (-> & -> & E).
        split; [reflexivity|]. right. right. apply at_eol_false. exact E.
  - intros (-> & -> & [[r ->]|[[r ->]|E]]).
    + apply MLook. apply MAltL. apply lit_mtc.
    + apply MLook. apply MAltR. apply MAltL. apply lit_mtc.
    + change post with ([] ++ post). apply MLook. apply MAltR. apply MAltR.
      constructor. apply at_eol_false. exact E.
Qed.

(** The ISA section of an AJ Bell report: it starts at the first heading
    "ISA - Performance summary" of the text and stops before the first
    "ISA - Performance Analysis" or "ISA - Holdings" after the heading, or at
    the end of the text, a newline that ends the text left out. *)
Theorem isa_section_span (t : text) (isa : match_obj) :
  search AJBell.isa_section_re t = Some isa ->
  exists pre body post,
    t = pre ++ str "ISA - Performance summary" ++ body ++ post /\
    m_start isa = length pre /\
    m_text isa = str "ISA - Performance summary" ++ body /\
    isa_boundary post /\
    (forall b1 b2, body = b1 ++ b2 -> b2 <> [] -> ~ isa_boundary (b2 ++ post)) /\
    (forall pre' rest',
       t = pre' ++ str "ISA - Performance summary" ++ rest' ->
       length pre <= length pre').
Proof.
  intros S. apply search_at_first in S.
  destruct S as (pre & s0 & s' & Et & St & R & Tx & MinP).
  pose proof R as R'.
  change AJBell.isa_section_re with
    (lit (str "ISA - Performance summary") >> Star false (Cls CAll) >> isa_look)
    in R'.
  apply rmatch_lit_lazy in R'.
  destruct R' as (body & s1 & E0 & _ & Rl & MinM).
  pose proof Rl as Rl'. apply rmatch_sound in Rl'.
  destruct Rl' as (w & s2 & c2 & E1 & M & K). inversion K; subst s2 c2.
  apply mtc_isa_look in M. destruct M as (-> & _ & B).
  simpl in E1. subst s1.
  exists pre, body, s'. repeat split; auto.
  - rewrite Et, E0. reflexivity.
  - rewrite Tx, E0.
    replace (str "ISA - Performance summary" ++ body ++ s')
      with ((str "ISA - Performance summary" ++ body) ++ s')
      by (rewrite <- app_assoc; reflexivity).
    apply firstn_app_len.
  - intros b1 b2 Eb Nb Bd.
    pose proof (MinM b1 b2 Eb Nb) as Nn.
    pose proof (rmatch_complete isa_look eq_refl _ _ _ Nn [] (b2 ++ s') []
                  eq_refl) as A.
    assert (Mk : mtc isa_look [] (b2 ++ s') [] [])
      by (apply mtc_isa_look; auto).
    specialize (A Mk). discriminate.
  - intros pre' rest' E'.
    destruct (Nat.le_gt_cases (length pre) (length pre')) as [L|L]; [exact L|].
    exfalso. rewrite Et in E'.
    destruct (prefix_split pre pre' _ _ E' ltac:(lia)) as (u & Eu & Ex).
    assert (Nu : u <> []) by (intros ->; rewrite app_nil_r in Eu; subst; lia).
    pose proof (MinP pre' u Eu Nu) as Nn. rewrite <- Ex in Nn.
    pose proof (rmatch_complete AJBell.isa_section_re eq_refl _ _ _ Nn
                  (str "ISA - Performance summary" ++ rest') [] []) as A.
    rewrite app_nil_r in A. specialize (A eq_refl).
    assert (Mk : mtc AJBell.isa_section_re
                   (str "ISA - Performance summary" ++ rest') [] [] []).
    { unfold AJBell.isa_section_re.
      eapply MSeq; [apply lit_mtc|].
      rewrite <- (app_nil_r rest') at 1.
      eapply MSeq; [apply star_cls_mtc, forallb_all|].
      apply (proj2 (mtc_isa_look [] [] [] [])).
      repeat split. right. right. left. reflexivity. }
    specialize (A Mk). discriminate.
Qed.

Lemma isa_section_span_witness :
  exists isa,
    search AJBell.isa_section_re sample_aj = Some isa /\
    m_text isa =
      str "ISA - Performance summary" ++ nl ++
      str "Cash in " ++ [pound] ++ str "1,000.00  " ++ [pound]
      ++ str "9,999.99  5.25%" ++ nl /\
    exists pre body post,
      sample_aj = pre ++ str "ISA - Performance summary" ++ body ++ post /\
      m_text isa = str "ISA - Performance summary" ++ body /\
      isa_boundary post.
Proof.
  destruct (search AJBell.isa_section_re sample_aj) as [isa|] eqn:S;
    [|vm_compute in S; discriminate].
  exists isa. split; [reflexivity|]. split.
  - vm_compute in S. inversion S. reflexivity.
  - destruct (isa_section_span _ _ S) as (pre & body & post & E & _ & T & B & _).
    exists pre, body, post. auto.
Defined.

(** The section of a wrapper kind in a Morningstar report: it starts at the
    first "Investment held:" that the kind follows, blanks apart, and stops
    before the next "Investment held:" or at the end of the text, a newline
    that ends the text left out. *)
Theorem morningstar_section_span (kind t : text) (section : match_obj) :
  search (Morningstar.section_re kind) t = Some section ->
  exists pre ws body post,
    t = pre ++ str "Investment held:" ++ ws ++ kind ++ body ++ post /\
    forallb is_space ws = true /\
    m_start section = length pre /\
    m_text section = str "Investment held:" ++ ws ++ kind ++ body /\
    ms_boundary post /\
    (forall b1 b2, body = b1 ++ b2 -> b2 <> [] -> ~ ms_boundary (b2 ++ post)) /\
    (forall pre' ws' rest',
       t = pre' ++ str "Investment held:" ++ ws' ++ kind ++ rest' ->
       forallb is_space ws' = true ->
       length pre <= length pre').
Proof.
  intros S.
  destruct (section_span kind t section S)
    as (pre & ws & body & post & Et & F & St & Tx & B & MinM & MinP).
  exists pre, ws, body, post.
  split; [exact Et|]. split; [exact F|]. split; [exact St|].
  split; [exact Tx|]. split; [exact B|]. split; [exact MinM | exact MinP].
Qed.

Lemma morningstar_section_span_witness :
  exists section,
    search (Morningstar.section_re (str "ISA")) sample_ms = Some section /\
    m_text section =
      str "Investment held: ISA" ++ nl ++
      str "Portfolio Valuation " ++ [pound] ++ str "10,000.00" ++ nl ++
      str "Portfolio % Returns 4.0%" ++ nl /\
    exists pre ws body post,
      sample_ms
        = pre ++ str "Investment held:" ++ ws ++ str "ISA" ++ body ++ post /\
      m_text section = str "Investment held:" ++ ws ++ str "ISA" ++ body /\
      ms_boundary post.
Proof.
  destruct (search (Morningstar.section_re (str "ISA")) sample_ms)
    as [sec|] eqn:S; [|vm_compute in S; discriminate].
  exists sec. split; [reflexivity|]. split.
  - vm_compute in S. inversion S. reflexivity.
  - destruct (morningstar_section_span _ _ _ S)
      as (pre & ws & body & post & E & _ & _ & T & B & _).
    exists pre, ws, body, post. auto.
Defined.

(* ================================================================= *)
(** ** Further properties: what a lazy pattern finds *)

Lemma look_simple_lit l : look_simple (lit l) = true.
Proof. induction l; simpl; auto. Qed.

Lemma same_length_prefix (p p' x x' : text) :
  p ++ x = p' ++ x' -> length p = length p' -> p = p' /\ x = x'.
Proof.
  intros E L. destruct (prefix_split p p' x x' E ltac:(lia)) as (u & Eu & Ex).
  assert (u = []).
  { apply (f_equal (@length ascii)) in Eu. rewrite length_app in Eu.
    destruct u; [reflexivity | simpl in Eu; lia]. }
  subst u. rewrite app_nil_r in Eu. simpl in Ex. auto.
Qed.

(** A literal, then as little as can be of a character set, then [r]:
    [search] takes the leftmost literal after which [r] matches somewhere,
    and the nearest place where it does. *)
Lemma search_lit_lazy l cs r t :
  look_simple r = true ->
  match search (lit l >> Star false (Cls cs) >> r) t with
  | Some m =>
      exists pre mid s1 s',
        t = pre ++ l ++ mid ++ s1 /\ forallb (cmatch cs) mid = true /\
        rmatch r s1 [] accept = Some (s', m_caps m) /\
        (forall pre' mid' w' post' c',
           t = pre' ++ l ++ mid' ++ w' ++ post' ->
           forallb (cmatch cs) mid' = true -> mtc r w' post' [] c' ->
           length pre < length pre' \/
           (pre' = pre /\ length mid < length mid') \/
           (pre' = pre /\ mid' = mid /\ w' ++ post' = s1))
  | None =>
      forall pre mid w post c',
        t = pre ++ l ++ mid ++ w ++ post ->
        forallb (cmatch cs) mid = true -> ~ mtc r w post [] c'
  end.
Proof.
  intros LS.
  assert (LSw : look_simple (lit l >> Star false (Cls cs) >> r) = true)
    by (simpl; rewrite look_simple_lit, LS; reflexivity).
  assert (Mk : forall mid w post c c',
    forallb (cmatch cs) mid = true -> mtc r w post c c' ->
    mtc (lit l >> Star false (Cls cs) >> r) (l ++ mid ++ w) post c c').
  { intros mid w post c c' F M.
    eapply MSeq; [apply lit_mtc|].
    eapply MSeq; [apply star_cls_mtc; exact F | exact M]. }
  destruct (search (lit l >> Star false (Cls cs) >> r) t) as [m|] eqn:S.
  - apply search_at_first in S.
    destruct S as (pre & s0 & s' & Et & _ & R & _ & MinP).
    pose proof R as R'. apply rmatch_lit_lazy in R'.
    destruct R' as (mid & s1 & E0 & F & Rt & MinM).
    exists pre, mid, s1, s'. split; [rewrite Et, E0; reflexivity|].
    split; [exact F|]. split; [exact Rt|].
    intros pre' mid' w' post' c' E' F' M'. rewrite Et, E0 in E'.
    destruct (Nat.lt_trichotomy (length pre) (length pre')) as [L|[L|L]].
    + left. exact L.
    + right. destruct (same_length_prefix _ _ _ _ E' L) as [Ep Ex].
      subst pre'. apply app_inv_head in Ex.
      destruct (Nat.lt_trichotomy (length mid) (length mid')) as [Lm|[Lm|Lm]].
      * left. auto.
      * right. destruct (same_length_prefix _ _ _ _ Ex Lm) as [Em Es].
        subst mid'. auto.
      * exfalso. symmetry in Ex.
        destruct (prefix_split mid mid' _ _ (eq_sym Ex) ltac:(lia))
          as (u & Eu & Eu').
        assert (Nu : u <> [])
          by (intros ->; rewrite app_nil_r in Eu; subst; lia).
        pose proof (MinM mid' u Eu Nu) as Nn. rewrite <- Eu' in Nn.
        pose proof (rmatch_complete r LS _ _ _ Nn w' post' c' eq_refl M') as A.
        discriminate.
    + exfalso.
      destruct (prefix_split pre pre' _ _ E' ltac:(lia)) as (u & Eu & Ex).
      assert (Nu : u <> []) by (intros ->; rewrite app_nil_r in Eu; subst; lia).
      pose proof (MinP pre' u Eu Nu) as Nn. rewrite E0, <- Ex in Nn.
      pose proof (rmatch_complete _ LSw _ _ _ Nn (l ++ mid' ++ w') post' c') as A.
      rewrite <- !app_assoc in A.
      specialize (A eq_refl (Mk mid' w' post' [] c' F' M')). discriminate.
  - intros pre mid w post c' E F M.
    apply search_none_iff in S; [|exact LSw]. apply S.
    exists pre, (l ++ mid ++ w), post, c'.
    split; [rewrite E, <- !app_assoc; reflexivity|]. apply Mk; assumption.
Qed.

(** The same at one place of the text, with what [r] matches there. *)
Lemma rmatch_lit_lazy_first l cs r s s' caps0 :
  look_simple r = true ->
  rmatch (lit l >> Star false (Cls cs) >> r) s [] accept = Some (s', caps0) ->
  exists mid w,
    s = l ++ mid ++ w ++ s' /\ forallb (cmatch cs) mid = true /\
    mtc r w s' [] caps0 /\
    forall mid' w' post' c',
      s = l ++ mid' ++ w' ++ post' ->
      forallb (cmatch cs) mid' = true -> mtc r w' post' [] c' ->
      length mid < length mid' \/ (mid' = mid /\ w' ++ post' = w ++ s').
Proof.
  intros LS R. apply rmatch_lit_lazy in R.
  destruct R as (mid & s1 & E0 & F & Rt & MinM).
  pose proof Rt as Rt'. apply rmatch_sound in Rt'.
  destruct Rt' as (w & s2 & c2 & E1 & M & K). inversion K; subst s2 c2.
  exists mid, w. split; [rewrite E0, E1; reflexivity|].
  split; [exact F|]. split; [exact M|].
  intros mid' w' post' c' E' F' M'. rewrite E0 in E'.
  apply app_inv_head in E'.
  destruct (Nat.lt_trichotomy (length mid) (length mid')) as [Lm|[Lm|Lm]].
  - left. exact Lm.
  - right. destruct (same_length_prefix _ _ _ _ E' Lm) as [Em Es].
    subst mid'. split; [reflexivity|]. rewrite <- Es, E1. reflexivity.
  - exfalso.
    destruct (prefix_split mid mid' _ _ E' ltac:(lia)) as (u & Eu & Eu').
    assert (Nu : u <> []) by (intros ->; rewrite app_nil_r in Eu; subst; lia).
    pose proof (MinM mid' u Eu Nu) as Nn. rewrite <- Eu' in Nn.
    pose proof (rmatch_complete r LS _ _ _ Nn w' post' c' eq_refl M') as A.
    discriminate.
Qed.

(** [search_lit_lazy], with what [r] matches at the place found. *)
Lemma search_lit_lazy_first l cs r t :
  look_simple r = true ->
  match search (lit l >> Star false (Cls cs) >> r) t with
  | Some m =>
      exists pre mid w post,
        t = pre ++ l ++ mid ++ w ++ post /\ forallb (cmatch cs) mid = true /\
        mtc r w post [] (m_caps m) /\
        (forall pre' mid' w' post' c',
           t = pre' ++ l ++ mid' ++ w' ++ post' ->
           forallb (cmatch cs) mid' = true -> mtc r w' post' [] c' ->
           length pre < length pre' \/
           (pre' = pre /\ length mid < length mid') \/
           (pre' = pre /\ mid' = mid /\ w' ++ post' = w ++ post))
  | None =>
      forall pre mid w post c',
        t = pre ++ l ++ mid ++ w ++ post ->
        forallb (cmatch cs) mid = true -> ~ mtc r w post [] c'
  end.
Proof.
  intros LS. pose proof (search_lit_lazy l cs r t LS) as H.
  destruct (search (lit l >> Star false (Cls cs) >> r) t) as [m|]; [|exact H].
  destruct H as (pre & mid & s1 & s' & Et & F & Rt & Min).
  apply rmatch_sound in Rt.
  destruct Rt as (w & s2 & c2 & E1 & M & K). inversion K; subst s2 c2.
  exists pre, mid, w, s'. split; [rewrite Et, E1; reflexivity|].
  split; [exact F|]. split; [exact M|].
  intros pre' mid' w' post' c' E' F' M'.
  destruct (Min pre' mid' w' post' c' E' F' M') as [L|[L|(Ep & Em & Es)]];
    auto.
  right. right. rewrite Es, E1. auto.
Qed.

Lemma mtc_grp1_amount_unique w w' post post' c c' :
  mtc (Grp 1 amount) w post [] c -> mtc (Grp 1 amount) w' post' [] c' ->
  w ++ post = w' ++ post' -> w = w' /\ post = post'.
Proof.
  intros M M' E. apply mtc_grp_amount in M. apply mtc_grp_amount in M'.
  destruct M as [Sh _], M' as [Sh' _]. exact (amount_unique _ _ _ _ Sh Sh' E).
Qed.

(* ================================================================= *)
(** ** Further properties: the return of the ISA account *)

(** "Total", later "Change", later the amount [g]: what [change_re]
    matches at the place [pre] of [t]. *)
Definition total_change_at (t pre m1 m2 g post : text) : Prop :=
  t = pre ++ str "Total" ++ m1 ++ str "Change" ++ m2 ++ g ++ post /\
  amount_shape g.

Definition change_gbp : text := str "Change (" ++ [pound] ++ str ")".

(** "Change (£)", later the amount [g]: what [change_gbp_re] matches. *)
Definition change_gbp_at (t pre mid g post : text) : Prop :=
  t = pre ++ change_gbp ++ mid ++ g ++ post /\ amount_shape g.

Lemma search_change t :
  match search AJBell.change_re t with
  | Some m =>
      exists pre m1 m2 g post,
        total_change_at t pre m1 m2 g post /\ group 1 m = Some g /\
        forall pre' m1' m2' g' post',
          total_change_at t pre' m1' m2' g' post' ->
          length pre < length pre' \/
          (pre' = pre /\ length m1 < length m1') \/
          (pre' = pre /\ m1' = m1 /\ length m2 < length m2') \/
          (pre' = pre /\ m1' = m1 /\ m2' = m2 /\ g' = g /\ post' = post)
  | None => forall pre m1 m2 g post, ~ total_change_at t pre m1 m2 g post
  end.
Proof.
  pose proof (search_lit_lazy (str "Total") CAll
    (lit (str "Change") >> Star false (Cls CAll) >> Grp 1 amount) t eq_refl)
    as H.
  change (lit (str "Total") >> Star false (Cls CAll)
          >> lit (str "Change") >> Star false (Cls CAll) >> Grp 1 amount)
    with AJBell.change_re in H.
  assert (Mk : forall m2 g post c,
    amount_shape g ->
    mtc (lit (str "Change") >> Star false (Cls CAll) >> Grp 1 amount)
      (str "Change" ++ m2 ++ g) post c ((1, g) :: c)).
  { intros m2 g post c Sh.
    eapply MSeq; [apply lit_mtc|].
    eapply MSeq; [apply star_cls_mtc, forallb_all|].
    apply grp_amount_mtc. exact Sh. }
  destruct (search AJBell.change_re t) as [m|].
  - destruct H as (pre & m1 & s1 & s' & Et & _ & Rt & Min).
    apply rmatch_lit_lazy_first in Rt; [|reflexivity].
    destruct Rt as (m2 & g & E1 & _ & Mg & Min2).
    apply mtc_grp_amount in Mg. destruct Mg as [Sh Ec].
    exists pre, m1, m2, g, s'. split; [|split].
    + split; [rewrite Et, E1; reflexivity | exact Sh].
    + unfold group. rewrite Ec. reflexivity.
    + intros pre' m1' m2' g' post' [E' Sh'].
      assert (E'' : t = pre' ++ str "Total" ++ m1'
                      ++ (str "Change" ++ m2' ++ g') ++ post')
        by (rewrite E', <- !app_assoc; reflexivity).
      destruct (Min pre' m1' _ post' _ E'' (forallb_all m1')
                  (Mk m2' g' post' [] Sh')) as [L|[L|(Ep & Em & Es)]]; auto.
      right. right. subst pre' m1'.
      rewrite <- !app_assoc in Es.
      destruct (Min2 m2' g' post' [(1, g')] (eq_sym Es) (forallb_all m2')
                  (grp_amount_mtc 1 g' post' [] Sh')) as [L|[Em2 Eg]].
      * left. auto.
      * right. subst m2'.
        destruct (amount_unique _ _ _ _ Sh' Sh Eg) as [-> ->]. auto.
  - intros pre m1 m2 g post [E Sh].
    assert (E' : t = pre ++ str "Total" ++ m1
                   ++ (str "Change" ++ m2 ++ g) ++ post)
      by (rewrite E, <- !app_assoc; reflexivity).
    exact (H pre m1 _ post _ E' (forallb_all m1) (Mk m2 g post [] Sh)).
Qed.

Lemma search_change_gbp t :
  match search AJBell.change_gbp_re t with
  | Some m =>
      exists pre mid g post,
        change_gbp_at t pre mid g post /\ group 1 m = Some g /\
        forall pre' mid' g' post',
          change_gbp_at t pre' mid' g' post' ->
          length pre < length pre' \/
          (pre' = pre /\ length mid < length mid') \/
          (pre' = pre /\ mid' = mid /\ g' = g /\ post' = post)
  | None => forall pre mid g post, ~ change_gbp_at t pre mid g post
  end.
Proof.
  pose proof (search_lit_lazy_first change_gbp CAll (Grp 1 amount) t eq_refl)
    as H.
  change (lit change_gbp >> Star false (Cls CAll) >> Grp 1 amount)
    with AJBell.change_gbp_re in H.
  destruct (search AJBell.change_gbp_re t) as [m|].
  - destruct H as (pre & mid & g & post & Et & _ & Mg & Min).
    apply mtc_grp_amount in Mg. destruct Mg as [Sh Ec].
    exists pre, mid, g, post. split; [split; assumption|]. split.
    + unfold group. rewrite Ec. reflexivity.
    + intros pre' mid' g' post' [E' Sh'].
      destruct (Min pre' mid' g' post' _ E' (forallb_all mid')
                  (grp_amount_mtc 1 g' post' [] Sh'))
        as [L|[L|(Ep & Em & Es)]]; auto.
      right. right. subst pre' mid'.
      destruct (amount_unique _ _ _ _ Sh' Sh Es) as [-> ->]. auto.
  - intros pre mid g post [E Sh].
    exact (H pre mid g post _ E (forallb_all mid)
             (grp_amount_mtc 1 g post [] Sh)).
Qed.

Lemma aj_fields_return t isa_text f :
  aj_fields t isa_text = Ok f -> aj_return t = Ok (f_return f).
Proof.
  unfold aj_fields.
  destruct (aj_value t isa_text) as [v|]; [|discriminate].
  destruct (aj_contributions t) as [c|]; [|discriminate].
  destruct (aj_performance t isa_text) as [p|]; [|discriminate].
  destruct (aj_return t) as [r|]; [|discriminate].
  intros E; inversion E; reflexivity.
Qed.

(** An AJ Bell report with a holdings table: a Total row under a heading
    with a "Change" column. *)
Definition sample_aj_change : text :=
  str "AJ Bell Youinvest" ++ nl ++
  str "ISA - Performance summary" ++ nl ++
  str "Change (" ++ [pound] ++ str ") 75.00" ++ nl ++
  str "ISA - Holdings" ++ nl ++
  str "Fund  Total cost  Value  Change" ++ nl ++
  str "Total - 1,234.56 - 2,345.67  1,111.11" ++ nl.

Definition sample_aj_change_record : dict :=
  Eval vm_compute in record_of (extract_aj_bell sample_aj_change).

(** The return of the ISA account comes from the whole text.  It is the
    first amount after the first "Change" that has an amount after it, after
    the leftmost "Total" that has such a "Change" after it, lines apart or
    not.  Without such a "Total" it is the first amount after the leftmost
    "Change (£)" that has one after it, and without that it is 0. *)
Theorem isa_return (t : text) (d : dict) :
  substring (str "ISA - Performance summary") t ->
  extract_aj_bell t = Ok d ->
  exists acc r,
    accounts_of d = [acc] /\ item "return" acc = Ok (VNum r) /\
    ((exists pre m1 m2 g post,
        total_change_at t pre m1 m2 g post /\
        float (remove_commas g) = Ok r /\
        forall pre' m1' m2' g' post',
          total_change_at t pre' m1' m2' g' post' ->
          length pre < length pre' \/
          (pre' = pre /\ length m1 < length m1') \/
          (pre' = pre /\ m1' = m1 /\ length m2 < length m2') \/
          (pre' = pre /\ m1' = m1 /\ m2' = m2 /\ g' = g /\ post' = post))
     \/
     ((forall pre m1 m2 g post, ~ total_change_at t pre m1 m2 g post) /\
      exists pre mid g post,
        change_gbp_at t pre mid g post /\
        float (remove_commas g) = Ok r /\
        forall pre' mid' g' post',
          change_gbp_at t pre' mid' g' post' ->
          length pre < length pre' \/
          (pre' = pre /\ length mid < length mid') \/
          (pre' = pre /\ mid' = mid /\ g' = g /\ post' = post))
     \/
     ((forall pre m1 m2 g post, ~ total_change_at t pre m1 m2 g post) /\
      (forall pre mid g post, ~ change_gbp_at t pre mid g post) /\
      r = zero)).
Proof.
  intros Hh E. rewrite extract_aj_bell_eq in E.
  destruct (isa_section_found t Hh) as [isa I]. rewrite I in E.
  destruct (aj_fields t (m_text isa)) as [f|] eqn:F; [|discriminate].
  inversion E; subst d; clear E.
  exists (aj_account (aj_account_number t) f), (f_return f).
  split; [reflexivity|]. split; [reflexivity|].
  apply aj_fields_return in F. unfold aj_return, search_or in F.
  pose proof (search_change t) as S1.
  pose proof (search_change_gbp t) as S2.
  destruct (search AJBell.change_re t) as [m|].
  - left. destruct S1 as (pre & m1 & m2 & g & post & C & G & Min).
    exists pre, m1, m2, g, post. split; [exact C|]. split; [|exact Min].
    simpl in F. unfold amount_of, group_str in F. rewrite G in F. exact F.
  - right. destruct (search AJBell.change_gbp_re t) as [m|].
    + left. split; [exact S1|].
      destruct S2 as (pre & mid & g & post & C & G & Min).
      exists pre, mid, g, post. split; [exact C|]. split; [|exact Min].
      simpl in F. unfold amount_of, group_str in F. rewrite G in F. exact F.
    + right. simpl in F. inversion F. auto.
Qed.

Lemma isa_return_witness :
  substring (str "ISA - Performance summary") sample_aj_change /\
  extract_aj_bell sample_aj_change = Ok sample_aj_change_record /\
  (exists acc r,
     accounts_of sample_aj_change_record = [acc] /\
     item "return" acc = Ok (VNum r) /\ r = nearest 1234.56) /\
  exists acc r,
    accounts_of sample_aj_change_record = [acc] /\
    item "return" acc = Ok (VNum r).
Proof.
  assert (Hh : substring (str "ISA - Performance summary") sample_aj_change)
    by (apply contains_iff; vm_compute; reflexivity).
  assert (H : extract_aj_bell sample_aj_change = Ok sample_aj_change_record)
    by (vm_compute; reflexivity).
  split; [exact Hh|]. split; [exact H|]. split.
  - eexists. eexists. split; [reflexivity|]. split; reflexivity.
  - destruct (isa_return _ _ Hh H) as (acc & r & A & R & _).
    exists acc, r. auto.
Defined.

(* ================================================================= *)
(** ** Further properties: the performance and the fallback value of the
       ISA account *)

Lemma mtc_ch x w rest c c' : mtc (ch x) w rest c c' -> w = [x] /\ c' = c.
Proof.
  intros M. inversion M; subst. cbn [cmatch] in *.
  match goal with H : Ascii.eqb _ _ = true |- _ =>
    apply Ascii.eqb_eq in H; subst end.
  auto.
Qed.

Lemma mtc_grp_percent n w rest c c' :
  mtc (Grp n percent_number) w rest c c' ->
  percent_shape w /\ c' = (n, w) :: c.
Proof.
  intros M. inversion M; subst.
  match goal with H : mtc percent_number _ _ _ _ |- _ =>
    apply mtc_percent in H; destruct H as (Sh & ->) end.
  auto.
Qed.

Lemma percent_unique pn pn' x x' :
  percent_shape pn -> percent_shape pn' ->
  pn ++ ["%"%char] ++ x = pn' ++ ["%"%char] ++ x' -> pn = pn' /\ x = x'.
Proof.
  intros [_ F] [_ F'] E.
  apply (run_unique is_percent_char) in E; auto; try reflexivity.
  destruct E as [-> E]. inversion E. auto.
Qed.

(** Where [$] matches under MULTILINE: at the end of the text or before a
    newline. *)
Definition line_end (s : text) : Prop := s = [] \/ exists r, s = newline :: r.

Lemma at_eol_true s : at_eol true s = true <-> line_end s.
Proof.
  unfold line_end. destruct s as [|c s]; simpl.
  - split; auto.
  - rewrite andb_true_r, Ascii.eqb_eq. split.
    + intros ->. eauto.
    + intros [H|[r H]]; [discriminate | inversion H; reflexivity].
Qed.

(** A number, "%" and blanks up to the end of a line, at the place [pre] of
    [s]: what [perf_re] matches. *)
Definition percent_at_line_end (s pre pn : text) : Prop :=
  exists ws post,
    s = pre ++ pn ++ ["%"%char] ++ ws ++ post /\
    percent_shape pn /\ forallb is_space ws = true /\ line_end post.

Lemma mtc_perf_re w rest c c' :
  mtc AJBell.perf_re w rest c c' <->
  exists pn ws,
    w = pn ++ ["%"%char] ++ ws /\ percent_shape pn /\
    forallb is_space ws = true /\ line_end rest /\ c' = (1, pn) :: c.
Proof.
  unfold AJBell.perf_re. split.
  - intros M. apply mtc_seq_inv in M.
    destruct M as (pn & w2 & c1 & -> & M1 & M).
    apply mtc_grp_percent in M1. destruct M1 as [Sh ->].
    apply mtc_seq_ch in M. destruct M as (w3 & -> & M).
    apply mtc_seq_star_cls in M. destruct M as (ws & w4 & -> & F & M).
    apply mtc_eol_inv in M. destruct M as (-> & -> & E).
    exists pn, ws. rewrite app_nil_r.
    split; [reflexivity|]. split; [exact Sh|]. split; [exact F|].
    split; [apply at_eol_true; exact E | reflexivity].
  - intros (pn & ws & -> & Sh & F & E & ->).
    eapply MSeq; [constructor; apply percent_mtc; exact Sh|].
    eapply MSeq; [apply ch_mtc|].
    rewrite <- (app_nil_r ws).
    eapply MSeq; [apply star_cls_mtc; exact F|].
    constructor. apply at_eol_true. exact E.
Qed.

Lemma search_perf s :
  match search AJBell.perf_re s with
  | Some m =>
      exists pre pn,
        percent_at_line_end s pre pn /\ group 1 m = Some pn /\
        forall pre' pn',
          percent_at_line_end s pre' pn' ->
          length pre < length pre' \/ (pre' = pre /\ pn' = pn)
  | None => forall pre pn, ~ percent_at_line_end s pre pn
  end.
Proof.
  destruct (search AJBell.perf_re s) as [m|] eqn:S.
  - apply search_sound in S.
    destruct S as (pre & w & post & Et & _ & _ & M & L).
    apply mtc_perf_re in M. destruct M as (pn & ws & -> & Sh & F & E & Ec).
    exists pre, pn. split; [|split].
    + exists ws, post. rewrite Et, <- !app_assoc. auto.
    + unfold group. rewrite Ec. reflexivity.
    + intros pre' pn' (ws' & post' & E' & Sh' & F' & Le').
      assert (Lp : length pre <= length pre').
      { apply (L eq_refl pre' (pn' ++ ["%"%char] ++ ws') post' [(1, pn')]).
        - rewrite E', <- !app_assoc. reflexivity.
        - apply mtc_perf_re. exists pn', ws'. auto. }
      destruct (Nat.eq_dec (length pre) (length pre')) as [Q|Q]; [|left; lia].
      right. rewrite Et, <- !app_assoc in E'.
      destruct (same_length_prefix _ _ _ _ E' Q) as [Ep Ex]. subst pre'.
      destruct (percent_unique _ _ _ _ Sh Sh' Ex) as [-> _]. auto.
  - intros pre pn (ws & post & E & Sh & F & Le).
    apply search_none_iff in S; [|reflexivity]. apply S.
    exists pre, (pn ++ ["%"%char] ++ ws), post, [(1, pn)].
    split; [rewrite E, <- !app_assoc; reflexivity|].
    apply mtc_perf_re. exists pn, ws. auto.
Qed.

(** "Time-weighted return", later the number [pn] and "%": what [twr_re]
    matches at the place [pre] of [t]. *)
Definition twr_at (t pre mid pn post : text) : Prop :=
  t = pre ++ str "Time-weighted return" ++ mid ++ pn ++ ["%"%char] ++ post /\
  percent_shape pn.

Lemma mtc_percent_sign w rest c c' :
  mtc (Grp 1 percent_number >> ch "%"%char) w rest c c' <->
  exists pn, w = pn ++ ["%"%char] /\ percent_shape pn /\ c' = (1, pn) :: c.
Proof.
  split.
  - intros M. apply mtc_seq_inv in M.
    destruct M as (pn & w2 & c1 & -> & M1 & M).
    apply mtc_grp_percent in M1. destruct M1 as [Sh ->].
    apply mtc_ch in M. destruct M as [-> ->]. eauto.
  - intros (pn & -> & Sh & ->).
    eapply MSeq; [constructor; apply percent_mtc; exact Sh | apply ch_mtc].
Qed.

Lemma search_twr t :
  match search AJBell.twr_re t with
  | Some m =>
      exists pre mid pn post,
        twr_at t pre mid pn post /\ group 1 m = Some pn /\
        forall pre' mid' pn' post',
          twr_at t pre' mid' pn' post' ->
          length pre < length pre' \/
          (pre' = pre /\ length mid < length mid') \/
          (pre' = pre /\ mid' = mid /\ pn' = pn /\ post' = post)
  | None => forall pre mid pn post, ~ twr_at t pre mid pn post
  end.
Proof.
  pose proof (search_lit_lazy_first (str "Time-weighted return") CAll
    (Grp 1 percent_number >> ch "%"%char) t eq_refl) as H.
  change (lit (str "Time-weighted return") >> Star false (Cls CAll)
          >> Grp 1 percent_number >> ch "%"%char)
    with AJBell.twr_re in H.
  destruct (search AJBell.twr_re t) as [m|].
  - destruct H as (pre & mid & w & post & Et & _ & Mg & Min).
    apply mtc_percent_sign in Mg. destruct Mg as (pn & -> & Sh & Ec).
    exists pre, mid, pn, post. split; [|split].
    + split; [rewrite Et, <- !app_assoc; reflexivity | exact Sh].
    + unfold group. rewrite Ec. reflexivity.
    + intros pre' mid' pn' post' [E' Sh'].
      assert (E'' : t = pre' ++ str "Time-weighted return" ++ mid'
                      ++ (pn' ++ ["%"%char]) ++ post')
        by (rewrite E', <- !app_assoc; reflexivity).
      assert (M' : mtc (Grp 1 percent_number >> ch "%"%char)
                     (pn' ++ ["%"%char]) post' [] [(1, pn')])
        by (apply mtc_percent_sign; eauto).
      destruct (Min pre' mid' _ post' _ E'' (forallb_all mid') M')
        as [L|[L|(Ep & Em & Es)]]; auto.
      right. right. subst pre' mid'. rewrite <- !app_assoc in Es.
      destruct (percent_unique _ _ _ _ Sh' Sh Es) as [-> ->]. auto.
  - intros pre mid pn post [E Sh].
    assert (E' : t = pre ++ str "Time-weighted return" ++ mid
                   ++ (pn ++ ["%"%char]) ++ post)
      by (rewrite E, <- !app_assoc; reflexivity).
    assert (M : mtc (Grp 1 percent_number >> ch "%"%char)
                  (pn ++ ["%"%char]) post [] [(1, pn)])
      by (apply mtc_percent_sign; eauto).
    exact (H pre mid _ post _ E' (forallb_all mid) M).
Qed.

Lemma aj_fields_performance t isa_text f :
  aj_fields t isa_text = Ok f ->
  aj_performance t isa_text = Ok (f_performance f).
Proof.
  unfold aj_fields.
  destruct (aj_value t isa_text) as [v|]; [|discriminate].
  destruct (aj_contributions t) as [c|]; [|discriminate].
  destruct (aj_performance t isa_text) as [p|]; [|discriminate].
  destruct (aj_return t) as [r|]; [|discriminate].
  intros E; inversion E; reflexivity.
Qed.

(** An AJ Bell report whose ISA summary has no percentage at the end of a
    line, and whose time-weighted return stands after the ISA section. *)
Definition sample_aj_twr : text :=
  str "AJ Bell Youinvest" ++ nl ++
  str "ISA - Performance summary" ++ nl ++
  str "Growth of 4.10% over the year" ++ nl ++
  str "ISA - Performance Analysis" ++ nl ++
  str "Time-weighted return" ++ nl ++ str "1 year: 6.75% (annualised)" ++ nl.

Definition sample_aj_twr_record : dict :=
  Eval vm_compute in record_of (extract_aj_bell sample_aj_twr).

(** The performance of the ISA account is the leftmost number that is
    followed by "%" and blanks up to the end of a line inside the ISA
    section.  Without one it is the first number followed by "%" after the
    leftmost "Time-weighted return" of the whole text that has one after it,
    and without that it is 0. *)
Theorem isa_performance (t : text) (d : dict) (isa : match_obj) :
  search AJBell.isa_section_re t = Some isa ->
  extract_aj_bell t = Ok d ->
  exists acc p,
    accounts_of d = [acc] /\ item "performance" acc = Ok (VNum p) /\
    ((exists pre pn,
        percent_at_line_end (m_text isa) pre pn /\ float pn = Ok p /\
        forall pre' pn',
          percent_at_line_end (m_text isa) pre' pn' ->
          length pre < length pre' \/ (pre' = pre /\ pn' = pn))
     \/
     ((forall pre pn, ~ percent_at_line_end (m_text isa) pre pn) /\
      exists pre mid pn post,
        twr_at t pre mid pn post /\ float pn = Ok p /\
        forall pre' mid' pn' post',
          twr_at t pre' mid' pn' post' ->
          length pre < length pre' \/
          (pre' = pre /\ length mid < length mid') \/
          (pre' = pre /\ mid' = mid /\ pn' = pn /\ post' = post))
     \/
     ((forall pre pn, ~ percent_at_line_end (m_text isa) pre pn) /\
      (forall pre mid pn post, ~ twr_at t pre mid pn post) /\
      p = zero)).
Proof.
  intros I E. rewrite extract_aj_bell_eq, I in E.
  destruct (aj_fields t (m_text isa)) as [f|] eqn:F; [|discriminate].
  inversion E; subst d; clear E.
  exists (aj_account (aj_account_number t) f), (f_performance f).
  split; [reflexivity|]. split; [reflexivity|].
  apply aj_fields_performance in F. unfold aj_performance, search_or in F.
  pose proof (search_perf (m_text isa)) as S1.
  pose proof (search_twr t) as S2.
  destruct (search AJBell.perf_re (m_text isa)) as [m|].
  - left. destruct S1 as (pre & pn & C & G & Min).
    exists pre, pn. split; [exact C|]. split; [|exact Min].
    simpl in F. unfold percent_of, group_str in F. rewrite G in F. exact F.
  - right. destruct (search AJBell.twr_re t) as [m|].
    + left. split; [exact S1|].
      destruct S2 as (pre & mid & pn & post & C & G & Min).
      exists pre, mid, pn, post. split; [exact C|]. split; [|exact Min].
      simpl in F. unfold percent_of, group_str in F. rewrite G in F. exact F.
    + right. simpl in F. inversion F. auto.
Qed.

Lemma isa_performance_witness :
  exists isa,
    search AJBell.isa_section_re sample_aj_twr = Some isa /\
    extract_aj_bell sample_aj_twr = Ok sample_aj_twr_record /\
    (exists acc p,
       accounts_of sample_aj_twr_record = [acc] /\
       item "performance" acc = Ok (VNum p) /\ p = nearest 6.75) /\
    exists acc p,
      accounts_of sample_aj_twr_record = [acc] /\
      item "performance" acc = Ok (VNum p).
Proof.
  destruct (search AJBell.isa_section_re sample_aj_twr) as [isa|] eqn:S;
    [|vm_compute in S; discriminate].
  assert (H : extract_aj_bell sample_aj_twr = Ok sample_aj_twr_record)
    by (vm_compute; reflexivity).
  exists isa. split; [reflexivity|]. split; [exact H|]. split.
  - eexists. eexists. split; [reflexivity|]. split; reflexivity.
  - destruct (isa_performance _ _ _ S H) as (acc & p & A & P & _).
    exists acc, p. auto.
Defined.

(** The pound sign, the amount [g], blanks, a number and "%", at the place
    [pre] of [s]: what [value_re] matches. *)
Definition value_line_at (s pre g : text) : Prop :=
  exists ws pn post,
    s = pre ++ [pound] ++ g ++ ws ++ pn ++ ["%"%char] ++ post /\
    amount_shape g /\ blanks ws /\ percent_shape pn.

Lemma mtc_value_re w rest c c' :
  mtc AJBell.value_re w rest c c' <->
  exists g ws pn,
    w = [pound] ++ g ++ ws ++ pn ++ ["%"%char] /\
    amount_shape g /\ blanks ws /\ percent_shape pn /\ c' = (1, g) :: c.
Proof.
  unfold AJBell.value_re, blanks. split.
  - intros M. apply mtc_seq_ch in M. destruct M as (w2 & -> & M).
    apply mtc_seq_inv in M. destruct M as (g & w3 & c1 & -> & M1 & M).
    apply mtc_grp_amount in M1. destruct M1 as [Sh ->].
    apply mtc_seq_plus_cls in M. destruct M as (ws & w4 & -> & N & F & M).
    apply mtc_seq_inv in M. destruct M as (pn & w5 & c2 & -> & M2 & M).
    apply mtc_percent in M2. destruct M2 as [Shp ->].
    apply mtc_ch in M. destruct M as [-> ->].
    exists g, ws, pn. auto 8.
  - intros (g & ws & pn & -> & Sh & [N F] & Shp & ->).
    eapply MSeq; [apply ch_mtc|].
    eapply MSeq; [apply grp_amount_mtc; exact Sh|].
    eapply MSeq; [apply plus_cls_mtc; assumption|].
    eapply MSeq; [apply percent_mtc; exact Shp | apply ch_mtc].
Qed.

Lemma search_value s :
  match search AJBell.value_re s with
  | Some m =>
      exists pre g,
        value_line_at s pre g /\ group 1 m = Some g /\
        forall pre' g',
          value_line_at s pre' g' ->
          length pre < length pre' \/ (pre' = pre /\ g' = g)
  | None => forall pre g, ~ value_line_at s pre g
  end.
Proof.
  destruct (search AJBell.value_re s) as [m|] eqn:S.
  - apply search_sound in S.
    destruct S as (pre & w & post & Et & _ & _ & M & L).
    apply mtc_value_re in M.
    destruct M as (g & ws & pn & -> & Sh & B & Shp & Ec).
    exists pre, g. split; [|split].
    + exists ws, pn, post. rewrite Et, <- !app_assoc. auto.
    + unfold group. rewrite Ec. reflexivity.
    + intros pre' g' (ws' & pn' & post' & E' & Sh' & B' & Shp').
      assert (Lp : length pre <= length pre').
      { apply (L eq_refl pre' ([pound] ++ g' ++ ws' ++ pn' ++ ["%"%char])
                 post' [(1, g')]).
        - rewrite E', <- !app_assoc. reflexivity.
        - apply mtc_value_re. exists g', ws', pn'. auto. }
      destruct (Nat.eq_dec (length pre) (length pre')) as [Q|Q]; [|left; lia].
      right. rewrite Et, <- !app_assoc in E'.
      destruct (same_length_prefix _ _ _ _ E' Q) as [Ep Ex]. subst pre'.
      apply app_inv_head in Ex.
      destruct (amount_unique _ _ _ _ Sh Sh' Ex) as [-> _]. auto.
  - intros pre g (ws & pn & post & E & Sh & B & Shp).
    apply search_none_iff in S; [|reflexivity]. apply S.
    exists pre, ([pound] ++ g ++ ws ++ pn ++ ["%"%char]), post, [(1, g)].
    split; [rewrite E, <- !app_assoc; reflexivity|].
    apply mtc_value_re. exists g, ws, pn. auto.
Qed.

(** An AJ Bell report without a Total row; amounts with percentages stand
    before, inside and after the ISA section. *)
Definition sample_aj_summary : text :=
  str "AJ Bell Youinvest  SIPP " ++ [pound] ++ str "5,555.55 3.00%" ++ nl ++
  str "ISA - Performance summary" ++ nl ++
  str "Value " ++ [pound] ++ str "9,999.99  5.25%" ++ nl ++
  str "ISA - Holdings" ++ nl ++
  str "Fund A " ++ [pound] ++ str "7,777.77 1.00%" ++ nl.

Definition sample_aj_summary_record : dict :=
  Eval vm_compute in record_of (extract_aj_bell sample_aj_summary).

(** When the text has no Total row, the value of the ISA account is the
    leftmost amount of the ISA section that has the pound sign before it and
    blanks, a number and "%" after it; it is 0 when the section has none,
    whatever the rest of the text holds. *)
Theorem isa_value_fallback (t : text) (d : dict) (isa : match_obj) :
  search AJBell.isa_section_re t = Some isa ->
  (forall pre w post a1 a2, t = pre ++ w ++ post -> ~ total_row w a1 a2) ->
  extract_aj_bell t = Ok d ->
  exists acc v,
    accounts_of d = [acc] /\ item "value" acc = Ok (VNum v) /\
    ((exists pre g,
        value_line_at (m_text isa) pre g /\
        float (remove_commas g) = Ok v /\
        forall pre' g',
          value_line_at (m_text isa) pre' g' ->
          length pre < length pre' \/ (pre' = pre /\ g' = g))
     \/
     ((forall pre g, ~ value_line_at (m_text isa) pre g) /\ v = zero)).
Proof.
  intros I N E. rewrite extract_aj_bell_eq, I in E.
  destruct (aj_fields t (m_text isa)) as [f|] eqn:F; [|discriminate].
  inversion E; subst d; clear E.
  exists (aj_account (aj_account_number t) f), (f_value f).
  split; [reflexivity|]. split; [reflexivity|].
  apply aj_fields_value in F. unfold aj_value in F.
  destruct (search AJBell.holdings_re t) as [hm|] eqn:H.
  - exfalso. apply search_sound in H.
    destruct H as (pre & w & post & Et & _ & _ & M & _).
    apply mtc_holdings in M. destruct M as (a1 & a2 & R & _).
    exact (N pre w post a1 a2 Et R).
  - pose proof (search_value (m_text isa)) as S.
    destruct (search AJBell.value_re (m_text isa)) as [m|].
    + left. destruct S as (pre & g & C & G & Min).
      exists pre, g. split; [exact C|]. split; [|exact Min].
      simpl in F. unfold amount_of, group_str in F. rewrite G in F. exact F.
    + right. simpl in F. inversion F. auto.
Qed.

Lemma isa_value_fallback_witness :
  exists isa,
    search AJBell.isa_section_re sample_aj_summary = Some isa /\
    extract_aj_bell sample_aj_summary = Ok sample_aj_summary_record /\
    (exists acc v,
       accounts_of sample_aj_summary_record = [acc] /\
       item "value" acc = Ok (VNum v) /\ v = nearest 9999.99) /\
    exists acc v,
      accounts_of sample_aj_summary_record = [acc] /\
      item "value" acc = Ok (VNum v).
Proof.
  destruct (search AJBell.isa_section_re sample_aj_summary) as [isa|] eqn:S;
    [|vm_compute in S; discriminate].
  assert (H : extract_aj_bell sample_aj_summary = Ok sample_aj_summary_record)
    by (vm_compute; reflexivity).
  assert (N : forall pre w post a1 a2,
    sample_aj_summary = pre ++ w ++ post -> ~ total_row w a1 a2).
  { intros pre w post a1 a2 E R.
    assert (O : occurs AJBell.holdings_re sample_aj_summary).
    { exists pre, w, post, [(1, a2)]. split; [exact E|].
      apply mtc_holdings. eauto. }
    apply search_some_iff in O; [|reflexivity]. destruct O as [m Sm].
    vm_compute in Sm. discriminate. }
  exists isa. split; [reflexivity|]. split; [exact H|]. split.
  - eexists. eexists. split; [reflexivity|]. split; reflexivity.
  - destruct (isa_value_fallback _ _ _ S N H) as (acc & v & A & V & _).
    exists acc, v. auto.
Defined.

(* ================================================================= *)
(** ** Further properties: the account number of an AJ Bell report *)

Fixpoint take_while (P : ascii -> bool) (s : text) : text :=
  match s with
  | c :: s' => if P c then c :: take_while P s' else []
  | [] => []
  end.

Fixpoint drop_while (P : ascii -> bool) (s : text) : text :=
  match s with
  | c :: s' => if P c then drop_while P s' else s
  | [] => []
  end.

Lemma take_drop_while P s : take_while P s ++ drop_while P s = s.
Proof.
  induction s as [|c s IH]; simpl; [reflexivity|].
  destruct (P c); simpl; congruence.
Qed.

Lemma take_while_all P s : forallb P (take_while P s) = true.
Proof.
  induction s as [|c s IH]; simpl; [reflexivity|].
  destruct (P c) eqn:E; simpl; [rewrite E; exact IH | reflexivity].
Qed.

Lemma drop_while_stops P s : stops P (drop_while P s).
Proof.
  induction s as [|c s IH]; simpl; [exact I|].
  destruct (P c) eqn:E; [exact IH | exact E].
Qed.

Lemma drop_while_length P s : length (drop_while P s) <= length s.
Proof.
  induction s as [|c s IH]; simpl; [lia|]. destruct (P c); simpl; lia.
Qed.

(** A greedy repetition of a character set, with nothing after it that can
    fail, takes every character of the set that is there. *)
Lemma star_loop_greedy_cls cs k n : forall s c,
  (forall s' c', k s' c' <> None) -> length s <= n ->
  star_loop (rmatch (Cls cs)) true k n s c = k (drop_while (cmatch cs) s) c.
Proof.
  induction n as [|n IH]; intros s c T L.
  - destruct s; [reflexivity | simpl in L; lia].
  - destruct s as [|x s]; simpl.
    + destruct (k [] c) eqn:K; [reflexivity|]. exfalso. exact (T _ _ K).
    + destruct (cmatch cs x) eqn:C.
      * assert (Lt : (length s <? S (length s)) = true)
          by (apply Nat.ltb_lt; lia).
        rewrite Lt. rewrite IH by (auto; simpl in L; lia).
        destruct (k (drop_while (cmatch cs) s) c) eqn:K; [reflexivity|].
        exfalso. exact (T _ _ K).
      * reflexivity.
Qed.

Lemma rmatch_plus_greedy_cls cs s c k :
  (forall s' c', k s' c' <> None) ->
  rmatch (Plus true (Cls cs)) s c k =
  match s with
  | x :: s2 =>
      if cmatch cs x then k (drop_while (cmatch cs) s2) c else None
  | [] => None
  end.
Proof.
  intros T. unfold Plus. cbn [rmatch].
  destruct s as [|x s2]; [reflexivity|].
  destruct (cmatch cs x); [|reflexivity].
  apply star_loop_greedy_cls; auto.
Qed.

(** The account number of an AJ Bell account is "SCC" with all the digits
    that follow it, at the leftmost "SCC" that a digit follows; it is null
    when no "SCC" has a digit after it. *)
Theorem aj_bell_account_number (t : text) (d : dict) (acc : value) :
  extract_aj_bell t = Ok d ->
  In acc (accounts_of d) ->
  (exists pre ds post,
     t = pre ++ str "SCC" ++ ds ++ post /\
     ds <> [] /\ forallb is_digit ds = true /\ stops is_digit post /\
     item "account_number" acc = Ok (VStr (str "SCC" ++ ds)) /\
     forall pre' dg post',
       t = pre' ++ str "SCC" ++ [dg] ++ post' -> is_digit dg = true ->
       length pre <= length pre')
  \/
  (item "account_number" acc = Ok VNone /\
   forall pre dg post,
     t = pre ++ str "SCC" ++ [dg] ++ post -> is_digit dg = false).
Proof.
  intros E A. rewrite extract_aj_bell_eq in E.
  assert (Ea : item "account_number" acc = Ok (aj_account_number t)).
  { destruct (search AJBell.isa_section_re t) as [isa|].
    - destruct (aj_fields t (m_text isa)) as [f|]; [|discriminate].
      inversion E; subst d. destruct A as [<-|[]]. reflexivity.
    - inversion E; subst d. destruct A. }
  rewrite Ea. clear E A Ea d acc.
  assert (Mk : forall dg post c,
    is_digit dg = true ->
    mtc AJBell.acc_re (str "SCC" ++ [dg]) post c
      ((1, str "SCC" ++ [dg]) :: c)).
  { intros dg post c D. constructor.
    eapply MSeq; [apply lit_mtc|].
    apply plus_cls_mtc; [discriminate|]. simpl. rewrite D. reflexivity. }
  unfold aj_account_number.
  destruct (search AJBell.acc_re t) as [m|] eqn:S.
  - left. apply search_at_first in S.
    destruct S as (pre & s0 & s' & Et & _ & R & _ & MinP).
    pose proof R as R'. unfold AJBell.acc_re in R'. cbn [rmatch] in R'.
    apply rmatch_lit_some in R'. destruct R' as (s1 & E0 & R1).
    unfold digit in R1.
    rewrite rmatch_plus_greedy_cls in R1 by (intros; discriminate).
    destruct s1 as [|x s2]; [discriminate|]. cbn [cmatch] in R1.
    destruct (is_digit x) eqn:Dx; [|discriminate].
    unfold accept in R1. inversion R1 as [[Es Ec]]. clear R1.
    exists pre, (x :: take_while is_digit s2), (drop_while is_digit s2).
    assert (Es0 : s0 = (str "SCC" ++ x :: take_while is_digit s2)
                       ++ drop_while is_digit s2).
    { rewrite E0, <- app_assoc. simpl.
      change (cmatch CDigit) with is_digit.
      rewrite (take_drop_while is_digit s2). reflexivity. }
    split; [rewrite Et, Es0, <- !app_assoc; reflexivity|].
    split; [discriminate|].
    split; [simpl; rewrite Dx; apply take_while_all|].
    split; [apply drop_while_stops|]. split.
    + unfold group. rewrite <- Ec. simpl.
      change (cmatch CDigit) with is_digit.
      rewrite Es0 at 1 2.
      rewrite firstn_app_len. reflexivity.
    + intros pre' dg post' E' D.
      destruct (Nat.le_gt_cases (length pre) (length pre')) as [L|L];
        [exact L|].
      exfalso. rewrite Et in E'.
      destruct (prefix_split pre pre' _ _ E' ltac:(lia)) as (u & Eu & Ex).
      assert (Nu : u <> [])
        by (intros ->; rewrite app_nil_r in Eu; subst; lia).
      pose proof (MinP pre' u Eu Nu) as Nn. rewrite <- Ex in Nn.
      pose proof (rmatch_complete AJBell.acc_re eq_refl _ _ _ Nn
                    (str "SCC" ++ [dg]) post' [(1, str "SCC" ++ [dg])]) as B.
      rewrite <- !app_assoc in B. specialize (B eq_refl (Mk dg post' [] D)).
      discriminate.
  - right. split; [reflexivity|].
    intros pre dg post E. destruct (is_digit dg) eqn:D; [|reflexivity].
    exfalso. apply search_none_iff in S; [|reflexivity]. apply S.
    exists pre, (str "SCC" ++ [dg]), post, [(1, str "SCC" ++ [dg])].
    split; [rewrite E, <- !app_assoc; reflexivity | apply Mk; exact D].
Qed.

Lemma aj_bell_account_number_witness :
  extract_aj_bell sample_aj = Ok sample_aj_record /\
  exists acc,
    In acc (accounts_of sample_aj_record) /\
    item "account_number" acc = Ok (VStr (str "SCC12345")) /\
    ((exists pre ds post,
        sample_aj = pre ++ str "SCC" ++ ds ++ post /\
        ds <> [] /\ forallb is_digit ds = true /\ stops is_digit post /\
        item "account_number" acc = Ok (VStr (str "SCC" ++ ds)) /\
        forall pre' dg post',
          sample_aj = pre' ++ str "SCC" ++ [dg] ++ post' ->
          is_digit dg = true -> length pre <= length pre')
     \/
     (item "account_number" acc = Ok VNone /\
      forall pre dg post,
        sample_aj = pre ++ str "SCC" ++ [dg] ++ post -> is_digit dg = false)).
Proof.
  assert (H : extract_aj_bell sample_aj = Ok sample_aj_record)
    by (vm_compute; reflexivity).
  split; [exact H|].
  eexists. split; [left; reflexivity|]. split; [reflexivity|].
  exact (aj_bell_account_number _ _ _ H (or_introl eq_refl)).
Defined.

(* ================================================================= *)
(** ** Further properties: the numbers of a Morningstar account *)

Lemma percent_char_not_space c :
  is_percent_char c = true -> is_space c = false.
Proof.
  destruct c as [[|] [|] [|] [|] [|] [|] [|] [|]]; vm_compute; congruence.
Qed.

(** [label], blanks if any, the pound sign and the amount [g], at the place
    [pre] of [s]: what [labelled_amount_re label] matches. *)
Definition labelled_at (label s pre g : text) : Prop :=
  exists ws post,
    s = pre ++ label ++ ws ++ [pound] ++ g ++ post /\
    forallb is_space ws = true /\ amount_shape g.

Lemma mtc_labelled label w rest c c' :
  mtc (Morningstar.labelled_amount_re label) w rest c c' <->
  exists ws g,
    w = label ++ ws ++ [pound] ++ g /\
    forallb is_space ws = true /\ amount_shape g /\ c' = (1, g) :: c.
Proof.
  unfold Morningstar.labelled_amount_re. split.
  - intros M. apply mtc_seq_lit in M. destruct M as (w1 & -> & M).
    apply mtc_seq_star_cls in M. destruct M as (ws & w2 & -> & F & M).
    apply mtc_pound_amount in M. destruct M as (g & -> & Sh & ->).
    exists ws, g. auto.
  - intros (ws & g & -> & F & Sh & ->).
    eapply MSeq; [apply lit_mtc|].
    eapply MSeq; [apply star_cls_mtc; exact F|].
    apply mtc_pound_amount. exists g. auto.
Qed.

Lemma labelled_look_simple label :
  look_simple (Morningstar.labelled_amount_re label) = true.
Proof.
  unfold Morningstar.labelled_amount_re. simpl.
  rewrite look_simple_lit. reflexivity.
Qed.

Lemma search_labelled label s :
  match search (Morningstar.labelled_amount_re label) s with
  | Some m =>
      exists pre g,
        labelled_at label s pre g /\ group 1 m = Some g /\
        forall pre' g',
          labelled_at label s pre' g' ->
          length pre < length pre' \/ (pre' = pre /\ g' = g)
  | None => forall pre g, ~ labelled_at label s pre g
  end.
Proof.
  destruct (search (Morningstar.labelled_amount_re label) s) as [m|] eqn:S.
  - apply search_sound in S.
    destruct S as (pre & w & post & Et & _ & _ & M & L).
    apply mtc_labelled in M. destruct M as (ws & g & -> & F & Sh & Ec).
    exists pre, g. split; [|split].
    + exists ws, post. rewrite Et, <- !app_assoc. auto.
    + unfold group. rewrite Ec. reflexivity.
    + intros pre' g' (ws' & post' & E' & F' & Sh').
      assert (Lp : length pre <= length pre').
      { apply (L (labelled_look_simple label) pre'
                 (label ++ ws' ++ [pound] ++ g') post' [(1, g')]).
        - rewrite E', <- !app_assoc. reflexivity.
        - apply mtc_labelled. exists ws', g'. auto. }
      destruct (Nat.eq_dec (length pre) (length pre')) as [Q|Q]; [|left; lia].
      right. rewrite Et, <- !app_assoc in E'.
      destruct (same_length_prefix _ _ _ _ E' Q) as [Ep Ex]. subst pre'.
      apply app_inv_head in Ex.
      apply (run_unique is_space) in Ex; auto; try reflexivity.
      destruct Ex as [_ Ex]. inversion Ex as [Eg].
      destruct (amount_unique _ _ _ _ Sh Sh' Eg) as [-> _]. auto.
  - intros pre g (ws & post & E & F & Sh).
    apply search_none_iff in S; [|apply labelled_look_simple]. apply S.
    exists pre, (label ++ ws ++ [pound] ++ g), post, [(1, g)].
    split; [rewrite E, <- !app_assoc; reflexivity|].
    apply mtc_labelled. exists ws, g. auto.
Qed.

(** "Portfolio % Returns", blanks if any, the number [pn] and "%", at the
    place [pre] of [s]: what the Morningstar [perf_re] matches. *)
Definition returns_at (s pre pn : text) : Prop :=
  exists ws post,
    s = pre ++ str "Portfolio % Returns" ++ ws ++ pn ++ ["%"%char] ++ post /\
    forallb is_space ws = true /\ percent_shape pn.

Lemma mtc_ms_perf w rest c c' :
  mtc Morningstar.perf_re w rest c c' <->
  exists ws pn,
    w = str "Portfolio % Returns" ++ ws ++ pn ++ ["%"%char] /\
    forallb is_space ws = true /\ percent_shape pn /\ c' = (1, pn) :: c.
Proof.
  unfold Morningstar.perf_re. split.
  - intros M. apply mtc_seq_lit in M. destruct M as (w1 & -> & M).
    apply mtc_seq_star_cls in M. destruct M as (ws & w2 & -> & F & M).
    apply mtc_percent_sign in M. destruct M as (pn & -> & Sh & ->).
    exists ws, pn. auto.
  - intros (ws & pn & -> & F & Sh & ->).
    eapply MSeq; [apply lit_mtc|].
    eapply MSeq; [apply star_cls_mtc; exact F|].
    apply mtc_percent_sign. exists pn. auto.
Qed.

Lemma search_ms_perf s :
  match search Morningstar.perf_re s with
  | Some m =>
      exists pre pn,
        returns_at s pre pn /\ group 1 m = Some pn /\
        forall pre' pn',
          returns_at s pre' pn' ->
          length pre < length pre' \/ (pre' = pre /\ pn' = pn)
  | None => forall pre pn, ~ returns_at s pre pn
  end.
Proof.
  destruct (search Morningstar.perf_re s) as [m|] eqn:S.
  - apply search_sound in S.
    destruct S as (pre & w & post & Et & _ & _ & M & L).
    apply mtc_ms_perf in M. destruct M as (ws & pn & -> & F & Sh & Ec).
    exists pre, pn. split; [|split].
    + exists ws, post. rewrite Et, <- !app_assoc. auto.
    + unfold group. rewrite Ec. reflexivity.
    + intros pre' pn' (ws' & post' & E' & F' & Sh').
      assert (Lp : length pre <= length pre').
      { apply (L eq_refl pre'
                 (str "Portfolio % Returns" ++ ws' ++ pn' ++ ["%"%char])
                 post' [(1, pn')]).
        - rewrite E', <- !app_assoc. reflexivity.
        - apply mtc_ms_perf. exists ws', pn'. auto. }
      destruct (Nat.eq_dec (length pre) (length pre')) as [Q|Q]; [|left; lia].
      right. rewrite Et, <- !app_assoc in E'.
      destruct (same_length_prefix _ _ _ _ E' Q) as [Ep Ex]. subst pre'.
      apply app_inv_head in Ex.
      assert (St : forall p x, percent_shape p ->
                     stops is_space (p ++ x)).
      { intros p x [Np Fp]. destruct p as [|c0 p]; [congruence|]. simpl in *.
        apply andb_true_iff in Fp. destruct Fp as [C0 _].
        apply percent_char_not_space. exact C0. }
      apply (run_unique is_space) in Ex; auto.
      destruct Ex as [_ Ex].
      destruct (percent_unique _ _ _ _ Sh Sh' Ex) as [-> _]. auto.
  - intros pre pn (ws & post & E & F & Sh).
    apply search_none_iff in S; [|reflexivity]. apply S.
    exists pre, (str "Portfolio % Returns" ++ ws ++ pn ++ ["%"%char]), post,
      [(1, pn)].
    split; [rewrite E, <- !app_assoc; reflexivity|].
    apply mtc_ms_perf. exists ws, pn. auto.
Qed.

(** The amount a label gives in [s]: the leftmost one, or 0 without one. *)
Definition labelled_amount_is (label s : text) (q : float64) : Prop :=
  (exists pre g,
     labelled_at label s pre g /\ float (remove_commas g) = Ok q /\
     forall pre' g',
       labelled_at label s pre' g' ->
       length pre < length pre' \/ (pre' = pre /\ g' = g))
  \/
  ((forall pre g, ~ labelled_at label s pre g) /\ q = zero).

Lemma amount_or_zero_labelled label s q :
  amount_or_zero (search (Morningstar.labelled_amount_re label) s) = Ok q ->
  labelled_amount_is label s q.
Proof.
  intros F. pose proof (search_labelled label s) as S.
  destruct (search (Morningstar.labelled_amount_re label) s) as [m|].
  - left. destruct S as (pre & g & C & G & Min).
    exists pre, g. split; [exact C|]. split; [|exact Min].
    simpl in F. unfold amount_of, group_str in F. rewrite G in F. exact F.
  - right. simpl in F. inversion F. auto.
Qed.

Lemma ms_account_of_kind kind t d acc :
  kind = str "ISA" \/ kind = str "SIPP" ->
  extract_morningstar t = Ok d ->
  In acc (accounts_of d) -> item "type" acc = Ok (VStr kind) ->
  exists f, ms_fields kind t = Ok (Some f) /\ acc = ms_account kind f.
Proof.
  intros K E A T. rewrite extract_morningstar_eq in E.
  destruct (ms_fields (str "ISA") t) as [isa|] eqn:I; [|discriminate].
  destruct (ms_fields (str "SIPP") t) as [sipp|] eqn:S; [|discriminate].
  inversion E; subst d; clear E.
  change (accounts_of _) with
    (map (ms_account (str "ISA")) (opt_list isa)
     ++ map (ms_account (str "SIPP")) (opt_list sipp)) in A.
  apply in_app_or in A. destruct A as [A|A];
    apply in_map_iff in A; destruct A as (f & <- & Fi).
  - destruct isa as [fi|]; [|destruct Fi]. destruct Fi as [<-|[]].
    destruct K as [-> | ->]; [eauto | discriminate T].
  - destruct sipp as [fs|]; [|destruct Fi]. destruct Fi as [<-|[]].
    destruct K as [-> | ->]; [discriminate T | eauto].
Qed.

(** The four numbers of a Morningstar account come from the section of its
    kind and from nowhere else: the value from the leftmost "Portfolio
    Valuation" amount of the section, the contributions from its leftmost
    "Total In/Out" amount, the return from its leftmost "Total Return"
    amount, the performance from its leftmost "Portfolio % Returns" number;
    each of the last three is 0 when the section has no such entry. *)
Theorem morningstar_account_numbers
    (kind t : text) (d : dict) (section : match_obj) (acc : value) :
  kind = str "ISA" \/ kind = str "SIPP" ->
  search (Morningstar.section_re kind) t = Some section ->
  extract_morningstar t = Ok d ->
  In acc (accounts_of d) -> item "type" acc = Ok (VStr kind) ->
  exists v c r p,
    num_field "value" acc = Ok v /\
    num_field "contributions" acc = Ok c /\
    num_field "return" acc = Ok r /\
    num_field "performance" acc = Ok p /\
    (exists pre g,
       labelled_at (str "Portfolio Valuation") (m_text section) pre g /\
       float (remove_commas g) = Ok v /\
       forall pre' g',
         labelled_at (str "Portfolio Valuation") (m_text section) pre' g' ->
         length pre < length pre' \/ (pre' = pre /\ g' = g)) /\
    labelled_amount_is (str "Total In/Out") (m_text section) c /\
    labelled_amount_is (str "Total Return") (m_text section) r /\
    ((exists pre pn,
        returns_at (m_text section) pre pn /\ float pn = Ok p /\
        forall pre' pn',
          returns_at (m_text section) pre' pn' ->
          length pre < length pre' \/ (pre' = pre /\ pn' = pn))
     \/
     ((forall pre pn, ~ returns_at (m_text section) pre pn) /\ p = zero)).
Proof.
  intros K S E A T.
  destruct (ms_account_of_kind kind t d acc K E A T) as (f & F & ->).
  unfold ms_fields in F. rewrite S in F.
  pose proof (search_labelled (str "Portfolio Valuation") (m_text section))
    as Sv.
  change (Morningstar.labelled_amount_re (str "Portfolio Valuation"))
    with Morningstar.val_re in Sv.
  destruct (search Morningstar.val_re (m_text section)) as [vm|];
    [|discriminate].
  destruct (amount_of vm) as [v|] eqn:V; [|discriminate].
  destruct (amount_or_zero (search Morningstar.contrib_re (m_text section)))
    as [c|] eqn:C; [|discriminate].
  destruct (amount_or_zero (search Morningstar.return_re (m_text section)))
    as [r|] eqn:R; [|discriminate].
  destruct (percent_or_zero (search Morningstar.perf_re (m_text section)))
    as [p|] eqn:P; [|discriminate].
  cbn [bind] in F. inversion F; subst f; clear F.
  exists v, c, r, p.
  split; [reflexivity|]. split; [reflexivity|].
  split; [reflexivity|]. split; [reflexivity|].
  split; [|split; [|split]].
  - destruct Sv as (pre & g & Cg & G & Min).
    exists pre, g. split; [exact Cg|]. split; [|exact Min].
    unfold amount_of, group_str in V. rewrite G in V. exact V.
  - exact (amount_or_zero_labelled (str "Total In/Out") _ c C).
  - exact (amount_or_zero_labelled (str "Total Return") _ r R).
  - pose proof (search_ms_perf (m_text section)) as Sp.
    destruct (search Morningstar.perf_re (m_text section)) as [m|].
    + left. destruct Sp as (pre & pn & Cp & G & Min).
      exists pre, pn. split; [exact Cp|]. split; [|exact Min].
      simpl in P. unfold percent_of, group_str in P. rewrite G in P. exact P.
    + right. simpl in P. inversion P. auto.
Qed.

(** A Morningstar report whose ISA section has every entry, and whose SIPP
    section has entries of its own. *)
Definition sample_ms_full : text :=
  str "Morningstar report" ++ nl ++
  str "Investment held: ISA" ++ nl ++
  str "Portfolio Valuation " ++ [pound] ++ str "10,000.00" ++ nl ++
  str "Total In/Out " ++ [pound] ++ str "8,000.00" ++ nl ++
  str "Total Return " ++ [pound] ++ str "2,000.00" ++ nl ++
  str "Portfolio % Returns 25.0%" ++ nl ++
  str "Investment held: SIPP" ++ nl ++
  str "Portfolio Valuation " ++ [pound] ++ str "5,000.00" ++ nl ++
  str "Total Return " ++ [pound] ++ str "300.00" ++ nl.

Definition sample_ms_full_record : dict :=
  Eval vm_compute in record_of (extract_morningstar sample_ms_full).

Lemma morningstar_account_numbers_witness :
  exists section acc,
    search (Morningstar.section_re (str "SIPP")) sample_ms_full
      = Some section /\
    extract_morningstar sample_ms_full = Ok sample_ms_full_record /\
    In acc (accounts_of sample_ms_full_record) /\
    item "type" acc = Ok (VStr (str "SIPP")) /\
    map (fun k => num_field k acc)
      [ "value"; "contributions"; "return"; "performance" ]%string
      = [ Ok (nearest 5000.00); Ok zero; Ok (nearest 300.00); Ok zero ] /\
    exists c, num_field "contributions" acc = Ok c /\
              labelled_amount_is (str "Total In/Out") (m_text section) c.
Proof.
  destruct (search (Morningstar.section_re (str "SIPP")) sample_ms_full)
    as [sec|] eqn:S; [|vm_compute in S; discriminate].
  assert (H : extract_morningstar sample_ms_full = Ok sample_ms_full_record)
    by (vm_compute; reflexivity).
  exists sec. eexists.
  split; [reflexivity|]. split; [exact H|].
  assert (A : In (nth 1 (accounts_of sample_ms_full_record) VNone)
                (accounts_of sample_ms_full_record))
    by (right; left; reflexivity).
  split; [exact A|]. split; [reflexivity|]. split; [reflexivity|].
  destruct (morningstar_account_numbers _ _ _ _ _ (or_intror eq_refl) S H A
              eq_refl) as (v & c & r & p & _ & Ec & _ & _ & _ & Lc & _).
  exists c. auto.
Defined.

(* ================================================================= *)
(** ** Further properties: the client name *)

(** A capital letter and one or more small letters: what [capword]
    matches. *)
Definition capword_shape (w : text) : Prop :=
  exists c r,
    w = c :: r /\ in_range "A"%char "Z"%char c = true /\
    r <> [] /\ forallb (in_range "a"%char "z"%char) r = true.

(** Words, each after blanks: what [(?:\s+[A-Z][a-z]+)*] matches. *)
Inductive words : text -> Prop :=
| words_nil : words []
| words_cons ws cw rest :
    blanks ws -> capword_shape cw -> words rest -> words (ws ++ cw ++ rest).

Definition more_word : regex := Plus true sp >> capword.

Lemma mtc_capword w rest c c' :
  mtc capword w rest c c' <-> capword_shape w /\ c' = c.
Proof.
  unfold capword, capword_shape. split.
  - intros M. apply mtc_seq_inv in M.
    destruct M as (w1 & w2 & c1 & -> & M1 & M2).
    inversion M1; subst. apply mtc_plus_cls in M2.
    destruct M2 as (N & F & ->). split; [|reflexivity].
    eexists _, _. split; [reflexivity|]. auto.
  - intros [(x & r & -> & C & N & F) ->].
    change (x :: r) with ([x] ++ r).
    eapply MSeq; [constructor; exact C | apply plus_cls_mtc; assumption].
Qed.

Lemma mtc_more_word w rest c c' :
  mtc more_word w rest c c' <->
  exists ws cw, w = ws ++ cw /\ blanks ws /\ capword_shape cw /\ c' = c.
Proof.
  unfold more_word, blanks. split.
  - intros M. apply mtc_seq_plus_cls in M.
    destruct M as (ws & cw & -> & N & F & M).
    apply mtc_capword in M. destruct M as [Sh ->]. eauto 8.
  - intros (ws & cw & -> & [N F] & Sh & ->).
    eapply MSeq; [apply plus_cls_mtc; assumption|].
    apply mtc_capword. auto.
Qed.

Lemma mtc_star_words g w rest c c' :
  mtc (Star g more_word) w rest c c' <-> words w /\ c' = c.
Proof.
  split.
  - remember (Star g more_word) as r eqn:Er. intros M. revert Er.
    induction M; intros Er; inversion Er; subst.
    + split; [constructor | reflexivity].
    + destruct (IHM2 eq_refl) as [W ->].
      apply mtc_more_word in M1. destruct M1 as (ws & cw & -> & B & Sh & ->).
      split; [|reflexivity]. rewrite <- app_assoc. constructor; assumption.
  - intros [W ->]. revert rest. induction W as [|ws cw r B Sh W IH]; intros rest.
    + constructor.
    + rewrite app_assoc. eapply MStarS.
      * destruct B as [N _]. destruct ws; [congruence | discriminate].
      * apply mtc_more_word. eauto 8.
      * apply IH.
Qed.

Lemma letter_not_space c :
  in_range "a"%char "z"%char c = true -> is_space c = false.
Proof.
  destruct c as [[|] [|] [|] [|] [|] [|] [|] [|]]; vm_compute; congruence.
Qed.

Lemma capword_last cw :
  capword_shape cw ->
  exists m c, cw = m ++ [c] /\ is_space c = false.
Proof.
  intros (x & r & -> & _ & N & F).
  destruct (exists_last N) as (m & c & ->).
  exists (x :: m), c. split; [reflexivity|].
  rewrite forallb_app in F. apply andb_true_iff in F. destruct F as [_ F].
  simpl in F. apply andb_true_iff in F. destruct F as [F _].
  apply letter_not_space. exact F.
Qed.

Lemma words_last n rest :
  (exists m c, n = m ++ [c] /\ is_space c = false) -> words rest ->
  exists m c, n ++ rest = m ++ [c] /\ is_space c = false.
Proof.
  intros H W. revert n H. induction W as [|ws cw r B Sh W IH]; intros n H.
  - rewrite app_nil_r. exact H.
  - rewrite !app_assoc. apply IH.
    destruct (capword_last cw Sh) as (m & c & -> & C).
    exists ((n ++ ws) ++ m), c. rewrite <- !app_assoc. auto.
Qed.

(** [strip] leaves a text alone that neither starts nor ends with a blank. *)
Lemma strip_id x s m c :
  is_space x = false -> is_space c = false -> x :: s = m ++ [c] ->
  strip (x :: s) = x :: s.
Proof.
  intros X C E. unfold strip. simpl. rewrite X.
  rewrite E at 1. rewrite rev_app_distr. simpl. rewrite C.
  change (c :: rev m) with (rev [c] ++ rev m).
  rewrite <- rev_app_distr, rev_involutive. symmetry. exact E.
Qed.

(** A title, blanks and two or more capitalised words: what the AJ Bell
    [client_re] matches. *)
Definition aj_named (w : text) : Prop :=
  exists title ws first ws2 second more,
    w = title ++ ws ++ first ++ ws2 ++ second ++ more /\
    (title = str "Mr" \/ title = str "Mrs" \/ title = str "Ms") /\
    blanks ws /\ capword_shape first /\
    blanks ws2 /\ capword_shape second /\ words more.

Lemma aj_client_mtc w rest c :
  aj_named w -> exists c', mtc AJBell.client_re w rest c c'.
Proof.
  intros (title & ws & first & ws2 & second & more & -> & T & [N F] & Shf
          & B2 & Sh2 & W).
  eexists. unfold AJBell.client_re.
  eapply MSeq.
  { constructor. destruct T as [-> | [-> | ->]].
    - apply MAltL. apply lit_mtc.
    - apply MAltR. apply MAltL. apply lit_mtc.
    - apply MAltR. apply MAltR. apply lit_mtc. }
  eapply MSeq; [apply plus_cls_mtc; assumption|].
  constructor.
  eapply MSeq; [apply mtc_capword; split; [exact Shf | reflexivity]|].
  change (Plus true (Plus true sp >> capword))
    with (more_word >> Star true more_word).
  rewrite app_assoc.
  eapply MSeq; [apply mtc_more_word; eauto 8|].
  apply mtc_star_words. auto.
Qed.

Lemma aj_named_strip w : aj_named w -> strip w = w.
Proof.
  intros (title & ws & first & ws2 & second & more & -> & T & B & Shf
          & B2 & Sh2 & W).
  assert (L : exists m c,
    title ++ ws ++ first ++ ws2 ++ second ++ more = m ++ [c] /\
    is_space c = false).
  { rewrite !app_assoc. apply words_last; [|exact W].
    destruct (capword_last second Sh2) as (m & c & -> & C).
    exists ((((title ++ ws) ++ first) ++ ws2) ++ m), c.
    rewrite <- !app_assoc. auto. }
  destruct L as (m & c & E & C).
  destruct T as [-> | [-> | ->]]; simpl in *;
    eapply strip_id; eauto.
Qed.

(** Greedy repetitions in front of something that cannot fail take all
    there is. *)
Lemma star_loop_total a k n : forall s c,
  (forall s' c', k s' c' <> None) ->
  star_loop (rmatch a) true k n s c <> None.
Proof.
  intros s c T. destruct n as [|n]; simpl; [apply T|].
  destruct (rmatch a s c _); [discriminate | apply T].
Qed.

Lemma star_loop_greedy_step step k n s c :
  star_loop step true k (S n) s c =
  match step s c (fun s' c' =>
          if length s' <? length s then star_loop step true k n s' c'
          else None) with
  | Some r => Some r
  | None => k s c
  end.
Proof. reflexivity. Qed.

Lemma star_loop_greedy_cls_bounded cs k n : forall s c,
  (forall s', length s' <= length s -> k s' c <> None) -> length s <= n ->
  star_loop (rmatch (Cls cs)) true k n s c = k (drop_while (cmatch cs) s) c.
Proof.
  induction n as [|n IH]; intros s c T L.
  - destruct s; [reflexivity | simpl in L; lia].
  - destruct s as [|x s]; simpl.
    + destruct (k [] c) eqn:K; [reflexivity|].
      exfalso. exact (T [] (le_n _) K).
    + destruct (cmatch cs x) eqn:C.
      * assert (Lt : (length s <? S (length s)) = true)
          by (apply Nat.ltb_lt; lia).
        rewrite Lt. rewrite IH.
        { destruct (k (drop_while (cmatch cs) s) c) eqn:K; [reflexivity|].
          exfalso. refine (T _ _ K).
          pose proof (drop_while_length (cmatch cs) s). simpl. lia. }
        { intros s' L'. apply T. simpl. lia. }
        { simpl in L. lia. }
      * reflexivity.
Qed.

Lemma rmatch_plus_greedy_cls_bounded cs s c k :
  (forall s', length s' < length s -> k s' c <> None) ->
  rmatch (Plus true (Cls cs)) s c k =
  match s with
  | x :: s2 =>
      if cmatch cs x then k (drop_while (cmatch cs) s2) c else None
  | [] => None
  end.
Proof.
  intros T. unfold Plus. cbn [rmatch].
  destruct s as [|x s2]; [reflexivity|].
  destruct (cmatch cs x); [|reflexivity].
  apply star_loop_greedy_cls_bounded; auto.
  intros s' L. apply T. simpl. lia.
Qed.

Definition is_lower (c : ascii) : bool := in_range "a"%char "z"%char c.

Lemma capword_total s c k res :
  (forall s', length s' < length s -> k s' c <> None) ->
  rmatch capword s c k = Some res ->
  exists cw s1,
    s = cw ++ s1 /\ capword_shape cw /\ stops is_lower s1 /\
    k s1 c = Some res.
Proof.
  intros T R. unfold capword in R. cbn [rmatch] in R.
  destruct s as [|x s0]; [discriminate|].
  cbn [cmatch] in R.
  destruct (in_range "A"%char "Z"%char x) eqn:X; [|discriminate].
  rewrite rmatch_plus_greedy_cls_bounded in R
    by (intros s' L; apply T; simpl; lia).
  destruct s0 as [|y s2]; [discriminate|]. cbn [cmatch] in R.
  destruct (in_range "a"%char "z"%char y) eqn:Y; [|discriminate].
  exists (x :: y :: take_while is_lower s2), (drop_while is_lower s2).
  split; [simpl; rewrite (take_drop_while is_lower s2); reflexivity|].
  split.
  - exists x, (y :: take_while is_lower s2).
    split; [reflexivity|]. split; [exact X|]. split; [discriminate|].
    simpl. rewrite Y. apply (take_while_all is_lower).
  - split; [apply drop_while_stops | exact R].
Qed.

Lemma more_word_total s c k res :
  (forall s', length s' < length s -> k s' c <> None) ->
  rmatch more_word s c k = Some res ->
  exists ws cw s1,
    s = ws ++ cw ++ s1 /\ blanks ws /\ capword_shape cw /\
    stops is_lower s1 /\ k s1 c = Some res.
Proof.
  intros T R. unfold more_word in R. apply rmatch_seq_some in R.
  destruct R as (ws & s' & c1 & -> & M & R).
  apply mtc_plus_cls in M. destruct M as (N & F & ->).
  apply capword_total in R.
  - destruct R as (cw & s1 & -> & Sh & St & K).
    exists ws, cw, s1. unfold blanks. auto 8.
  - intros s1 L. apply T. rewrite length_app. lia.
Qed.

(** No further word after [s]: no blanks and capitalised word at its
    head. *)
Definition no_word_follows (s : text) : Prop :=
  forall ws cw r, s = ws ++ cw ++ r -> blanks ws -> ~ capword_shape cw.

Lemma star_words_greedy k n : forall s c res,
  (forall s' c', k s' c' <> None) -> length s <= n ->
  star_loop (rmatch more_word) true k n s c = Some res ->
  exists more s',
    s = more ++ s' /\ words more /\ k s' c = Some res /\
    no_word_follows s' /\ (more <> [] -> stops is_lower s').
Proof.
  induction n as [|n IH]; intros s c res T L H.
  - destruct s; [|simpl in L; lia]. simpl in H.
    exists [], []. split; [reflexivity|]. split; [constructor|].
    split; [exact H|]. split; [|congruence].
    intros ws cw r E [N _]. destruct ws; [congruence | discriminate].
  - rewrite star_loop_greedy_step in H.
    set (again := fun (s' : text) (c' : caps) =>
           if length s' <? length s
           then star_loop (rmatch more_word) true k n s' c' else None) in *.
    assert (Ta : forall s1, length s1 < length s -> again s1 c <> None).
    { intros s1 L1. unfold again.
      apply Nat.ltb_lt in L1. rewrite L1. apply star_loop_total. exact T. }
    destruct (rmatch more_word s c again) as [r0|] eqn:R.
    + injection H as ->.
      apply more_word_total in R; [|exact Ta].
      destruct R as (ws & cw & s1 & -> & B & Sh & St & K).
      unfold again in K.
      destruct (length s1 <? length (ws ++ cw ++ s1)) eqn:P; [|discriminate].
      apply Nat.ltb_lt in P.
      apply IH in K; [|exact T|lia].
      destruct K as (more & s' & -> & W & K & Nw & Sl).
      exists (ws ++ cw ++ more), s'.
      split; [rewrite <- !app_assoc; reflexivity|].
      split; [constructor; assumption|]. split; [exact K|].
      split; [exact Nw|]. intros _.
      destruct more as [|m0 more]; [exact St | apply Sl; discriminate].
    + exists [], s. split; [reflexivity|]. split; [constructor|].
      split; [exact H|]. split; [|congruence].
      intros ws cw r E B Sh.
      assert (M : mtc more_word (ws ++ cw) r c c)
        by (apply mtc_more_word; eauto 8).
      pose proof (rmatch_complete more_word eq_refl _ _ _ R (ws ++ cw) r c) as A.
      rewrite <- app_assoc in A. specialize (A E M).
      refine (Ta r _ A). rewrite E, !length_app.
      destruct B as [N _]. destruct ws; [congruence | simpl; lia].
Qed.

Lemma rmatch_star_words s c k res :
  (forall s' c', k s' c' <> None) ->
  rmatch (Star true more_word) s c k = Some res ->
  exists more s',
    s = more ++ s' /\ words more /\ k s' c = Some res /\
    no_word_follows s' /\ (more <> [] -> stops is_lower s').
Proof.
  intros T R. cbn [rmatch] in R.
  exact (star_words_greedy k (length s) s c res T (le_n _) R).
Qed.

Lemma rmatch_star_total a s c k :
  (forall s' c', k s' c' <> None) -> rmatch (Star true a) s c k <> None.
Proof. intros T. cbn [rmatch]. apply star_loop_total. exact T. Qed.

Lemma rmatch_grp n a s c k :
  rmatch (Grp n a) s c k =
  rmatch a s c
    (fun s' c' => k s' ((n, firstn (length s - length s') s) :: c')).
Proof. reflexivity. Qed.

Lemma rmatch_seq a b s c k :
  rmatch (a >> b) s c k = rmatch a s c (fun s' c' => rmatch b s' c' k).
Proof. reflexivity. Qed.

Lemma aj_title w rest c c' :
  mtc (Alt (lit (str "Mr")) (Alt (lit (str "Mrs")) (lit (str "Ms"))))
    w rest c c' ->
  w = str "Mr" \/ w = str "Mrs" \/ w = str "Ms".
Proof.
  intros H. apply mtc_alt_inv in H. destruct H as [H|H].
  - apply (mtc_lit (str "Mr")) in H. destruct H; auto.
  - apply mtc_alt_inv in H. destruct H as [H|H].
    + apply (mtc_lit (str "Mrs")) in H. destruct H; auto.
    + apply (mtc_lit (str "Ms")) in H. destruct H; auto.
Qed.

(** Where the matcher stops in an AJ Bell name: behind the last small
    letter of a word that no further word follows. *)
Lemma rmatch_aj_client s0 s' cs :
  rmatch AJBell.client_re s0 [] accept = Some (s', cs) ->
  exists w,
    s0 = w ++ s' /\ aj_named w /\ stops is_lower s' /\ no_word_follows s'.
Proof.
  unfold AJBell.client_re. intros R.
  apply rmatch_seq_some in R. destruct R as (title & s1 & c1 & -> & M1 & R).
  assert (T : title = str "Mr" \/ title = str "Mrs" \/ title = str "Ms").
  { inversion M1; subst. eapply aj_title; eassumption. }
  apply rmatch_seq_some in R. destruct R as (ws & s2 & c2 & -> & Mw & R).
  apply mtc_plus_cls in Mw. destruct Mw as (N & F & ->).
  rewrite rmatch_grp in R.
  apply rmatch_seq_some in R. destruct R as (first & s3 & c3 & -> & Mf & R).
  apply mtc_capword in Mf. destruct Mf as [Shf ->].
  change (Plus true (Plus true sp >> capword))
    with (more_word >> Star true more_word) in R.
  rewrite rmatch_seq in R.
  apply more_word_total in R;
    [|intros; apply rmatch_star_total; intros; discriminate].
  destruct R as (ws2 & second & s4 & -> & B2 & Sh2 & St & R).
  apply rmatch_star_words in R; [|intros; discriminate].
  destruct R as (more & s5 & -> & W & K & Nw & Sl).
  unfold accept in K. injection K as <- _.
  exists (title ++ ws ++ first ++ ws2 ++ second ++ more).
  split; [rewrite <- !app_assoc; reflexivity|].
  split.
  - exists title, ws, first, ws2, second, more. unfold blanks. auto 10.
  - split; [|exact Nw].
    destruct more as [|m0 more]; [exact St | apply Sl; discriminate].
Qed.

(** An AJ Bell sheet on which the line after the name starts with a
    capitalised word. *)
Definition sample_aj_letter : text :=
  str "AJ Bell Youinvest" ++ nl ++
  str "Mr John Smith" ++ nl ++
  str "Account SCC12345" ++ nl.

Definition sample_aj_letter_record : dict :=
  Eval vm_compute in record_of (extract_aj_bell sample_aj_letter).

(** The client name an AJ Bell text gives, read off the text. *)
Definition aj_client_name_is (t : text) (c : value) : Prop :=
  (exists pre w post,
     t = pre ++ w ++ post /\ aj_named w /\
     stops is_lower post /\ no_word_follows post /\
     c = VStr w /\
     forall pre' w' post',
       t = pre' ++ w' ++ post' -> aj_named w' -> length pre <= length pre')
  \/
  (c = VNone /\
   forall pre w post, t = pre ++ w ++ post -> ~ aj_named w).

Lemma aj_client_name_spec t : aj_client_name_is t (aj_client_name t).
Proof.
  unfold aj_client_name_is, aj_client_name.
  destruct (search AJBell.client_re t) as [m|] eqn:S.
  - left. apply search_at_first in S.
    destruct S as (pre & s0 & s' & Et & _ & R & Em & MinP).
    destruct (rmatch_aj_client _ _ _ R) as (w & E0 & Nm & St & Nw).
    exists pre, w, s'.
    split; [rewrite Et, E0; reflexivity|].
    split; [exact Nm|]. split; [exact St|]. split; [exact Nw|]. split.
    + rewrite Em, E0, firstn_app_len, (aj_named_strip w Nm). reflexivity.
    + intros pre' w' post' E' Nm'.
      destruct (Nat.le_gt_cases (length pre) (length pre')) as [L|L];
        [exact L|].
      exfalso. rewrite Et in E'.
      destruct (prefix_split pre pre' _ _ E' ltac:(lia)) as (u & Eu & Ex).
      assert (Nu : u <> [])
        by (intros ->; rewrite app_nil_r in Eu; subst; lia).
      pose proof (MinP pre' u Eu Nu) as Nn. rewrite <- Ex in Nn.
      destruct (aj_client_mtc w' post' [] Nm') as (c' & M).
      pose proof (rmatch_complete AJBell.client_re eq_refl _ _ _ Nn
                    w' post' c' eq_refl M) as B.
      discriminate.
  - right. split; [reflexivity|].
    intros pre w post E Nm.
    apply search_none_iff in S; [|reflexivity]. apply S.
    destruct (aj_client_mtc w post [] Nm) as (c' & M).
    exists pre, w, post, c'. auto.
Qed.

(** The client name of an AJ Bell record is a piece of the text as it
    stands: the first place at which a title (Mr, Mrs, Ms), blanks and two
    or more capitalised words stand, each word after blanks, taken up to the
    end of a word behind which no further blanks and capitalised word come.
    Line breaks count as blanks, so the name runs on into the next line when
    that starts with a capitalised word.  Without such a place the name is
    null. *)
Theorem aj_bell_client_name (t : text) (d : dict) :
  extract_aj_bell t = Ok d ->
  (exists pre w post,
     t = pre ++ w ++ post /\ aj_named w /\
     stops is_lower post /\ no_word_follows post /\
     dget "client_name" d = Some (VStr w) /\
     forall pre' w' post',
       t = pre' ++ w' ++ post' -> aj_named w' -> length pre <= length pre')
  \/
  (dget "client_name" d = Some VNone /\
   forall pre w post, t = pre ++ w ++ post -> ~ aj_named w).
Proof.
  intros E. rewrite extract_aj_bell_eq in E.
  assert (Ec : dget "client_name" d = Some (aj_client_name t)).
  { destruct (search AJBell.isa_section_re t) as [isa|].
    - destruct (aj_fields t (m_text isa)) as [f|]; [|discriminate].
      inversion E; subst d. reflexivity.
    - inversion E; subst d. reflexivity. }
  rewrite Ec. clear E Ec d.
  destruct (aj_client_name_spec t)
    as [(pre & w & post & Et & Nm & St & Nw & Ew & L)|[Ew N]]; rewrite Ew.
  - left. exists pre, w, post. auto 8.
  - right. auto.
Qed.

Lemma aj_bell_client_name_witness :
  extract_aj_bell sample_aj_letter = Ok sample_aj_letter_record /\
  dget "client_name" sample_aj_letter_record
    = Some (VStr (str "Mr John Smith" ++ nl ++ str "Account")) /\
  ((exists pre w post,
      sample_aj_letter = pre ++ w ++ post /\ aj_named w /\
      stops is_lower post /\ no_word_follows post /\
      dget "client_name" sample_aj_letter_record = Some (VStr w) /\
      forall pre' w' post',
        sample_aj_letter = pre' ++ w' ++ post' -> aj_named w' ->
        length pre <= length pre')
   \/
   (dget "client_name" sample_aj_letter_record = Some VNone /\
    forall pre w post, sample_aj_letter = pre ++ w ++ post -> ~ aj_named w)).
Proof.
  assert (H : extract_aj_bell sample_aj_letter = Ok sample_aj_letter_record)
    by (vm_compute; reflexivity).
  split; [exact H|]. split; [reflexivity|].
  exact (aj_bell_client_name _ _ H).
Defined.

(** A title with its full stop, blanks and one or more capitalised words:
    what group 1 of the Morningstar [client_re] matches. *)
Definition ms_named (n : text) : Prop :=
  exists title ws first more,
    n = title ++ ws ++ first ++ more /\
    (title = str "Ms." \/ title = str "Mr." \/ title = str "Mrs.") /\
    blanks ws /\ capword_shape first /\ words more.

Lemma ms_title w rest c c' :
  mtc (Alt (lit (str "Ms.")) (Alt (lit (str "Mr.")) (lit (str "Mrs."))))
    w rest c c' ->
  (w = str "Ms." \/ w = str "Mr." \/ w = str "Mrs.") /\ c' = c.
Proof.
  intros H. apply mtc_alt_inv in H. destruct H as [H|H].
  - apply (mtc_lit (str "Ms.")) in H. destruct H; auto.
  - apply mtc_alt_inv in H. destruct H as [H|H].
    + apply (mtc_lit (str "Mr.")) in H. destruct H; auto.
    + apply (mtc_lit (str "Mrs.")) in H. destruct H; auto.
Qed.

Lemma rmatch_ms_client s0 s' cs :
  rmatch Morningstar.client_re s0 [] accept = Some (s', cs) ->
  exists ws0 n,
    s0 = str "PREPARED FOR" ++ ws0 ++ n ++ s' /\ blanks ws0 /\ ms_named n /\
    stops is_lower s' /\ no_word_follows s' /\ lookup_group 1 cs = Some n.
Proof.
  unfold Morningstar.client_re. intros R.
  apply rmatch_seq_some in R. destruct R as (l & s1 & c1 & -> & Ml & R).
  apply (mtc_lit (str "PREPARED FOR")) in Ml. destruct Ml as [-> ->].
  apply rmatch_seq_some in R. destruct R as (ws0 & s2 & c2 & -> & Mw & R).
  apply mtc_plus_cls in Mw. destruct Mw as (N0 & F0 & ->).
  rewrite rmatch_grp in R.
  apply rmatch_seq_some in R. destruct R as (title & s3 & c3 & E2 & Mt & R).
  apply ms_title in Mt. destruct Mt as [T ->].
  apply rmatch_seq_some in R. destruct R as (ws & s4 & c4 & -> & Mw & R).
  apply mtc_plus_cls in Mw. destruct Mw as (N & F & ->).
  change (Plus true sp >> capword) with more_word in R.
  rewrite rmatch_seq in R.
  apply capword_total in R;
    [|intros; apply rmatch_star_total; intros; discriminate].
  destruct R as (first & s5 & -> & Shf & St & R).
  apply rmatch_star_words in R; [|intros; discriminate].
  destruct R as (more & s6 & -> & W & K & Nw & Sl).
  unfold accept in K. injection K as -> <-.
  exists ws0, (title ++ ws ++ first ++ more).
  split; [rewrite E2, <- !app_assoc; reflexivity|].
  split; [split; assumption|].
  split; [exists title, ws, first, more; unfold blanks; auto 8|].
  split; [destruct more as [|m0 more]; [exact St | apply Sl; discriminate]|].
  split; [exact Nw|].
  simpl. f_equal.
  replace s2 with ((title ++ ws ++ first ++ more) ++ s')
    by (rewrite E2, <- !app_assoc; reflexivity).
  apply firstn_app_len.
Qed.

Lemma ms_client_mtc ws0 n rest c :
  blanks ws0 -> ms_named n ->
  exists c', mtc Morningstar.client_re
               (str "PREPARED FOR" ++ ws0 ++ n) rest c c'.
Proof.
  intros [N0 F0] (title & ws & first & more & -> & T & [N F] & Shf & W).
  eexists. unfold Morningstar.client_re.
  eapply MSeq; [apply lit_mtc|].
  eapply MSeq; [apply plus_cls_mtc; assumption|].
  constructor.
  eapply MSeq.
  { destruct T as [-> | [-> | ->]].
    - apply MAltL. apply lit_mtc.
    - apply MAltR. apply MAltL. apply lit_mtc.
    - apply MAltR. apply MAltR. apply lit_mtc. }
  eapply MSeq; [apply plus_cls_mtc; assumption|].
  eapply MSeq; [apply mtc_capword; split; [exact Shf | reflexivity]|].
  change (Plus true sp >> capword) with more_word.
  apply mtc_star_words. auto.
Qed.

Lemma ms_named_strip n : ms_named n -> strip n = n.
Proof.
  intros (title & ws & first & more & -> & T & B & Shf & W).
  assert (L : exists m c,
    title ++ ws ++ first ++ more = m ++ [c] /\ is_space c = false).
  { rewrite !app_assoc. apply words_last; [|exact W].
    destruct (capword_last first Shf) as (m & c & -> & C).
    exists ((title ++ ws) ++ m), c. rewrite <- !app_assoc. auto. }
  destruct L as (m & c & E & C).
  destruct T as [-> | [-> | ->]]; simpl in *;
    eapply strip_id; eauto.
Qed.

(** A Morningstar report on which the line after the name starts with a
    capitalised word. *)
Definition sample_ms_letter : text :=
  str "Morningstar report" ++ nl ++
  str "PREPARED FOR  Ms. Jane Doe" ++ nl ++
  str "Investment held: ISA" ++ nl ++
  str "Portfolio Valuation " ++ [pound] ++ str "10,000.00" ++ nl.

Definition sample_ms_letter_record : dict :=
  Eval vm_compute in record_of (extract_morningstar sample_ms_letter).

(** The client name of a Morningstar record is a piece of the text as it
    stands: at the first place at which "PREPARED FOR", blanks, a title
    (Ms., Mr., Mrs.), blanks and one or more capitalised words stand, the
    part from the title on, taken up to the end of a word behind which no
    further blanks and capitalised word come.  Line breaks count as blanks,
    so the name runs on into the next line when that starts with a
    capitalised word.  Without such a place the name is null. *)
Theorem morningstar_client_name (t : text) (d : dict) :
  extract_morningstar t = Ok d ->
  (exists pre ws0 n post,
     t = pre ++ str "PREPARED FOR" ++ ws0 ++ n ++ post /\
     blanks ws0 /\ ms_named n /\
     stops is_lower post /\ no_word_follows post /\
     dget "client_name" d = Some (VStr n) /\
     forall pre' ws' n' post',
       t = pre' ++ str "PREPARED FOR" ++ ws' ++ n' ++ post' ->
       blanks ws' -> ms_named n' -> length pre <= length pre')
  \/
  (dget "client_name" d = Some VNone /\
   forall pre ws0 n post,
     t = pre ++ str "PREPARED FOR" ++ ws0 ++ n ++ post ->
     blanks ws0 -> ~ ms_named n).
Proof.
  intros E. rewrite extract_morningstar_eq in E.
  assert (Ec : dget "client_name" d = Some (ms_client_name t)).
  { destruct (ms_fields (str "ISA") t) as [isa|]; [|discriminate].
    destruct (ms_fields (str "SIPP") t) as [sipp|]; [|discriminate].
    inversion E; subst d. reflexivity. }
  rewrite Ec. clear E Ec d. unfold ms_client_name.
  destruct (search Morningstar.client_re t) as [m|] eqn:S.
  - left. apply search_at_first in S.
    destruct S as (pre & s0 & s' & Et & _ & R & _ & MinP).
    destruct (rmatch_ms_client _ _ _ R)
      as (ws0 & n & E0 & B0 & Nm & St & Nw & G).
    exists pre, ws0, n, s'.
    split; [rewrite Et, E0; reflexivity|].
    split; [exact B0|]. split; [exact Nm|].
    split; [exact St|]. split; [exact Nw|]. split.
    + unfold group. rewrite G, (ms_named_strip n Nm). reflexivity.
    + intros pre' ws' n' post' E' B' Nm'.
      destruct (Nat.le_gt_cases (length pre) (length pre')) as [L|L];
        [exact L|].
      exfalso. rewrite Et in E'.
      destruct (prefix_split pre pre' _ _ E' ltac:(lia)) as (u & Eu & Ex).
      assert (Nu : u <> [])
        by (intros ->; rewrite app_nil_r in Eu; subst; lia).
      pose proof (MinP pre' u Eu Nu) as Nn. rewrite <- Ex in Nn.
      destruct (ms_client_mtc ws' n' post' [] B' Nm') as (c' & M).
      pose proof (rmatch_complete Morningstar.client_re eq_refl _ _ _ Nn
                    (str "PREPARED FOR" ++ ws' ++ n') post' c') as B.
      rewrite <- !app_assoc in B. specialize (B eq_refl M).
      discriminate.
  - right. split; [reflexivity|].
    intros pre ws0 n post E B0 Nm.
    apply search_none_iff in S; [|reflexivity]. apply S.
    destruct (ms_client_mtc ws0 n post [] B0 Nm) as (c' & M).
    exists pre, (str "PREPARED FOR" ++ ws0 ++ n), post, c'.
    split; [rewrite E, <- !app_assoc; reflexivity | exact M].
Qed.

Lemma morningstar_client_name_witness :
  extract_morningstar sample_ms_letter = Ok sample_ms_letter_record /\
  dget "client_name" sample_ms_letter_record
    = Some (VStr (str "Ms. Jane Doe" ++ nl ++ str "Investment")) /\
  ((exists pre ws0 n post,
      sample_ms_letter = pre ++ str "PREPARED FOR" ++ ws0 ++ n ++ post /\
      blanks ws0 /\ ms_named n /\
      stops is_lower post /\ no_word_follows post /\
      dget "client_name" sample_ms_letter_record = Some (VStr n) /\
      forall pre' ws' n' post',
        sample_ms_letter = pre' ++ str "PREPARED FOR" ++ ws' ++ n' ++ post' ->
        blanks ws' -> ms_named n' -> length pre <= length pre')
   \/
   (dget "client_name" sample_ms_letter_record = Some VNone /\
    forall pre ws0 n post,
      sample_ms_letter = pre ++ str "PREPARED FOR" ++ ws0 ++ n ++ post ->
      blanks ws0 -> ~ ms_named n)).
Proof.
  assert (H : extract_morningstar sample_ms_letter
              = Ok sample_ms_letter_record)
    by (vm_compute; reflexivity).
  split; [exact H|]. split; [reflexivity|].
  exact (morningstar_client_name _ _ H).
Defined.

(* ================================================================= *)
(** ** C10: no ISA heading, no account; the SIPP section adds nothing *)

(** An AJ Bell sheet with a client, an account number and a SIPP section
    full of amounts and percentages, and no ISA section. *)
Definition sample_aj_sipp_named : text :=
  str "AJ Bell Youinvest" ++ nl ++
  str "Mr John Smith  SCC12345" ++ nl ++
  str "SIPP - Performance summary" ++ nl ++
  str "Cash in " ++ [pound] ++ str "1,000.00  " ++ [pound]
    ++ str "9,999.99  5.25%" ++ nl ++
  str "Time-weighted return 7.5%" ++ nl ++
  str "SIPP - Holdings" ++ nl ++
  str "Total - 1,234.56 - 2,345.67" ++ nl.

Definition sample_aj_sipp_named_record : dict :=
  Eval vm_compute in record_of (extract_aj_bell sample_aj_sipp_named).

(** C10.  An AJ Bell text without the heading "ISA - Performance summary"
    gives a record, and it is the one with the provider, the client name, no
    account, total value 0 and an empty [performance], and nothing else.
    With the heading a record has the one ISA account, its value as the
    total and its performance as [oneYearReturn], and nothing else.  So a
    SIPP section adds nothing to a record, whatever it holds: the client
    name is the one the text gives, and there is no key, no account and no
    number for it. *)
Theorem aj_bell_without_isa_heading (t : text) :
  exists c,
    aj_client_name_is t c /\
    (~ substring (str "ISA - Performance summary") t ->
     extract_aj_bell t =
       Ok [ ("provider"%string, VStr (str "AJ Bell"));
            ("client_name"%string, c);
            ("accounts"%string, VList []);
            ("total_value"%string, VNum zero);
            ("performance"%string, VDict []) ]) /\
    (substring (str "ISA - Performance summary") t ->
     forall d,
       extract_aj_bell t = Ok d ->
       exists acc v p,
         d = [ ("provider"%string, VStr (str "AJ Bell"));
               ("client_name"%string, c);
               ("accounts"%string, VList [acc]);
               ("total_value"%string, VNum (fadd zero v));
               ("performance"%string,
                VDict [("oneYearReturn"%string, VNum p)]) ] /\
         item "type" acc = Ok (VStr (str "ISA")) /\
         num_field "value" acc = Ok v /\
         num_field "performance" acc = Ok p).
Proof.
  exists (aj_client_name t). split; [apply aj_client_name_spec|].
  rewrite extract_aj_bell_eq.
  destruct (search AJBell.isa_section_re t) as [isa|] eqn:S.
  - split.
    + intros N. exfalso. apply N. exact (search_seq_lit _ _ _ _ S).
    + intros _ d E.
      destruct (aj_fields t (m_text isa)) as [f|]; [|discriminate].
      inversion E; subst d; clear E.
      exists (aj_account (aj_account_number t) f), (f_value f),
        (f_performance f).
      repeat split.
  - split.
    + intros _. reflexivity.
    + intros Hh. destruct (isa_section_found t Hh) as [isa I]. congruence.
Qed.

Lemma aj_bell_without_isa_heading_witness :
  ~ substring (str "ISA - Performance summary") sample_aj_sipp_named /\
  substring (str "SIPP - Performance summary") sample_aj_sipp_named /\
  exists c,
    aj_client_name_is sample_aj_sipp_named c /\
    extract_aj_bell sample_aj_sipp_named =
      Ok [ ("provider"%string, VStr (str "AJ Bell"));
           ("client_name"%string, c);
           ("accounts"%string, VList []);
           ("total_value"%string, VNum zero);
           ("performance"%string, VDict []) ] /\
    c = VStr (str "Mr John Smith").
Proof.
  assert (H : extract_aj_bell sample_aj_sipp_named
              = Ok sample_aj_sipp_named_record)
    by (vm_compute; reflexivity).
  assert (N : ~ substring (str "ISA - Performance summary")
                sample_aj_sipp_named).
  { intros Hs. apply contains_iff in Hs. vm_compute in Hs. discriminate. }
  split; [exact N|].
  split; [apply contains_iff; vm_compute; reflexivity|].
  destruct (aj_bell_without_isa_heading sample_aj_sipp_named)
    as (c & Hc & Hn & _).
  exists c. split; [exact Hc|]. split; [exact (Hn N)|].
  pose proof (Hn N) as E. rewrite H in E. injection E as E.
  vm_compute in E. symmetry. exact E.
Defined.
